(** * rss_to_posts: a shallow embedding of scripts/rss_to_posts.py

    The script fetches RSS/Atom feeds, writes one HTML document per new
    entry under posts/, and keeps posts/manifest.json, the ordered and
    deduplicated index of the documents.  This file embeds its functions
    in Gallina and proves (or refutes) the properties the design
    document states about them.

    Conventions.
    - A Python [str] is a list of Unicode code points ([N]); [len],
      slicing and the regular expressions of the script all count code
      points, so this is the granularity the script works at.
    - Python exceptions are the [Raise] results of the type [result].
    - The file system, the wall clock and the feed parser are explicit:
      the first two live in the record [world] that the run threads
      through, the parser and the storage oracles in the record [env]. *)

From Stdlib Require Import List NArith ZArith Bool Lia.
From Stdlib Require String Ascii.
From Stdlib Require Import Permutation Sorted.
Import ListNotations.
Import String.StringSyntax.

Set Warnings "-register-all".
Open Scope N_scope.
Open Scope string_scope.
Open Scope list_scope.

(* ===================================================================== *)
(** * Python strings                                                       *)
(* ===================================================================== *)

Module Py.

Definition char := N.
Definition str := list char.

(** An ASCII literal as a Python string. *)
Definition lit (s : String.string) : str :=
  map Ascii.N_of_ascii (String.list_ascii_of_string s).

Definition str_eqb (a b : str) : bool :=
  if list_eq_dec N.eq_dec a b then true else false.

(** [x or y] on strings: the empty string is false. *)
Definition or_str (x y : str) : str :=
  match x with [] => y | _ => x end.

(** [x or y] when [x] may be [None]. *)
Definition opt_or (x : option str) (y : str) : str :=
  match x with Some (c :: r) => c :: r | _ => y end.

(** Truth value of an optional string attribute ([None] and the empty
    string are false). *)
Definition truthy_opt (x : option str) : bool :=
  match x with Some (_ :: _) => true | _ => false end.

(** [str.isspace] of one character, which is also what [\s] matches in a
    [str] pattern: the code points Py_UNICODE_ISSPACE accepts. *)
Definition isspace (c : char) : bool :=
  ((9 <=? c) && (c <=? 13)) || ((28 <=? c) && (c <=? 32))
  || (c =? 133) || (c =? 160) || (c =? 5760)
  || ((8192 <=? c) && (c <=? 8202))
  || (c =? 8232) || (c =? 8233) || (c =? 8239) || (c =? 8287)
  || (c =? 12288).

Fixpoint drop_while (f : char -> bool) (s : str) : str :=
  match s with
  | [] => []
  | c :: r => if f c then drop_while f r else s
  end.

Fixpoint take_while (f : char -> bool) (s : str) : str :=
  match s with
  | [] => []
  | c :: r => if f c then c :: take_while f r else []
  end.

Definition lstrip_by (f : char -> bool) (s : str) : str := drop_while f s.
Definition rstrip_by (f : char -> bool) (s : str) : str :=
  rev (drop_while f (rev s)).
Definition strip_by (f : char -> bool) (s : str) : str :=
  rstrip_by f (lstrip_by f s).

(** [s.strip()], [s.rstrip()] and [s.strip(chars)]. *)
Definition strip (s : str) : str := strip_by isspace s.
Definition rstrip (s : str) : str := rstrip_by isspace s.
Definition strip_chars (chars : str) (s : str) : str :=
  strip_by (fun c => existsb (N.eqb c) chars) s.

(** [s[:n]] for a Python integer [n]: a negative bound counts from the
    end, and every bound is clamped to the string. *)
Definition slice_to {A} (n : Z) (s : list A) : list A :=
  if (0 <=? n)%Z then firstn (Z.to_nat n) s
  else firstn (length s - Z.to_nat (- n))%nat s.

(** [sep.join(parts)]. *)
Fixpoint join (sep : str) (parts : list str) : str :=
  match parts with
  | [] => []
  | [p] => p
  | p :: rest => p ++ sep ++ join sep rest
  end.

(** [s.split(sep)] for a one-character separator: always at least one
    field, empty fields kept. *)
Fixpoint split_on (sep : char) (s : str) : list str :=
  match s with
  | [] => [[]]
  | c :: r =>
      if c =? sep then [] :: split_on sep r
      else match split_on sep r with
           | f :: fs => (c :: f) :: fs
           | [] => [[c]]
           end
  end.

(** ** Regular expressions

    A compiled pattern is represented by its matcher: at the start of
    the text it is given, the length of the match that begins there, if
    any.  Every pattern of the script consumes at least one character,
    so empty matches do not arise. *)
Definition pattern := str -> option nat.

(** [re.sub(p, repl, s)]: non-overlapping matches, leftmost first; the
    counter [skip] is the number of characters of the current match that
    are still to be consumed. *)
Fixpoint sub_from (p : pattern) (repl : str) (skip : nat) (s : str) : str :=
  match s with
  | [] => []
  | c :: r =>
      match skip with
      | S k => sub_from p repl k r
      | O =>
          match p s with
          | Some (S k) => repl ++ sub_from p repl k r
          | _ => c :: sub_from p repl 0 r
          end
      end
  end.

Definition re_sub (p : pattern) (repl : str) (s : str) : str :=
  sub_from p repl 0 s.

(** [C{n,}] for a character class [C] (greedy: the whole run). *)
Definition class_min (n : nat) (cls : char -> bool) : pattern :=
  fun s => let k := length (take_while cls s) in
           if (n <=? k)%nat then Some k else None.

(** [C+]. *)
Definition class_plus (cls : char -> bool) : pattern := class_min 1 cls.

Definition LT : char := 60.
Definition GT : char := 62.
Definition HYPHEN : char := 45.
Definition SPACE : char := 32.

Definition not_gt (c : char) : bool := negb (c =? GT).

(** [<[^>]+>]. *)
Definition re_tag : pattern :=
  fun s =>
    match s with
    | c :: r =>
        if c =? LT then
          let k := length (take_while not_gt r) in
          match k, nth_error r k with
          | S _, Some _ => Some (S (S k))
          | _, _ => None
          end
        else None
    | [] => None
    end.

(** [\s+]. *)
Definition re_spaces : pattern := class_plus isspace.

Definition is_slug_char (c : char) : bool :=
  ((97 <=? c) && (c <=? 122)) || ((48 <=? c) && (c <=? 57)) || (c =? HYPHEN).

(** [[^a-z0-9\-]+], the script's [_slug_invalid]. *)
Definition _slug_invalid : pattern := class_plus (fun c => negb (is_slug_char c)).

(** [-{2,}]. *)
Definition re_hyphens : pattern := class_min 2 (fun c => c =? HYPHEN).

End Py.
Import Py.

(* ===================================================================== *)
(** * Library functions the script calls                                   *)
(* ===================================================================== *)

(** Exceptions, and results of computations that may raise. *)
Inductive exn : Type :=
| AttributeError
| TypeError
| UnicodeEncodeError
| JSONDecodeError
| KeyError
| OSError.

Inductive result (A : Type) : Type :=
| Ok (a : A)
| Raise (e : exn).
Arguments Ok {A} a.
Arguments Raise {A} e.

Definition rbind {A B} (m : result A) (k : A -> result B) : result B :=
  match m with
  | Ok a => k a
  | Raise e => Raise e
  end.

(** [s.encode("utf-8")]: surrogate code points cannot be encoded. *)
Definition utf8_char (c : char) : option (list N) :=
  if c <? 128 then Some [c]
  else if c <? 2048 then
    Some [N.lor 192 (N.shiftr c 6); N.lor 128 (N.land c 63)]
  else if (55296 <=? c) && (c <=? 57343) then None
  else if c <? 65536 then
    Some [N.lor 224 (N.shiftr c 12);
          N.lor 128 (N.land (N.shiftr c 6) 63);
          N.lor 128 (N.land c 63)]
  else if c <? 1114112 then
    Some [N.lor 240 (N.shiftr c 18);
          N.lor 128 (N.land (N.shiftr c 12) 63);
          N.lor 128 (N.land (N.shiftr c 6) 63);
          N.lor 128 (N.land c 63)]
  else None.

Fixpoint encode_utf8 (s : str) : result (list N) :=
  match s with
  | [] => Ok []
  | c :: r =>
      match utf8_char c with
      | None => Raise UnicodeEncodeError
      | Some bs => rbind (encode_utf8 r) (fun rest => Ok (bs ++ rest))
      end
  end.

(** [hashlib.sha1]: FIPS 180-4 SHA-1 over a list of bytes, on 32-bit
    words written as [N] with the wrap-around explicit. *)
Module SHA1.

Definition mask32 : N := 4294967295.
Definition add32 (a b : N) : N := N.land (a + b) mask32.
Definition rotl (n x : N) : N :=
  N.land (N.lor (N.shiftl x n) (N.shiftr x (32 - n))) mask32.
Definition not32 (x : N) : N := N.lxor x mask32.

Definition be_bytes (width : nat) (n : N) : list N :=
  map (fun i => N.land (N.shiftr n (8 * N.of_nat i)) 255) (rev (seq 0 width)).

Definition pad (msg : list N) : list N :=
  let l := length msg in
  let k := ((64 - (l + 9) mod 64) mod 64)%nat in
  msg ++ [128] ++ repeat 0 k ++ be_bytes 8 (8 * N.of_nat l).

Fixpoint words (n : nat) (bs : list N) : list N :=
  match n with
  | O => []
  | S n' =>
      match bs with
      | a :: b :: c :: d :: r =>
          N.lor (N.shiftl a 24) (N.lor (N.shiftl b 16) (N.lor (N.shiftl c 8) d))
          :: words n' r
      | _ => []
      end
  end.

Fixpoint extend (n : nat) (w : list N) : list N :=
  match n with
  | O => w
  | S n' =>
      let i := length w in
      let x := N.lxor (N.lxor (nth (i - 3) w 0) (nth (i - 8) w 0))
                      (N.lxor (nth (i - 14) w 0) (nth (i - 16) w 0)) in
      extend n' (w ++ [rotl 1 x])
  end.

Record state := St { h0 : N; h1 : N; h2 : N; h3 : N; h4 : N }.

Definition init : state :=
  St 1732584193 4023233417 2562383102 271733878 3285377520.

Definition round (w : list N) (s : state) (i : nat) : state :=
  let '(St a b c d e) := s in
  let '(f, k) :=
    if (i <? 20)%nat then
      (N.lor (N.land b c) (N.land (not32 b) d), 1518500249)
    else if (i <? 40)%nat then
      (N.lxor b (N.lxor c d), 1859775393)
    else if (i <? 60)%nat then
      (N.lor (N.land b c) (N.lor (N.land b d) (N.land c d)), 2400959708)
    else
      (N.lxor b (N.lxor c d), 3395469782) in
  let temp := add32 (add32 (add32 (add32 (rotl 5 a) f) e) k) (nth i w 0) in
  St temp a (rotl 30 b) c d.

Definition block (s : state) (bs : list N) : state :=
  let w := extend 64 (words 16 bs) in
  let '(St a b c d e) := fold_left (round w) (seq 0 80) s in
  St (add32 (h0 s) a) (add32 (h1 s) b) (add32 (h2 s) c)
     (add32 (h3 s) d) (add32 (h4 s) e).

Fixpoint blocks (n : nat) (s : state) (bs : list N) : state :=
  match n with
  | O => s
  | S n' => blocks n' (block s (firstn 64 bs)) (skipn 64 bs)
  end.

Definition digest (msg : list N) : list N :=
  let p := pad msg in
  let s := blocks (length p / 64) init p in
  be_bytes 4 (h0 s) ++ be_bytes 4 (h1 s) ++ be_bytes 4 (h2 s)
  ++ be_bytes 4 (h3 s) ++ be_bytes 4 (h4 s).

Definition hex_digit (n : N) : char :=
  if n <? 10 then 48 + n else 87 + n.

Definition hex_byte (b : N) : str :=
  [hex_digit (N.shiftr b 4); hex_digit (N.land b 15)].

(** [hashlib.sha1(data).hexdigest()]. *)
Definition hexdigest (msg : list N) : str :=
  flat_map hex_byte (digest msg).

End SHA1.

(** [str(n)] for a natural number. *)
Fixpoint digits_rev (fuel : nat) (n : N) : str :=
  match fuel with
  | O => []
  | S f => (48 + n mod 10) :: (if n / 10 =? 0 then [] else digits_rev f (n / 10))
  end.

Definition dec (n : nat) : str :=
  rev (digits_rev (S n) (N.of_nat n)).

(** A field printed on exactly [width] digits ([%02d] and the like). *)
Fixpoint pad_rev (width : nat) (n : N) : str :=
  match width with
  | O => []
  | S w => (48 + n mod 10) :: pad_rev w (n / 10)
  end.

Definition zpad (width : nat) (n : N) : str := rev (pad_rev width n).

(** ** Dates

    A timezone-aware UTC [datetime]. *)
Record datetime := {
  year : N; month : N; day : N;
  hour : N; minute : N; second : N; microsecond : N
}.

(** [dt.strftime("%Y-%m-%d")], the year on four digits. *)
Definition strftime_ymd (dt : datetime) : str :=
  zpad 4 (year dt) ++ [HYPHEN] ++ zpad 2 (month dt) ++ [HYPHEN] ++ zpad 2 (day dt).

(** [dt.isoformat()] of a UTC datetime. *)
Definition isoformat (dt : datetime) : str :=
  strftime_ymd dt ++ lit "T"
  ++ zpad 2 (hour dt) ++ lit ":" ++ zpad 2 (minute dt) ++ lit ":" ++ zpad 2 (second dt)
  ++ (if microsecond dt =? 0 then [] else lit "." ++ zpad 6 (microsecond dt))
  ++ lit "+00:00".

(** [time.struct_time], the calendar-time tuples of the feed parser. *)
Record struct_time := {
  tm_year : Z; tm_mon : Z; tm_mday : Z;
  tm_hour : Z; tm_min : Z; tm_sec : Z
}.

(** ** JSON values

    What [json.load] returns.  A [dict] is an association list in
    insertion order, the order [json.dump] writes it back in.  Numbers
    with a fraction or an exponent are not modelled. *)
Inductive json : Type :=
| JNull
| JBool (b : bool)
| JInt (z : Z)
| JStr (s : str)
| JList (l : list json)
| JDict (d : list (str * json)).

Fixpoint dict_get (k : str) (d : list (str * json)) : option json :=
  match d with
  | [] => None
  | (k', v) :: r => if str_eqb k k' then Some v else dict_get k r
  end.

(** [d[k] = v]: an existing key keeps its position, a new one goes last. *)
Fixpoint dict_set (k : str) (v : json) (d : list (str * json)) : list (str * json) :=
  match d with
  | [] => [(k, v)]
  | (k', v') :: r =>
      if str_eqb k k' then (k', v) :: r else (k', v') :: dict_set k v r
  end.

(** [x.get(k, default)]. *)
Definition py_get (x : json) (k : str) (default : json) : result json :=
  match x with
  | JDict d => Ok (match dict_get k d with Some v => v | None => default end)
  | _ => Raise AttributeError
  end.

(** [x[k]]. *)
Definition py_item (x : json) (k : str) : result json :=
  match x with
  | JDict d => match dict_get k d with Some v => Ok v | None => Raise KeyError end
  | _ => Raise TypeError
  end.

(** [bool(x)]. *)
Definition truthy (x : json) : bool :=
  match x with
  | JNull => false
  | JBool b => b
  | JInt z => negb (z =? 0)%Z
  | JStr s => match s with [] => false | _ => true end
  | JList l => match l with [] => false | _ => true end
  | JDict d => match d with [] => false | _ => true end
  end.

(** Lists and dicts cannot be members of a [set]. *)
Definition hashable (x : json) : bool :=
  match x with
  | JList _ | JDict _ => false
  | _ => true
  end.

(** The value of a number; [bool] is a subclass of [int], [True] is 1
    and [False] is 0. *)
Definition num_of (x : json) : option Z :=
  match x with
  | JBool b => Some (if b then 1 else 0)%Z
  | JInt z => Some z
  | _ => None
  end.

(** [a == b] on hashable values. *)
Definition atom_eqb (a b : json) : bool :=
  match a, b with
  | JNull, JNull => true
  | JStr s, JStr t => str_eqb s t
  | _, _ =>
      match num_of a, num_of b with
      | Some x, Some y => (x =? y)%Z
      | _, _ => false
      end
  end.

(** A [set] of hashable values. *)
Definition pyset := list json.
Definition set_mem (x : json) (s : pyset) : bool := existsb (atom_eqb x) s.
Definition set_add (x : json) (s : pyset) : pyset :=
  if set_mem x s then s else x :: s.

(** [a < b] on strings: lexicographic on code points. *)
Fixpoint str_ltb (a b : str) : bool :=
  match a, b with
  | _, [] => false
  | [], _ :: _ => true
  | x :: a', y :: b' =>
      if x <? y then true else if y <? x then false else str_ltb a' b'
  end.

(** [a < b] on JSON values.  Strings compare with strings and numbers
    with numbers; every other pairing raises.  (Python also orders two
    lists when their elements can be ordered; a list as a sort key is
    outside this model and is reported as the same [TypeError].) *)
Definition py_lt (a b : json) : result bool :=
  match a, b with
  | JStr s, JStr t => Ok (str_ltb s t)
  | _, _ =>
      match num_of a, num_of b with
      | Some x, Some y => Ok (x <? y)%Z
      | _, _ => Raise TypeError
      end
  end.

(** ** [list.sort(key=..., reverse=True)]

    The keys are computed first; the sort then only uses [<] on the
    keys.  It is stable, also with [reverse=True]: of two elements none
    of which is smaller than the other, the one that came first stays
    first.  [insert_desc x l] puts [x], which came before all of [l],
    in front of the first element that is not greater than [x]. *)
Fixpoint insert_desc {A} (x : json * A) (l : list (json * A)) : result (list (json * A)) :=
  match l with
  | [] => Ok [x]
  | y :: r =>
      rbind (py_lt (fst x) (fst y)) (fun lt =>
        if lt then rbind (insert_desc x r) (fun r' => Ok (y :: r'))
        else Ok (x :: y :: r))
  end.

Fixpoint sort_desc {A} (l : list (json * A)) : result (list (json * A)) :=
  match l with
  | [] => Ok []
  | x :: r => rbind (sort_desc r) (insert_desc x)
  end.

Fixpoint map_result {A B} (f : A -> result B) (l : list A) : result (list B) :=
  match l with
  | [] => Ok []
  | x :: r => rbind (f x) (fun y => rbind (map_result f r) (fun ys => Ok (y :: ys)))
  end.

Definition sort_by_key_desc (key : json -> result json) (l : list json) : result (list json) :=
  rbind (map_result key l) (fun keys =>
  rbind (sort_desc (combine keys l)) (fun sorted =>
  Ok (map snd sorted))).

(** ** The feed parser's output *)

Record FeedEntry := {
  entry_id : option str;
  entry_link : option str;
  entry_title : option str;
  entry_summary : option str;
  (** the [value] attribute of each content part, when there is one *)
  entry_content : option (list (option str));
  published_parsed : option struct_time;
  updated_parsed : option struct_time
}.

Record parsed_feed := {
  bozo : bool;
  bozo_exception : str;
  entries : list FeedEntry
}.

(** ** Files *)
Inductive file (A : Type) : Type :=
| Absent
| Unreadable
| Holds (content : A).
Arguments Absent {A}.
Arguments Unreadable {A}.
Arguments Holds {A} content.

Definition exists_ {A} (f : file A) : bool :=
  match f with Absent => false | _ => true end.

Definition read_text {A} (f : file A) : result A :=
  match f with
  | Holds c => Ok c
  | _ => Raise OSError
  end.

(** The bytes of a file, seen through [json.load]. *)
Inductive document : Type :=
| NotJson
| Json (data : json).

Definition json_load (f : file document) : result json :=
  rbind (read_text f) (fun d =>
    match d with
    | Json data => Ok data
    | NotJson => Raise JSONDecodeError
    end).

Inductive write_outcome : Type :=
| Written
| OpenFails
| WriteFails.

(* ===================================================================== *)
(** * Utilities of the script                                              *)
(* ===================================================================== *)

(** [slugify]; [lower] is [str.lower], Python's Unicode lower-casing. *)
Definition slugify (lower : str -> str) (text : option str) : str :=
  let text := strip (lower (opt_or text [])) in
  let text := re_sub re_spaces [HYPHEN] text in
  let text := re_sub _slug_invalid [HYPHEN] text in
  let text := strip_chars [HYPHEN] (re_sub re_hyphens [HYPHEN] text) in
  or_str text (lit "post").

(** [str.lower] restricted to ASCII text. *)
Definition ascii_lower (s : str) : str :=
  map (fun c => if (65 <=? c) && (c <=? 90) then c + 32 else c) s.

Definition ELLIPSIS : char := 8230.

(** [summarize_text]. *)
Definition summarize_text (html : option str) (max_len : Z) : str :=
  let txt := re_sub re_tag [SPACE] (opt_or html []) in
  let txt := strip (re_sub re_spaces [SPACE] txt) in
  if (max_len <? Z.of_nat (length txt))%Z
  then rstrip (slice_to (max_len - 1) txt) ++ [ELLIPSIS]
  else txt.

Definition BAR : char := 124.

(** [getattr(entry, name, "")] for a string attribute. *)
Definition attr_or_empty (x : option str) : str :=
  match x with Some t => t | None => [] end.

(** The text that is hashed. *)
Definition identity_base (entry : FeedEntry) : str :=
  slice_to 512
    (attr_or_empty (entry_title entry) ++ [BAR] ++ attr_or_empty (entry_summary entry)).

(** [post_identity]: the entry's id, else its link, else the SHA-1 of the
    first 512 characters of title, a bar, and summary. *)
Definition post_identity (entry : FeedEntry) : result str :=
  if truthy_opt (entry_id entry) then Ok (opt_or (entry_id entry) [])
  else if truthy_opt (entry_link entry) then Ok (opt_or (entry_link entry) [])
  else
    rbind (encode_utf8 (identity_base entry)) (fun bytes =>
    Ok (SHA1.hexdigest bytes)).

Definition STYLES_HREF : str := lit "/styles.css".
Definition SCRIPT_SRC : str := lit "/site.js".

Definition NL : char := 10.
Definition DQ : str := [34].

(** The optional advertisement include of [render_html]. *)
Definition read_ads (ads : file str) : str :=
  if exists_ ads then
    match read_text ads with
    | Ok text => text
    | Raise _ => []
    end
  else [].

Definition source_paragraph (source_link : option str) : str :=
  if truthy_opt source_link then
    lit "<p><a href=" ++ DQ ++ opt_or source_link [] ++ DQ
    ++ lit " rel=" ++ DQ ++ lit "noopener noreferrer" ++ DQ
    ++ lit ">Source</a></p>"
  else [].

(** [render_html]; [ads] is the file at [ADS_SNIPPET]. *)
Definition render_html (ads : file str)
    (title date_iso content_html : str) (source_link : option str) : str :=
  let ads_html := read_ads ads in
  join [NL]
    [ lit "<!doctype html>";
      lit "<html lang=" ++ DQ ++ lit "en" ++ DQ ++ lit ">";
      lit "<head>";
      lit "  <meta charset=" ++ DQ ++ lit "utf-8" ++ DQ ++ lit ">";
      lit "  <meta name=" ++ DQ ++ lit "viewport" ++ DQ ++ lit " content="
        ++ DQ ++ lit "width=device-width,initial-scale=1" ++ DQ ++ lit ">";
      lit "  <title>" ++ title ++ lit "</title>";
      lit "  <link rel=" ++ DQ ++ lit "stylesheet" ++ DQ ++ lit " href="
        ++ DQ ++ STYLES_HREF ++ DQ ++ lit ">";
      lit "</head>";
      lit "<body>";
      lit "  <header>";
      lit "    <h1>" ++ title ++ lit "</h1>";
      lit "    <p><small>Published: " ++ date_iso ++ lit "</small></p>";
      lit "  </header>";
      [];
      lit "  <main>";
      lit "    " ++ content_html;
      lit "    " ++ source_paragraph source_link;
      lit "  </main>";
      [];
      lit "  <aside>";
      lit "    " ++ ads_html;
      lit "  </aside>";
      [];
      lit "  <script src=" ++ DQ ++ SCRIPT_SRC ++ DQ ++ lit "></script>";
      lit "</body>";
      lit "</html>";
      [] ].

(* ===================================================================== *)
(** * The run: configuration, world and effects                            *)
(* ===================================================================== *)

(** What a run reads from outside the script. *)
Record env := {
  (** [os.getenv("RSS_FEEDS")], [None] when unset *)
  RSS_FEEDS : option str;
  (** [int(os.getenv("ITEMS_PER_FEED", "20"))] *)
  ITEMS_PER_FEED : Z;
  (** [feedparser.parse] *)
  feedparser_parse : str -> parsed_feed;
  (** [str.lower] *)
  str_lower : str -> str;
  (** [datetime.fromtimestamp(time.mktime(dt), tz=timezone.utc)],
      [None] when it raises *)
  local_to_utc : struct_time -> option datetime;
  (** [datetime.now(tz=timezone.utc)] at the n-th reading of the clock *)
  clock : nat -> datetime;
  (** the file at [ADS_SNIPPET] *)
  ads_snippet : file str;
  (** storage: creating posts/, writing posts/<filename>, writing the
      manifest *)
  mkdir_ok : bool;
  post_writable : str -> bool;
  manifest_write : write_outcome
}.

Definition FALLBACK_FEEDS : list str :=
  [ lit "https://hnrss.org/frontpage";
    lit "https://rss.nytimes.com/services/xml/rss/nyt/Technology.xml" ].

Definition ENV_FEEDS (E : env) : str :=
  strip (match RSS_FEEDS E with Some v => v | None => [] end).

(** What a run can observe having been done, in order. *)
Inductive event : Type :=
| Printed (line : str)
| PostWritten (filename html : str)
| ManifestSaved (manifest : json).

Record world := {
  manifest_file : file document;
  trace : list event;
  clock_reads : nat
}.

(** Computations on the world that may raise; the world at the point of
    the exception is kept. *)
Definition M (A : Type) : Type := world -> result A * world.

Definition ret {A} (a : A) : M A := fun w => (Ok a, w).
Definition raise {A} (e : exn) : M A := fun w => (Raise e, w).
Definition bind {A B} (m : M A) (k : A -> M B) : M B :=
  fun w =>
    match m w with
    | (Ok a, w') => k a w'
    | (Raise e, w') => (Raise e, w')
    end.
Definition lift {A} (r : result A) : M A := fun w => (r, w).

(** [try: body  except Exception: handler]. *)
Definition try_except {A} (body : M A) (handler : M A) : M A :=
  fun w =>
    match body w with
    | (Ok a, w') => (Ok a, w')
    | (Raise _, w') => handler w'
    end.

Declare Scope run_scope.
Delimit Scope run_scope with run.
Notation "x <- m ;; k" := (bind m (fun x => k))
  (at level 61, m at next level, right associativity) : run_scope.
Notation "m ;; k" := (bind m (fun _ => k))
  (at level 61, right associativity) : run_scope.
Open Scope run_scope.

Definition emit (e : event) : M unit :=
  fun w => (Ok tt, {| manifest_file := manifest_file w;
                      trace := trace w ++ [e];
                      clock_reads := clock_reads w |}).

Definition print (line : str) : M unit := emit (Printed line).

Definition now (E : env) : M datetime :=
  fun w => (Ok (clock E (clock_reads w)),
            {| manifest_file := manifest_file w;
               trace := trace w;
               clock_reads := S (clock_reads w) |}).

Definition ensure_dirs (E : env) : M unit :=
  if mkdir_ok E then ret tt else raise OSError.

Definition EMPTY_MANIFEST : json := JDict [(lit "posts", JList [])].

Definition isinstance_dict (x : json) : bool :=
  match x with JDict _ => true | _ => false end.
Definition isinstance_list (x : json) : bool :=
  match x with JList _ => true | _ => false end.
Definition contains_key (k : str) (x : json) : bool :=
  match x with
  | JDict d => match dict_get k d with Some _ => true | None => false end
  | _ => false
  end.

(** [load_manifest]. *)
Definition load_manifest : M json :=
  fun w =>
    let f := manifest_file w in
    if negb (exists_ f) then ret EMPTY_MANIFEST w
    else
      try_except
        (data <- lift (json_load f) ;;
         if negb (isinstance_dict data)
            || negb (contains_key (lit "posts") data)
            || negb (match py_item data (lit "posts") with
                     | Ok v => isinstance_list v
                     | Raise _ => false
                     end)
         then ret EMPTY_MANIFEST
         else ret data)
        (ret EMPTY_MANIFEST) w.

Definition date_key (x : json) : result json := py_get x (lit "date_iso") (JStr []).

(** [manifest["posts"]], which must be a list to be sorted or appended
    to. *)
Definition posts_of (manifest : json) : result (list json) :=
  rbind (py_item manifest (lit "posts")) (fun v =>
    match v with
    | JList l => Ok l
    | _ => Raise AttributeError
    end).

Definition with_posts (manifest : json) (posts : list json) : json :=
  match manifest with
  | JDict d => JDict (dict_set (lit "posts") (JList posts) d)
  | other => other
  end.

Definition write_manifest (E : env) (manifest : json) : M unit :=
  fun w =>
    match manifest_write E with
    | Written =>
        (Ok tt, {| manifest_file := Holds (Json manifest);
                   trace := trace w ++ [ManifestSaved manifest];
                   clock_reads := clock_reads w |})
    | OpenFails => (Raise OSError, w)
    | WriteFails =>
        (Raise OSError, {| manifest_file := Holds NotJson;
                           trace := trace w;
                           clock_reads := clock_reads w |})
    end.

(** [save_manifest]; the list is sorted in place, so the caller sees the
    sorted manifest afterwards, which is what is returned here. *)
Definition save_manifest (E : env) (manifest : json) : M json :=
  posts <- lift (posts_of manifest) ;;
  sorted <- lift (sort_by_key_desc date_key posts) ;;
  let manifest := with_posts manifest sorted in
  write_manifest E manifest ;;
  ret manifest.

(** [pick_datetime]. *)
Definition parsed_time (E : env) (t : option struct_time) : option datetime :=
  match t with
  | Some dt => local_to_utc E dt
  | None => None
  end.

Definition pick_datetime (E : env) (entry : FeedEntry) : M datetime :=
  match parsed_time E (published_parsed entry) with
  | Some d => ret d
  | None =>
      match parsed_time E (updated_parsed entry) with
      | Some d => ret d
      | None => now E
      end
  end.

(** [write_post_file]; returns the file name. *)
Definition write_post_file (E : env) (date_dt : datetime)
    (title content_html : str) (source_link : option str) : M str :=
  let date_str := strftime_ymd date_dt in
  let slug := slugify (str_lower E) (Some title) in
  let filename := date_str ++ [HYPHEN] ++ slug ++ lit ".html" in
  let html := render_html (ads_snippet E) title (isoformat date_dt) content_html source_link in
  if post_writable E filename
  then emit (PostWritten filename html) ;; ret filename
  else raise OSError.

(** The local variables of [main] that the loops update. *)
Record locals := {
  manifest : json;
  known_ids : pyset;
  added_count : nat
}.

(** [set(p.get("id") for p in posts if p.get("id"))]. *)
Fixpoint known_ids_of (posts : list json) (acc : pyset) : result pyset :=
  match posts with
  | [] => Ok acc
  | p :: r =>
      rbind (py_get p (lit "id") JNull) (fun v =>
        if truthy v then
          if hashable v then known_ids_of r (set_add v acc)
          else Raise TypeError
        else known_ids_of r acc)
  end.

Definition entry_content_html (entry : FeedEntry) : str :=
  let content_html :=
    match entry_content entry with
    | Some (c :: cs) =>
        join [SPACE]
          (flat_map (fun c => match c with
                              | Some (x :: v) => [x :: v]
                              | _ => []
                              end) (c :: cs))
    | _ => []
    end in
  match content_html with
  | [] => opt_or (entry_summary entry) []
  | _ => content_html
  end.

Definition UNTITLED : str := lit "Untitled".

Definition post_record (pid title filename date_iso : str)
    (link : option str) (content_html : str) : json :=
  JDict [ (lit "id", JStr pid);
          (lit "title", JStr title);
          (lit "slug", JStr filename);
          (lit "path", JStr (lit "posts/" ++ filename));
          (lit "date_iso", JStr date_iso);
          (lit "source", JStr (opt_or link []));
          (lit "summary", JStr (summarize_text (Some content_html) 280)) ].

(** The body of the loop over the entries of one feed. *)
Definition process_entry (E : env) (st : locals) (entry : FeedEntry) : M locals :=
  pid <- lift (post_identity entry) ;;
  if set_mem (JStr pid) (known_ids st) then ret st
  else
    let title :=
      or_str (strip (match entry_title entry with
                     | Some t => t
                     | None => UNTITLED
                     end)) UNTITLED in
    let link := entry_link entry in
    date_dt <- pick_datetime E entry ;;
    let content_html := entry_content_html entry in
    filename <- write_post_file E date_dt title content_html link ;;
    print (lit "  Wrote: posts/" ++ filename) ;;
    posts <- lift (posts_of (manifest st)) ;;
    ret {| manifest :=
             with_posts (manifest st)
               (posts ++ [post_record pid title filename (isoformat date_dt)
                            link content_html]);
           known_ids := set_add (JStr pid) (known_ids st);
           added_count := S (added_count st) |}.

Fixpoint for_each {A S} (body : S -> A -> M S) (items : list A) (st : S) : M S :=
  match items with
  | [] => ret st
  | x :: r => st' <- body st x ;; for_each body r st'
  end.

(** The body of the loop over the feeds. *)
Definition process_feed (E : env) (st : locals) (feed_url : str) : M locals :=
  print (lit "Fetching: " ++ feed_url) ;;
  let parsed := feedparser_parse E feed_url in
  (if bozo parsed
   then print (lit "  Warning: feedparser flagged a parsing issue: "
               ++ bozo_exception parsed)
   else ret tt) ;;
  match entries parsed with
  | [] => print (lit "  No entries found.") ;; ret st
  | _ => for_each (process_entry E) (slice_to (ITEMS_PER_FEED E) (entries parsed)) st
  end.

(** The feed list [main] resolves. *)
Definition resolve_feeds (E : env) : list str :=
  let candidates :=
    match ENV_FEEDS E with
    | [] => FALLBACK_FEEDS
    | _ => split_on 44 (ENV_FEEDS E)
    end in
  flat_map (fun u => match strip u with [] => [] | v => [v] end) candidates.

Definition NO_FEEDS_MESSAGE : str :=
  lit "No RSS feeds provided. Set RSS_FEEDS env or add to FALLBACK_FEEDS.".

(** [main]. *)
Definition main (E : env) : M unit :=
  ensure_dirs E ;;
  manifest0 <- load_manifest ;;
  posts0 <- lift (py_get manifest0 (lit "posts") (JList [])) ;;
  known <- lift (match posts0 with
                 | JList l => known_ids_of l []
                 | _ => Raise TypeError
                 end) ;;
  match resolve_feeds E with
  | [] => print NO_FEEDS_MESSAGE
  | feeds =>
      st <- for_each (process_feed E) feeds
              {| manifest := manifest0; known_ids := known; added_count := 0 |} ;;
      saved <- save_manifest E (manifest st) ;;
      print (lit "Done. New posts added: " ++ dec (added_count st)) ;;
      total <- lift (posts_of saved) ;;
      print (lit "Manifest at: posts/manifest.json ("
             ++ dec (length total) ++ lit " total)")
  end.

(* ===================================================================== *)
(** * Vocabulary of the properties                                         *)
(* ===================================================================== *)

(** Regular expressions and the strings they denote, for the properties
    that are stated with one. *)
Inductive regex : Type :=
| Class (cls : char -> bool)
| Cat (r1 r2 : regex)
| Star (r : regex).

Definition Plus (r : regex) : regex := Cat r (Star r).
Definition Chr (c : char) : regex := Class (N.eqb c).

Inductive matches : regex -> str -> Prop :=
| MClass cls c : cls c = true -> matches (Class cls) [c]
| MCat r1 r2 s1 s2 :
    matches r1 s1 -> matches r2 s2 -> matches (Cat r1 r2) (s1 ++ s2)
| MStar0 r : matches (Star r) []
| MStarS r s1 s2 :
    matches r s1 -> matches (Star r) s2 -> matches (Star r) (s1 ++ s2).

(** [re.search(r, s)] finds something. *)
Definition contains (r : regex) (s : str) : Prop :=
  exists pre m post, s = pre ++ m ++ post /\ matches r m.

Definition is_alnum (c : char) : bool :=
  ((97 <=? c) && (c <=? 122)) || ((48 <=? c) && (c <=? 57)).

(** [[a-z0-9]+(-[a-z0-9]+)*], matched against a whole string. *)
Definition SLUG_RE : regex :=
  Cat (Plus (Class is_alnum)) (Star (Cat (Chr HYPHEN) (Plus (Class is_alnum)))).

(** [<[^>]+>], a markup tag. *)
Definition TAG_RE : regex :=
  Cat (Chr LT) (Cat (Plus (Class not_gt)) (Chr GT)).

(** The text [summarize_text] has before it truncates: tags removed,
    whitespace collapsed, ends trimmed. *)
Definition clean_text (html : option str) : str :=
  strip (re_sub re_spaces [SPACE] (re_sub re_tag [SPACE] (opt_or html []))).

Definition starts_with (c : char) (s : str) : bool :=
  match s with
  | d :: _ => d =? c
  | [] => false
  end.

Definition ends_with (c : char) (s : str) : bool := starts_with c (rev s).

(** No two hyphens in a row. *)
Fixpoint no_double_hyphen (s : str) : Prop :=
  match s with
  | [] => True
  | c :: r => (c = HYPHEN -> starts_with HYPHEN r = false) /\ no_double_hyphen r
  end.

(** No position of the string starts a tag: after a [<] comes a [>]
    at once, or no [>] at all. *)
Fixpoint tag_free (s : str) : Prop :=
  match s with
  | [] => True
  | c :: r => (c = LT -> starts_with GT r = true \/ ~ In GT r) /\ tag_free r
  end.

(** A whitespace character is never followed by another one. *)
Fixpoint single_spaced (s : str) : Prop :=
  match s with
  | [] => True
  | c :: r =>
      (isspace c = true -> match r with d :: _ => isspace d = false | [] => True end)
      /\ single_spaced r
  end.

(** The last character is whitespace. *)
Definition ends_in_space (s : str) : bool :=
  match rev s with
  | c :: _ => isspace c
  | [] => false
  end.

(** The hashed text as the design document words it: the title and the
    summary concatenated, cut at 512 characters. *)
Definition title_then_summary (entry : FeedEntry) : str :=
  slice_to 512 (attr_or_empty (entry_title entry) ++ attr_or_empty (entry_summary entry)).




(** ** Order of the manifest *)

(** In a sorted list of keyed elements, an element is never smaller than
    one that comes after it. *)
Definition key_not_less {A} (a b : json * A) : Prop :=
  py_lt (fst a) (fst b) = Ok false.

(** Neither key is smaller than the other: for the sort, a tie. *)
Definition key_tie (a b : json) : bool :=
  match py_lt a b, py_lt b a with
  | Ok false, Ok false => true
  | _, _ => false
  end.

(** The [date_iso] of record [a] is not smaller than that of [b]. *)
Definition date_not_less (a b : json) : Prop :=
  exists ka kb, date_key a = Ok ka /\ date_key b = Ok kb /\ py_lt ka kb = Ok false.

(** The [date_iso] of record [x] ties with [k]. *)
Definition has_date (k : json) (x : json) : bool :=
  match date_key x with
  | Ok kx => key_tie k kx
  | Raise _ => false
  end.

(** ** Observations on a run *)

(** [p.get("id")]. *)
Definition record_id (p : json) : result json := py_get p (lit "id") JNull.

Definition is_save (e : event) : bool :=
  match e with ManifestSaved _ => true | _ => false end.

Definition is_post_written (e : event) : bool :=
  match e with PostWritten _ _ => true | _ => false end.

(** The identity of the entry resolves and is in the known set. *)
Definition seen (known : pyset) (entry : FeedEntry) : Prop :=
  exists pid, post_identity entry = Ok pid /\ set_mem (JStr pid) known = true.

(** What a stretch of the loops of [main] does, from locals [st] and
    world [w] to [st'] and [w']: the manifest, whose posts were [P] and
    whose other keys are those of [d0], gets the records [new] appended;
    the events [evs] are emitted, none of which saves the manifest; one
    document is written and one is counted per new record; the known
    set only grows, by the ids of the new records, which are non-empty
    strings that were not known and differ from each other. *)
Definition grows (d0 : list (str * json)) (P new : list json) (evs : list event)
    (st : locals) (w : world) (st' : locals) (w' : world) : Prop :=
  manifest st' = JDict (dict_set (lit "posts") (JList (P ++ new)) d0)
  /\ manifest_file w' = manifest_file w
  /\ trace w' = trace w ++ evs
  /\ Forall (fun e => is_save e = false) evs
  /\ length (filter is_post_written evs) = length new
  /\ added_count st' = (added_count st + length new)%nat
  /\ (forall x, set_mem x (known_ids st) = true -> set_mem x (known_ids st') = true)
  /\ (forall s, set_mem (JStr s) (known_ids st') = true ->
        set_mem (JStr s) (known_ids st) = true \/ In (Ok (JStr s)) (map record_id new))
  /\ Forall (fun p => exists s, s <> [] /\ record_id p = Ok (JStr s)
                      /\ set_mem (JStr s) (known_ids st) = false
                      /\ set_mem (JStr s) (known_ids st') = true) new
  /\ NoDup (map record_id new).

(** The entries of a feed that a run considers. *)
Definition considered (E : env) (feed_url : str) : list FeedEntry :=
  slice_to (ITEMS_PER_FEED E) (entries (feedparser_parse E feed_url)).

(** The world after [print]ing some lines. *)
Definition printed (lines : list str) (w : world) : world :=
  {| manifest_file := manifest_file w;
     trace := trace w ++ map Printed lines;
     clock_reads := clock_reads w |}.

Definition done_line (added : nat) : str :=
  lit "Done. New posts added: " ++ dec added.

Definition total_line (total : nat) : str :=
  lit "Manifest at: posts/manifest.json (" ++ dec total ++ lit " total)".

(** The locals of [main] when the loop over the feeds starts. *)
Definition initial_locals (manifest0 : json) (known : pyset) : locals :=
  {| manifest := manifest0; known_ids := known; added_count := 0 |}.

(** A record that [main] can work with: a dict whose [date_iso], if
    any, is a string, and whose [id], if true, can be hashed. *)
Definition plain_record (p : json) : Prop :=
  exists s v,
    date_key p = Ok (JStr s)
    /\ record_id p = Ok v
    /\ (truthy v = true -> hashable v = true).

(** ** Sample inputs *)

(** 278 letters [a], a space, and [bb]. *)
Definition letters_space_bb : str := repeat 97 (N.to_nat 278) ++ lit " bb".

(** An entry with a title and a summary, and neither id nor link. *)
Definition entry_a_b : FeedEntry :=
  {| entry_id := None; entry_link := None;
     entry_title := Some (lit "a"); entry_summary := Some (lit "b");
     entry_content := None; published_parsed := None; updated_parsed := None |}.

(** A feed without entries, and a configuration whose storage works,
    whose clock shows one instant and whose dates are read as UTC. *)
Definition no_entries : parsed_feed :=
  {| bozo := false; bozo_exception := []; entries := [] |}.

Definition sample_env (rss : option str) (parse : str -> parsed_feed) : env :=
  {| RSS_FEEDS := rss;
     ITEMS_PER_FEED := 20;
     feedparser_parse := parse;
     str_lower := ascii_lower;
     local_to_utc := fun t =>
       Some {| year := Z.to_N (tm_year t); month := Z.to_N (tm_mon t);
               day := Z.to_N (tm_mday t); hour := Z.to_N (tm_hour t);
               minute := Z.to_N (tm_min t); second := Z.to_N (tm_sec t);
               microsecond := 0 |};
     clock := fun _ =>
       {| year := 2024; month := 1; day := 3; hour := 0; minute := 0;
          second := 0; microsecond := 0 |};
     ads_snippet := Absent;
     mkdir_ok := true;
     post_writable := fun _ => true;
     manifest_write := Written |}.

Definition world_with (f : file document) : world :=
  {| manifest_file := f; trace := []; clock_reads := 0 |}.

(** The entry of the end-to-end scenario of the design document. *)
Definition entry_hello : FeedEntry :=
  {| entry_id := Some (lit "abc123");
     entry_link := Some (lit "http://x/1");
     entry_title := Some (lit "Hello World");
     entry_summary := Some (lit "<p>Hi</p>");
     entry_content := None;
     published_parsed :=
       Some {| tm_year := 2024; tm_mon := 1; tm_mday := 2;
               tm_hour := 0; tm_min := 0; tm_sec := 0 |};
     updated_parsed := None |}.

(** One feed that lists that entry twice. *)
Definition env_hello : env :=
  sample_env (Some (lit "http://x/feed"))
    (fun _ => {| bozo := false; bozo_exception := []; entries := [entry_hello; entry_hello] |}).

(** A feed list that is only a comma: no feed is left. *)
Definition env_comma : env := sample_env (Some (lit ",")) (fun _ => no_entries).

(** The fallback feeds, which have nothing to offer. *)
Definition env_quiet : env := sample_env None (fun _ => no_entries).

(** A manifest with one record, and one with two records of the same
    id. *)
Definition record_old (title : String.string) : json :=
  JDict [ (lit "id", JStr (lit "old")); (lit "title", JStr (lit title));
          (lit "date_iso", JStr (lit "2023-12-31T00:00:00+00:00")) ].

Definition dict_one : list (str * json) :=
  [ (lit "generator", JStr (lit "rss_to_posts"));
    (lit "posts", JList [record_old "Old"]) ].

Definition manifest_one : json := JDict dict_one.

Definition manifest_twice : json :=
  JDict [ (lit "posts", JList [record_old "Old"; record_old "Old again"]) ].

(** The manifest in the file after a run, and its posts. *)
Definition final_manifest (E : env) (w : world) : json :=
  match manifest_file (snd (main E w)) with
  | Holds (Json m) => m
  | _ => JNull
  end.

Definition final_posts (E : env) (w : world) : list json :=
  match posts_of (final_manifest E w) with
  | Ok l => l
  | Raise _ => []
  end.

(** The events of a run. *)
Definition run_events (E : env) (w : world) : list event :=
  skipn (length (trace w)) (trace (snd (main E w))).

(** Three records in insertion order: two of the same date around a
    later one. *)
Definition record_dated (name date : String.string) : json :=
  JDict [ (lit "id", JStr (lit name)); (lit "date_iso", JStr (lit date)) ].

Definition manifest_three : json :=
  JDict [ (lit "posts",
           JList [ record_dated "first" "2024-01-01T00:00:00+00:00";
                   record_dated "second" "2024-02-01T00:00:00+00:00";
                   record_dated "third" "2024-01-01T00:00:00+00:00" ]) ].

(** What [save_manifest] returns, when it returns. *)
Definition saved_manifest (E : env) (m : json) (w : world) : json :=
  match fst (save_manifest E m w) with
  | Ok m' => m'
  | Raise _ => JNull
  end.

(* ===================================================================== *)
(** * Vocabulary of the further properties                                 *)
(* ===================================================================== *)

(** The only whitespace a text has is the plain space. *)
Definition plain_spaces (s : str) : Prop :=
  Forall (fun c => isspace c = true -> c = SPACE) s.

(** A lower-case hexadecimal digit. *)
Definition is_hex_char (c : char) : bool :=
  ((48 <=? c) && (c <=? 57)) || ((97 <=? c) && (c <=? 102)).

(** The entry with another summary. *)
Definition with_summary (entry : FeedEntry) (summary : option str) : FeedEntry :=
  {| entry_id := entry_id entry;
     entry_link := entry_link entry;
     entry_title := entry_title entry;
     entry_summary := summary;
     entry_content := entry_content entry;
     published_parsed := published_parsed entry;
     updated_parsed := updated_parsed entry |}.

(** An entry that has only a title, of 600 letters. *)
Definition entry_long_title : FeedEntry :=
  {| entry_id := None; entry_link := None;
     entry_title := Some (repeat 97 (N.to_nat 600)); entry_summary := Some (lit "one");
     entry_content := None; published_parsed := None; updated_parsed := None |}.

(** A character of a file name that needs no quoting: [a-z0-9-] or a
    dot. *)
Definition is_filename_char (c : char) : bool :=
  is_slug_char c || (c =? 46).

(** The non-empty [value]s of the content parts of an entry. *)
Definition content_values (entry : FeedEntry) : list str :=
  match entry_content entry with
  | Some parts =>
      flat_map (fun c => match c with
                         | Some (x :: v) => [x :: v]
                         | _ => []
                         end) parts
  | None => []
  end.

(** An entry whose published date does not convert and whose updated
    date does. *)
Definition entry_updated_only : FeedEntry :=
  {| entry_id := Some (lit "u1"); entry_link := None;
     entry_title := Some (lit "Updated"); entry_summary := None;
     entry_content := Some [None; Some []; Some (lit "<p>a</p>"); Some (lit "b")];
     published_parsed :=
       Some {| tm_year := 0; tm_mon := 1; tm_mday := 1;
               tm_hour := 0; tm_min := 0; tm_sec := 0 |};
     updated_parsed :=
       Some {| tm_year := 2024; tm_mon := 5; tm_mday := 6;
               tm_hour := 7; tm_min := 8; tm_sec := 9 |} |}.

(** A configuration in which years before 1970 do not convert. *)
Definition env_epoch : env :=
  {| RSS_FEEDS := Some (lit " http://a/feed , ,http://b/rss,");
     ITEMS_PER_FEED := 2;
     feedparser_parse := fun _ =>
       {| bozo := false; bozo_exception := [];
          entries := [entry_updated_only; entry_hello; entry_a_b] |};
     str_lower := ascii_lower;
     local_to_utc := fun t =>
       if (tm_year t <? 1970)%Z then None
       else Some {| year := Z.to_N (tm_year t); month := Z.to_N (tm_mon t);
                    day := Z.to_N (tm_mday t); hour := Z.to_N (tm_hour t);
                    minute := Z.to_N (tm_min t); second := Z.to_N (tm_sec t);
                    microsecond := 0 |};
     clock := fun n =>
       {| year := 2024; month := 1; day := 3; hour := 0; minute := 0;
          second := N.of_nat n; microsecond := 250 |};
     ads_snippet := Unreadable;
     mkdir_ok := true;
     post_writable := fun _ => true;
     manifest_write := Written |}.

(** A manifest one record of which is not a dict. *)
Definition manifest_odd : json :=
  JDict [ (lit "posts", JList [record_old "Old"; JStr (lit "stray")]) ].


(** ** What a run does with an entry it accepts *)

(** The title [main] gives the entry. *)
Definition entry_title_text (entry : FeedEntry) : str :=
  or_str (strip (match entry_title entry with
                 | Some t => t
                 | None => UNTITLED
                 end)) UNTITLED.

(** The name of its document, for the date [dt] that was picked. *)
Definition entry_filename (E : env) (entry : FeedEntry) (dt : datetime) : str :=
  strftime_ymd dt ++ [HYPHEN]
  ++ slugify (str_lower E) (Some (entry_title_text entry)) ++ lit ".html".

(** The document. *)
Definition entry_document (E : env) (entry : FeedEntry) (dt : datetime) : str :=
  render_html (ads_snippet E) (entry_title_text entry) (isoformat dt)
    (entry_content_html entry) (entry_link entry).

(** The record appended to the manifest. *)
Definition entry_record (E : env) (entry : FeedEntry) (pid : str) (dt : datetime) : json :=
  post_record pid (entry_title_text entry) (entry_filename E entry dt)
    (isoformat dt) (entry_link entry) (entry_content_html entry).

(** An accepted entry, with the identity and the date resolved for it. *)
Definition accepted : Type := FeedEntry * str * datetime.

Definition record_of (E : env) (a : accepted) : json :=
  let '(entry, pid, dt) := a in entry_record E entry pid dt.

Definition written_of (E : env) (a : accepted) : event :=
  let '(entry, pid, dt) := a in
  PostWritten (entry_filename E entry dt) (entry_document E entry dt).

(** A stretch of the loops of [main] that accepts the entries [acc], in
    this order: their records are appended to the posts [P], their
    documents are the documents written, and each counts as one
    addition. *)
Definition accepts (E : env) (d0 : list (str * json)) (P : list json)
    (acc : list accepted) (evs : list event)
    (st : locals) (w : world) (st' : locals) (w' : world) : Prop :=
  manifest st' = JDict (dict_set (lit "posts") (JList (P ++ map (record_of E) acc)) d0)
  /\ manifest_file w' = manifest_file w
  /\ trace w' = trace w ++ evs
  /\ filter is_post_written evs = map (written_of E) acc
  /\ Forall (fun e => is_save e = false) evs
  /\ added_count st' = (added_count st + length acc)%nat
  /\ Forall (fun a => post_identity (fst (fst a)) = Ok (snd (fst a))
                      /\ set_mem (JStr (snd (fst a))) (known_ids st) = false) acc.

(** The posts of the manifest a run loads. *)
Definition loaded_posts (w : world) : list json :=
  match fst (load_manifest w) with
  | Ok m => match posts_of m with Ok l => l | Raise _ => [] end
  | Raise _ => []
  end.

(** The fields of a record. *)
Definition field (name : String.string) (p : json) : result json :=
  py_get p (lit name) JNull.

(** The names of the documents written, in order. *)
Fixpoint written_names (evs : list event) : list str :=
  match evs with
  | [] => []
  | PostWritten filename _ :: r => filename :: written_names r
  | _ :: r => written_names r
  end.

(** What every record that [main] appends looks like: the seven fields
    in this order, a non-empty id, a non-empty trimmed title, a file
    name of plain characters that the path repeats under [posts/], and a
    summary of at most 280 characters without markup tags. *)
Definition appended_record (p : json) : Prop :=
  exists pid title slug date_iso source summary,
    p = JDict [ (lit "id", JStr pid); (lit "title", JStr title);
                (lit "slug", JStr slug); (lit "path", JStr (lit "posts/" ++ slug));
                (lit "date_iso", JStr date_iso); (lit "source", JStr source);
                (lit "summary", JStr summary) ]
    /\ pid <> []
    /\ title <> [] /\ strip title = title
    /\ Forall (fun c => is_filename_char c = true) slug
    /\ (length summary <= 280)%nat
    /\ ~ contains TAG_RE summary.

(** ** Runs that fail *)


(** A record the known set cannot be built from: it is not a dict, or
    its [id] is a non-empty list or dict. *)
Definition id_unusable (p : json) : bool :=
  match record_id p with
  | Ok v => truthy v && negb (hashable v)
  | Raise _ => true
  end.


(** ** Dates in order *)

(** The fields of a datetime from the largest unit to the smallest, and
    the order of time on them. *)
Definition date_fields (dt : datetime) : list N :=
  [year dt; month dt; day dt; hour dt; minute dt; second dt; microsecond dt].

Fixpoint lex_ltb (a b : list N) : bool :=
  match a, b with
  | x :: a', y :: b' =>
      if x <? y then true else if y <? x then false else lex_ltb a' b'
  | _, _ => false
  end.

Definition earlier (a b : datetime) : bool := lex_ltb (date_fields a) (date_fields b).

(** The ranges of the fields of a [datetime]. *)
Definition in_range (dt : datetime) : Prop :=
  year dt <= 9999 /\ month dt <= 12 /\ day dt <= 31
  /\ hour dt <= 23 /\ minute dt <= 59 /\ second dt <= 59
  /\ microsecond dt <= 999999.

(** ** Text that cannot be encoded *)

(** A surrogate code point, which a Python [str] can hold and UTF-8
    cannot encode. *)
Definition is_surrogate (c : char) : bool := (55296 <=? c) && (c <=? 57343).

(** An entry without id and link whose title holds a lone surrogate. *)
Definition entry_surrogate : FeedEntry :=
  {| entry_id := None; entry_link := Some [];
     entry_title := Some (lit "a" ++ [55357] ++ lit "b"); entry_summary := None;
     entry_content := None; published_parsed := None; updated_parsed := None |}.

(* ===================================================================== *)
(** * Properties                                                           *)
(* ===================================================================== *)

Example sha1_abc :
  SHA1.hexdigest [97; 98; 99] = lit "a9993e364706816aba3e25717850c26c9cd0d89d".
Proof. vm_compute. reflexivity. Qed.

Example sha1_empty :
  SHA1.hexdigest [] = lit "da39a3ee5e6b4b0d3255bfef95601890afd80709".
Proof. vm_compute. reflexivity. Qed.

Example sha1_two_blocks :
  SHA1.hexdigest
    (lit "abcdbcdecdefdefgefghfghighijhijkijkljklmklmnlmnomnopnopq")
  = lit "84983e441c3bd26ebaae4aa1f95129e5e54670f1".
Proof. vm_compute. reflexivity. Qed.


Example slugify_hello :
  slugify ascii_lower (Some (lit "  Hello,  World!  ")) = lit "hello-world".
Proof. reflexivity. Qed.

Example summarize_p :
  summarize_text (Some (lit "<p>Hi</p>")) 280 = lit "Hi".
Proof. reflexivity. Qed.

(** ** Strings and substitution *)

Lemma sub_from_skip p repl k s :
  sub_from p repl k s = sub_from p repl 0 (skipn k s).
Proof.
  revert k; induction s as [|c r IH]; intros k.
  - now destruct k.
  - destruct k as [|k]; [reflexivity|]. simpl. apply IH.
Qed.


Lemma re_sub_cons p repl c r :
  re_sub p repl (c :: r) =
  match p (c :: r) with
  | Some (S k) => repl ++ re_sub p repl (skipn k r)
  | _ => c :: re_sub p repl r
  end.
Proof.
  unfold re_sub; simpl. destruct (p (c :: r)) as [[|k]|]; try reflexivity.
  now rewrite sub_from_skip.
Qed.

(** Induction on a string that may jump over a whole match. *)
Lemma str_skip_ind (P : list char -> Prop) :
  P [] ->
  (forall c r, (forall k, P (skipn k r)) -> P (c :: r)) ->
  forall s : list char, P s.
Proof.
  intros H0 Hs s.
  assert (H : forall n s, (length s <= n)%nat -> P s).
  { induction n as [|n IH]; intros [|c r] Hl; simpl in Hl; try apply H0; try lia.
    apply Hs. intros k. apply IH.
    rewrite length_skipn. lia. }
  apply (H (length s)). lia.
Qed.

Lemma class_min_cons_false n cls c r :
  (1 <= n)%nat -> cls c = false -> class_min n cls (c :: r) = None.
Proof.
  intros Hn Hc. unfold class_min. simpl. rewrite Hc. simpl.
  destruct n; [lia | reflexivity].
Qed.

Lemma class_plus_cons_true cls c r :
  cls c = true ->
  class_min 1 cls (c :: r) = Some (S (length (take_while cls r))).
Proof. intros Hc. unfold class_min. simpl. now rewrite Hc. Qed.

Lemma take_drop_while f s : take_while f s ++ drop_while f s = s.
Proof.
  induction s as [|c r IH]; simpl; [reflexivity|].
  destruct (f c); simpl; [now rewrite IH | reflexivity].
Qed.

Lemma skipn_take_while f s : skipn (length (take_while f s)) s = drop_while f s.
Proof.
  induction s as [|c r IH]; simpl; [reflexivity|].
  destruct (f c); simpl; [apply IH | reflexivity].
Qed.

Lemma take_while_all f s : Forall (fun c => f c = true) (take_while f s).
Proof.
  induction s as [|c r IH]; simpl; [constructor|].
  destruct (f c) eqn:E; constructor; assumption.
Qed.

Lemma drop_while_head f s c r : drop_while f s = c :: r -> f c = false.
Proof.
  induction s as [|d t IH]; simpl; [discriminate|].
  destruct (f d) eqn:E; [apply IH|]. intros H; injection H as -> _. exact E.
Qed.

Lemma drop_while_suffix f s : exists pre, s = pre ++ drop_while f s.
Proof. exists (take_while f s). symmetry. apply take_drop_while. Qed.

Lemma rstrip_by_prefix f s : exists post, s = rstrip_by f s ++ post.
Proof.
  unfold rstrip_by. destruct (drop_while_suffix f (rev s)) as [pre H].
  exists (rev pre). rewrite <- rev_app_distr, <- H. symmetry. apply rev_involutive.
Qed.

Lemma rstrip_by_last f s c r : rev (rstrip_by f s) = c :: r -> f c = false.
Proof. unfold rstrip_by. rewrite rev_involutive. apply drop_while_head. Qed.

Lemma Forall_drop_while (P : char -> Prop) f s : Forall P s -> Forall P (drop_while f s).
Proof.
  induction 1 as [|c r Hc Hr IH]; simpl; [constructor|].
  destruct (f c); [exact IH | now constructor].
Qed.

Lemma Forall_rstrip_by (P : char -> Prop) f s : Forall P s -> Forall P (rstrip_by f s).
Proof.
  intros H. unfold rstrip_by. apply Forall_rev, Forall_drop_while, Forall_rev, H.
Qed.

Lemma Forall_strip_by (P : char -> Prop) f s : Forall P s -> Forall P (strip_by f s).
Proof. intros H. apply Forall_rstrip_by, Forall_drop_while, H. Qed.

Lemma Forall_re_sub (P : char -> Prop) p repl s :
  Forall P repl -> Forall P s -> Forall P (re_sub p repl s).
Proof.
  intros Hrepl. induction s as [|c r IH] using str_skip_ind; intros Hs.
  - constructor.
  - rewrite re_sub_cons. inversion Hs as [|? ? Hc Hr]; subst.
    assert (Hk : forall k, Forall P (re_sub p repl (skipn k r))).
    { intros k. apply IH. rewrite <- (firstn_skipn k r) in Hr.
      apply Forall_app in Hr. tauto. }
    destruct (p (c :: r)) as [[|k]|].
    + constructor; [assumption | apply (Hk 0%nat)].
    + apply Forall_app; split; [assumption | apply Hk].
    + constructor; [assumption | apply (Hk 0%nat)].
Qed.

(** ** [slugify] *)

Lemma slug_invalid_sub_valid s :
  Forall (fun c => is_slug_char c = true) (re_sub _slug_invalid [HYPHEN] s).
Proof.
  induction s as [|c r IH] using str_skip_ind; [constructor|].
  rewrite re_sub_cons. unfold _slug_invalid, class_plus.
  destruct (is_slug_char c) eqn:Ec.
  - rewrite class_min_cons_false by (rewrite ?Ec; auto).
    constructor; [exact Ec | apply (IH 0%nat)].
  - rewrite class_plus_cons_true by (now rewrite Ec).
    simpl. constructor; [reflexivity | apply IH].
Qed.

Lemma re_hyphens_head s :
  starts_with HYPHEN s = false ->
  starts_with HYPHEN (re_sub re_hyphens [HYPHEN] s) = false.
Proof.
  destruct s as [|c r]; [reflexivity|]. simpl. intros Hc.
  rewrite re_sub_cons. unfold re_hyphens.
  rewrite class_min_cons_false by (auto; lia). simpl. exact Hc.
Qed.

Lemma drop_while_not_starts c s :
  starts_with c (drop_while (fun d => d =? c) s) = false.
Proof.
  destruct (drop_while (fun d => d =? c) s) as [|d t] eqn:E; [reflexivity|].
  simpl. apply (drop_while_head _ _ _ _ E).
Qed.

Lemma re_hyphens_cons c r :
  re_hyphens (c :: r) =
  if c =? HYPHEN then
    match take_while (fun d => d =? HYPHEN) r with
    | [] => None
    | run => Some (S (length run))
    end
  else None.
Proof.
  unfold re_hyphens, class_min. cbn [take_while].
  destruct (c =? HYPHEN); [|reflexivity].
  now destruct (take_while _ r).
Qed.

Lemma re_hyphens_no_double s :
  no_double_hyphen (re_sub re_hyphens [HYPHEN] s).
Proof.
  induction s as [|c r IH] using str_skip_ind; [exact I|].
  rewrite re_sub_cons, re_hyphens_cons.
  destruct (c =? HYPHEN) eqn:Ec.
  - destruct (take_while (fun d => d =? HYPHEN) r) as [|d t] eqn:Et.
    + split; [|apply (IH 0%nat)].
      intros _. apply (re_hyphens_head r).
      destruct r as [|d t]; [reflexivity|]. simpl in *.
      destruct (d =? HYPHEN); [discriminate | reflexivity].
    + cbn [app]. split; [|apply IH].
      intros _. rewrite <- Et, skipn_take_while.
      apply re_hyphens_head, drop_while_not_starts.
  - split; [|apply (IH 0%nat)].
    intros ->. discriminate.
Qed.

Lemma no_double_app_l a b : no_double_hyphen (a ++ b) -> no_double_hyphen a.
Proof.
  induction a as [|c r IH]; simpl; [trivial|].
  intros [H1 H2]. split; [|auto].
  intros Hc. specialize (H1 Hc). destruct r; [reflexivity | exact H1].
Qed.

Lemma no_double_app_r a b : no_double_hyphen (a ++ b) -> no_double_hyphen b.
Proof. induction a as [|c r IH]; simpl; [trivial | intros [_ H]; auto]. Qed.

Lemma plus_class_matches cls w :
  w <> [] -> Forall (fun c => cls c = true) w -> matches (Plus (Class cls)) w.
Proof.
  intros Hne Hall. destruct w as [|c r]; [contradiction|].
  inversion Hall as [|? ? Hc Hr]; subst.
  change (c :: r) with ([c] ++ r). apply MCat; [now constructor|].
  clear Hne Hall Hc. induction Hr as [|d t Hd Ht IH]; [constructor|].
  change (d :: t) with ([d] ++ t). apply MStarS; [now constructor | exact IH].
Qed.

Lemma slug_char_cases c :
  is_slug_char c = true -> is_alnum c = true \/ c = HYPHEN.
Proof.
  unfold is_slug_char, is_alnum. intros H.
  apply orb_true_iff in H as [H|H]; [now left | right; now apply N.eqb_eq].
Qed.


Lemma ends_with_suffix c a b : b <> [] -> ends_with c (a ++ b) = ends_with c b.
Proof.
  intros Hb. unfold ends_with. rewrite rev_app_distr.
  destruct (rev b) as [|d t] eqn:E; [|reflexivity].
  apply (f_equal (@rev _)) in E. rewrite rev_involutive in E. contradiction.
Qed.

(** A string of slug characters with single hyphens, which is empty or
    starts with a hyphen, and does not end with one, is a sequence of
    groups [-[a-z0-9]+]. *)
Lemma slug_groups_match n : forall s,
  (length s <= n)%nat ->
  Forall (fun c => is_slug_char c = true) s ->
  no_double_hyphen s ->
  ends_with HYPHEN s = false ->
  s = [] \/ starts_with HYPHEN s = true ->
  matches (Star (Cat (Chr HYPHEN) (Plus (Class is_alnum)))) s.
Proof.
  induction n as [|n IH]; intros s Hlen Hall Hnd Hend Hstart.
  - destruct s; [constructor | simpl in Hlen; lia].
  - destruct Hstart as [->|Hstart]; [constructor|].
    destruct s as [|c r]; [discriminate|]. simpl in Hstart.
    apply N.eqb_eq in Hstart; subst c.
    destruct Hnd as [Hnd1 Hnd2]. specialize (Hnd1 eq_refl).
    inversion Hall as [|? ? _ Hr]; subst.
    set (w := take_while is_alnum r). set (t := drop_while is_alnum r).
    assert (Er : r = w ++ t) by (symmetry; apply take_drop_while).
    assert (Hw : w <> []).
    { destruct r as [|d r']; [discriminate Hend|].
      inversion Hr as [|? ? Hd _]; subst. simpl in Hnd1.
      apply slug_char_cases in Hd as [Hd| ->]; [|discriminate].
      subst w. simpl. rewrite Hd. discriminate. }
    replace (HYPHEN :: r) with (([HYPHEN] ++ w) ++ t) by (simpl; now rewrite <- Er).
    apply MStarS.
    + apply MCat; [constructor; apply N.eqb_refl|].
      apply plus_class_matches; [exact Hw | apply take_while_all].
    + apply IH.
      * simpl in Hlen. rewrite Er, length_app in Hlen.
        destruct w; [contradiction | simpl in Hlen; lia].
      * rewrite Er in Hr. apply Forall_app in Hr. tauto.
      * rewrite Er in Hnd2. now apply no_double_app_r in Hnd2.
      * destruct t as [|d t'] eqn:Et; [reflexivity|].
        rewrite <- Hend. symmetry.
        change (HYPHEN :: r) with ([HYPHEN] ++ r). rewrite Er, app_assoc.
        apply ends_with_suffix. discriminate.
      * destruct t as [|d t'] eqn:Et; [now left | right].
        simpl. apply N.eqb_eq.
        assert (Hd : is_alnum d = false) by (apply (drop_while_head _ _ _ _ Et)).
        assert (Hv : is_slug_char d = true).
        { rewrite Er in Hr. apply Forall_app in Hr as [_ Hr].
          now inversion Hr. }
        apply slug_char_cases in Hv as [Hv|Hv]; [congruence | exact Hv].
Qed.

Lemma slug_shape_matches s :
  s <> [] ->
  Forall (fun c => is_slug_char c = true) s ->
  no_double_hyphen s ->
  starts_with HYPHEN s = false ->
  ends_with HYPHEN s = false ->
  matches SLUG_RE s.
Proof.
  intros Hne Hall Hnd Hstart Hend.
  set (w := take_while is_alnum s). set (t := drop_while is_alnum s).
  assert (Es : s = w ++ t) by (symmetry; apply take_drop_while).
  assert (Hw : w <> []).
  { destruct s as [|c r]; [contradiction|].
    inversion Hall as [|? ? Hc _]; subst. simpl in Hstart.
    apply slug_char_cases in Hc as [Hc| ->]; [|discriminate].
    subst w. simpl. rewrite Hc. discriminate. }
  rewrite Es. apply MCat.
  - apply plus_class_matches; [exact Hw | apply take_while_all].
  - apply (slug_groups_match (length t)); [lia | | | |].
    + rewrite Es in Hall. apply Forall_app in Hall. tauto.
    + rewrite Es in Hnd. now apply no_double_app_r in Hnd.
    + destruct t as [|d t'] eqn:Et; [reflexivity|].
      rewrite <- Hend, Es. symmetry. apply ends_with_suffix. discriminate.
    + destruct t as [|d t'] eqn:Et; [now left | right].
      simpl. apply N.eqb_eq.
      assert (Hd : is_alnum d = false) by (apply (drop_while_head _ _ _ _ Et)).
      assert (Hv : is_slug_char d = true).
      { rewrite Es in Hall. apply Forall_app in Hall as [_ Hr].
        now inversion Hr. }
      apply slug_char_cases in Hv as [Hv|Hv]; [congruence | exact Hv].
Qed.

Lemma strip_by_starts f s c :
  (forall d, d = c -> f d = true) -> starts_with c (strip_by f s) = false.
Proof.
  intros Hf. unfold strip_by, lstrip_by.
  destruct (rstrip_by_prefix f (drop_while f s)) as [post Hp].
  destruct (rstrip_by f (drop_while f s)) as [|d t] eqn:E; [reflexivity|].
  simpl. destruct (N.eqb_spec d c) as [->|]; [|reflexivity].
  simpl in Hp. apply drop_while_head in Hp. rewrite Hf in Hp; [discriminate | reflexivity].
Qed.

Lemma strip_by_ends f s c :
  (forall d, d = c -> f d = true) -> ends_with c (strip_by f s) = false.
Proof.
  intros Hf. unfold strip_by, ends_with.
  destruct (rev (rstrip_by f (lstrip_by f s))) as [|d t] eqn:E; [reflexivity|].
  simpl. destruct (N.eqb_spec d c) as [->|]; [|reflexivity].
  apply rstrip_by_last in E. rewrite Hf in E; [discriminate | reflexivity].
Qed.

Lemma no_double_strip_by f s : no_double_hyphen s -> no_double_hyphen (strip_by f s).
Proof.
  intros H. unfold strip_by, lstrip_by.
  destruct (drop_while_suffix f s) as [pre Hpre].
  destruct (rstrip_by_prefix f (drop_while f s)) as [post Hpost].
  rewrite Hpre in H. apply no_double_app_r in H.
  rewrite Hpost in H. now apply no_double_app_l in H.
Qed.

(** C7. For every title, whatever lower-casing does to it, the slug that
    [slugify] returns matches [^[a-z0-9]+(-[a-z0-9]+)*$] or is the
    literal [post]. *)
Theorem slugify_safe (lower : str -> str) (text : option str) :
  matches SLUG_RE (slugify lower text) \/ slugify lower text = lit "post".
Proof.
  unfold slugify.
  set (t3 := re_sub _slug_invalid [HYPHEN] _).
  set (t4 := re_sub re_hyphens [HYPHEN] t3).
  destruct (strip_chars [HYPHEN] t4) as [|c r] eqn:E; [now right | left].
  simpl. rewrite <- E. apply slug_shape_matches.
  - rewrite E. discriminate.
  - apply Forall_strip_by, Forall_re_sub; [repeat constructor | apply slug_invalid_sub_valid].
  - apply no_double_strip_by, re_hyphens_no_double.
  - apply strip_by_starts. intros d ->. reflexivity.
  - apply strip_by_ends. intros d ->. reflexivity.
Qed.

(** ** [summarize_text] *)

Lemma In_re_sub p repl s x : In x (re_sub p repl s) -> In x repl \/ In x s.
Proof.
  induction s as [|c r IH] using str_skip_ind; [now right|].
  rewrite re_sub_cons.
  assert (Hk : forall k, In x (re_sub p repl (skipn k r)) -> In x repl \/ In x (c :: r)).
  { intros k H. apply IH in H as [H|H]; [now left | right; right].
    rewrite <- (firstn_skipn k r). apply in_or_app. now right. }
  destruct (p (c :: r)) as [[|k]|].
  - intros [->|H]; [right; now left | apply (Hk 0%nat H)].
  - intros H. apply in_app_or in H as [H|H]; [now left | apply (Hk k H)].
  - intros [->|H]; [right; now left | apply (Hk 0%nat H)].
Qed.

Lemma tag_free_app_r a b : tag_free (a ++ b) -> tag_free b.
Proof. induction a as [|c r IH]; simpl; [trivial | intros [_ H]; auto]. Qed.

Lemma tag_free_app_l a b : tag_free (a ++ b) -> tag_free a.
Proof.
  induction a as [|c r IH]; simpl; [trivial|].
  intros [H1 H2]. split; [|auto].
  intros Hc. destruct (H1 Hc) as [H|H].
  - destruct r as [|d t]; [right; intros [] | now left].
  - right. intros Hin. apply H, in_or_app. now left.
Qed.

Lemma tag_free_skipn k s : tag_free s -> tag_free (skipn k s).
Proof. rewrite <- (firstn_skipn k s) at 1. apply tag_free_app_r. Qed.

Lemma tag_free_snoc s c : c <> GT -> tag_free s -> tag_free (s ++ [c]).
Proof.
  intros Hc. induction s as [|d r IH]; simpl.
  - intros _. split; [|exact I]. intros _. right. intros [].
  - intros [H1 H2]. split; [|auto].
    intros Hd. destruct (H1 Hd) as [H|H].
    + left. destruct r; [discriminate | exact H].
    + right. intros Hin. apply in_app_or in Hin as [Hin|[Hin|[]]]; [auto | congruence].
Qed.

Lemma re_tag_none_not_lt c r : (c =? LT) = false -> re_tag (c :: r) = None.
Proof. intros H. unfold re_tag. now rewrite H. Qed.

Lemma nth_error_take_while_none f (r : str) :
  nth_error r (length (take_while f r)) = None ->
  Forall (fun c => f c = true) r.
Proof.
  induction r as [|c t IH]; simpl; [constructor|].
  destruct (f c) eqn:E; simpl; [|discriminate].
  intros H. constructor; auto.
Qed.

(** Where [<[^>]+>] does not match at a [<], what follows is a [>] or
    contains none. *)
Lemma re_tag_no_match r :
  match re_tag (LT :: r) with Some (S _) => False | _ => True end ->
  starts_with GT r = true \/ ~ In GT r.
Proof.
  unfold re_tag. rewrite N.eqb_refl.
  destruct (length (take_while not_gt r)) as [|k] eqn:Ek.
  - intros _. destruct r as [|d t]; [right; intros [] | left].
    simpl in *. unfold not_gt in Ek. destruct (d =? GT); [reflexivity | discriminate].
  - destruct (nth_error r (S k)) eqn:En; [contradiction|].
    intros _. right. rewrite <- Ek in En.
    apply nth_error_take_while_none in En.
    intros Hin. rewrite Forall_forall in En. specialize (En _ Hin).
    unfold not_gt in En. now rewrite N.eqb_refl in En.
Qed.

Lemma re_sub_keeps_head p repl c r :
  p (c :: r) = None -> re_sub p repl (c :: r) = c :: re_sub p repl r.
Proof. intros H. now rewrite re_sub_cons, H. Qed.

Lemma tag_free_after_sub_tag s : tag_free (re_sub re_tag [SPACE] s).
Proof.
  induction s as [|c r IH] using str_skip_ind; [exact I|].
  rewrite re_sub_cons.
  assert (Hkeep : (c = LT -> starts_with GT r = true \/ ~ In GT r) ->
                  tag_free (c :: re_sub re_tag [SPACE] r)).
  { intros Hc. split; [|apply (IH 0%nat)].
    intros E. destruct (Hc E) as [H|H].
    - left. destruct r as [|d t]; [discriminate|].
      rewrite re_sub_keeps_head; [exact H|].
      apply re_tag_none_not_lt. simpl in H. apply N.eqb_eq in H. now subst d.
    - right. intros Hin. apply In_re_sub in Hin as [[Hin|[]]|Hin]; [discriminate | auto]. }
  destruct (re_tag (c :: r)) as [[|k]|] eqn:Em.
  - apply Hkeep. intros ->. apply re_tag_no_match. now rewrite Em.
  - split; [discriminate | apply IH].
  - apply Hkeep. intros ->. apply re_tag_no_match. now rewrite Em.
Qed.


Lemma tag_free_collapse s :
  tag_free s -> tag_free (re_sub re_spaces [SPACE] s).
Proof.
  induction s as [|c r IH] using str_skip_ind; [trivial|].
  intros [Hc Hr]. rewrite re_sub_cons. unfold re_spaces, class_plus.
  destruct (isspace c) eqn:Ec.
  - rewrite class_plus_cons_true by exact Ec.
    split; [discriminate | apply IH, tag_free_skipn, Hr].
  - rewrite class_min_cons_false by (auto; lia).
    split; [|apply (IH 0%nat), Hr].
    intros E. destruct (Hc E) as [H|H].
    + left. destruct r as [|d t]; [discriminate|].
      simpl in H. apply N.eqb_eq in H. subst d.
      fold (class_plus isspace). rewrite re_sub_keeps_head; [reflexivity|].
      apply class_min_cons_false; [lia | reflexivity].
    + right. intros Hin. apply In_re_sub in Hin as [[Hin|[]]|Hin]; [discriminate | auto].
Qed.

Lemma tag_free_strip_by f s : tag_free s -> tag_free (strip_by f s).
Proof.
  intros H. unfold strip_by, lstrip_by.
  destruct (drop_while_suffix f s) as [pre Hpre].
  destruct (rstrip_by_prefix f (drop_while f s)) as [post Hpost].
  rewrite Hpre in H. apply tag_free_app_r in H.
  rewrite Hpost in H. now apply tag_free_app_l in H.
Qed.

Lemma tag_free_rstrip_by f s : tag_free s -> tag_free (rstrip_by f s).
Proof.
  intros H. destruct (rstrip_by_prefix f s) as [post Hpost].
  rewrite Hpost in H. now apply tag_free_app_l in H.
Qed.

Lemma tag_free_slice_to n s : tag_free s -> tag_free (slice_to n s).
Proof.
  intros H. unfold slice_to.
  destruct (0 <=? n)%Z;
    match goal with |- tag_free (firstn ?k s) =>
      rewrite <- (firstn_skipn k s) in H; now apply tag_free_app_l in H end.
Qed.

Lemma plus_class_inv cls m :
  matches (Plus (Class cls)) m -> m <> [] /\ Forall (fun c => cls c = true) m.
Proof.
  unfold Plus. intros H. inversion H as [| ? ? s1 s2 H1 H2 | |]; subst.
  inversion H1; subst. split; [discriminate|]. constructor; [assumption|].
  clear H H1. remember (Star (Class cls)) as r eqn:Er.
  induction H2 as [| | |r s1 s3 Ha Hb _ IH]; try discriminate; [constructor|].
  injection Er as ->. inversion Ha; subst. constructor; auto.
Qed.

(** A string no position of which starts a tag contains no tag. *)
Lemma tag_free_sound s : tag_free s -> ~ contains TAG_RE s.
Proof.
  intros Hs (pre & m & post & -> & Hm).
  apply tag_free_app_r in Hs. unfold TAG_RE in Hm.
  inversion Hm as [| ? ? s1 s2 H1 H2 | |]; subst.
  inversion H1; subst. inversion H2 as [| ? ? s3 s4 H3 H4 | |]; subst.
  inversion H4; subst. apply plus_class_inv in H3 as [Hne Hall].
  match goal with H : (LT =? ?c) = true |- _ => apply N.eqb_eq in H; subst c end.
  match goal with H : (GT =? ?c) = true |- _ => apply N.eqb_eq in H; subst c end.
  simpl in Hs. destruct Hs as [Hs _]. destruct (Hs eq_refl) as [H|H].
  - destruct s3 as [|d t]; [contradiction|].
    inversion Hall as [|? ? Hd _]; subst. simpl in H.
    unfold not_gt in Hd. rewrite H in Hd. discriminate.
  - apply H. rewrite <- !app_assoc. apply in_or_app. right. now left.
Qed.

Lemma summarize_text_tag_free html max_len : tag_free (summarize_text html max_len).
Proof.
  unfold summarize_text.
  assert (H : tag_free (strip (re_sub re_spaces [SPACE]
                 (re_sub re_tag [SPACE] (opt_or html []))))).
  { apply tag_free_strip_by, tag_free_collapse, tag_free_after_sub_tag. }
  destruct (_ <? _)%Z; [|exact H].
  apply tag_free_snoc; [discriminate|].
  apply tag_free_rstrip_by, tag_free_slice_to, H.
Qed.

Lemma single_spaced_app_r a b : single_spaced (a ++ b) -> single_spaced b.
Proof. induction a as [|c r IH]; simpl; [trivial | intros [_ H]; auto]. Qed.

Lemma single_spaced_app_l a b : single_spaced (a ++ b) -> single_spaced a.
Proof.
  induction a as [|c r IH]; simpl; [trivial|].
  intros [H1 H2]. split; [|auto].
  intros Hc. specialize (H1 Hc). destruct r; [exact I | exact H1].
Qed.

Lemma single_spaced_last_two a x y :
  single_spaced (a ++ [x; y]) -> isspace x = true -> isspace y = false.
Proof.
  intros H. apply single_spaced_app_r in H. simpl in H. tauto.
Qed.

Lemma collapse_single_spaced s : single_spaced (re_sub re_spaces [SPACE] s).
Proof.
  induction s as [|c r IH] using str_skip_ind; [exact I|].
  rewrite re_sub_cons. unfold re_spaces, class_plus.
  destruct (isspace c) eqn:Ec.
  - rewrite class_plus_cons_true by exact Ec. cbn [app].
    split; [|apply IH]. intros _.
    rewrite skipn_take_while.
    destruct (drop_while isspace r) as [|d t] eqn:Ed; [exact I|].
    apply drop_while_head in Ed.
    fold (class_plus isspace). rewrite re_sub_keeps_head; [exact Ed|].
    apply class_min_cons_false; [lia | exact Ed].
  - rewrite class_min_cons_false by (auto; lia).
    split; [|apply (IH 0%nat)]. rewrite Ec. discriminate.
Qed.

Lemma strip_by_head f s c r : strip_by f s = c :: r -> f c = false.
Proof.
  unfold strip_by, lstrip_by. intros E.
  destruct (rstrip_by_prefix f (drop_while f s)) as [post Hp].
  rewrite E in Hp. simpl in Hp. now apply drop_while_head in Hp.
Qed.

Lemma single_spaced_strip_by f s : single_spaced s -> single_spaced (strip_by f s).
Proof.
  intros H. unfold strip_by, lstrip_by.
  destruct (drop_while_suffix f s) as [pre Hpre].
  destruct (rstrip_by_prefix f (drop_while f s)) as [post Hpost].
  rewrite Hpre in H. apply single_spaced_app_r in H.
  rewrite Hpost in H. now apply single_spaced_app_l in H.
Qed.

Lemma clean_text_single_spaced html : single_spaced (clean_text html).
Proof. apply single_spaced_strip_by, collapse_single_spaced. Qed.

Lemma clean_text_head html c r : clean_text html = c :: r -> isspace c = false.
Proof. apply strip_by_head. Qed.

(** Trimming a single-spaced text that does not begin with a space
    removes one character if the text ends in a space, and nothing
    otherwise. *)
Lemma rstrip_single_spaced p :
  single_spaced p ->
  (forall c r, p = c :: r -> isspace c = false) ->
  length (rstrip p) = if ends_in_space p then pred (length p) else length p.
Proof.
  intros Hss Hhead. unfold rstrip, rstrip_by, ends_in_space.
  rewrite length_rev. rewrite <- (length_rev p).
  assert (Ep : p = rev (rev p)) by (symmetry; apply rev_involutive).
  destruct (rev p) as [|b q] eqn:Eq; [reflexivity|].
  simpl drop_while. destruct (isspace b) eqn:Eb; [|reflexivity].
  destruct q as [|a q'].
  - simpl in Ep. rewrite (Hhead _ _ Ep) in Eb. discriminate.
  - assert (Ha : isspace a = false).
    { destruct (isspace a) eqn:Ea; [|reflexivity].
      simpl in Ep. rewrite <- app_assoc in Ep. simpl in Ep.
      rewrite Ep in Hss. rewrite (single_spaced_last_two _ _ _ Hss Ea) in Eb.
      discriminate. }
    simpl. now rewrite Ha.
Qed.

Lemma ends_with_snoc c s : ends_with c (s ++ [c]) = true.
Proof. unfold ends_with. rewrite rev_app_distr. simpl. apply N.eqb_refl. Qed.

Lemma summarize_text_cut html max_len :
  (max_len < Z.of_nat (length (clean_text html)))%Z ->
  summarize_text html max_len
  = rstrip (slice_to (max_len - 1) (clean_text html)) ++ [ELLIPSIS].
Proof.
  intros H. unfold summarize_text. fold (clean_text html).
  apply Z.ltb_lt in H. now rewrite H.
Qed.

Lemma summarize_text_short html max_len :
  (Z.of_nat (length (clean_text html)) <= max_len)%Z ->
  summarize_text html max_len = clean_text html.
Proof.
  intros H. unfold summarize_text. fold (clean_text html).
  apply Z.ltb_ge in H. now rewrite H.
Qed.

(** C6, as the code has it.  When the cleaned text is longer than a
    positive maximum length, the summary ends with the ellipsis marker,
    contains no markup tag, and is exactly the maximum length long,
    unless the cut falls right after a space: that space is trimmed and
    the summary is one character shorter. *)
Theorem summarize_text_truncated (html : option str) (max_len : Z) :
  (1 <= max_len)%Z ->
  (max_len < Z.of_nat (length (clean_text html)))%Z ->
  Z.of_nat (length (summarize_text html max_len))
  = (if ends_in_space (slice_to (max_len - 1) (clean_text html))
     then max_len - 1 else max_len)%Z
  /\ ends_with ELLIPSIS (summarize_text html max_len) = true
  /\ ~ contains TAG_RE (summarize_text html max_len).
Proof.
  intros Hpos Hlong. split; [|split].
  - rewrite summarize_text_cut by exact Hlong.
    set (p := slice_to (max_len - 1) (clean_text html)).
    assert (Hp : exists post, clean_text html = p ++ post).
    { subst p. unfold slice_to.
      replace (0 <=? max_len - 1)%Z with true by (symmetry; apply Z.leb_le; lia).
      eexists. symmetry. apply firstn_skipn. }
    assert (Hlen : Z.of_nat (length p) = (max_len - 1)%Z).
    { subst p. unfold slice_to.
      replace (0 <=? max_len - 1)%Z with true by (symmetry; apply Z.leb_le; lia).
      rewrite length_firstn. lia. }
    destruct Hp as [post Hp].
    rewrite length_app, rstrip_single_spaced.
    + destruct (ends_in_space p) eqn:Ee; simpl length; [|lia].
      destruct p as [|c r]; [discriminate Ee | simpl in *; lia].
    + pose proof (clean_text_single_spaced html) as H.
      rewrite Hp in H. now apply single_spaced_app_l in H.
    + intros c r E. rewrite E in Hp. simpl in Hp.
      apply (clean_text_head _ _ _ Hp).
  - rewrite summarize_text_cut by exact Hlong. apply ends_with_snoc.
  - apply tag_free_sound, summarize_text_tag_free.
Qed.

(** C6, as stated, at the default maximum of 280: 278 letters, a space
    and two letters clean to 281 characters, and the summary is the 278
    letters and the ellipsis, 279 characters. *)
Lemma summarize_text_not_exact :
  (280 < Z.of_nat (length (clean_text (Some letters_space_bb))))%Z
  /\ Z.of_nat (length (summarize_text (Some letters_space_bb) 280)) = 279%Z
  /\ Z.of_nat (length (summarize_text (Some letters_space_bb) 280)) <> 280%Z.
Proof. repeat split; vm_compute; (reflexivity || discriminate). Qed.

Lemma summarize_text_truncated_witness :
  Z.of_nat (length (summarize_text (Some (lit "<p>one  two <b>three</b></p>")) 6))
  = (if ends_in_space (slice_to (6 - 1) (clean_text (Some (lit "<p>one  two <b>three</b></p>"))))
     then 6 - 1 else 6)%Z
  /\ ends_with ELLIPSIS (summarize_text (Some (lit "<p>one  two <b>three</b></p>")) 6) = true
  /\ ~ contains TAG_RE (summarize_text (Some (lit "<p>one  two <b>three</b></p>")) 6).
Proof.
  apply (summarize_text_truncated (Some (lit "<p>one  two <b>three</b></p>")) 6).
  - lia.
  - vm_compute. reflexivity.
Defined.

(** ** [post_identity] *)

Lemma utf8_char_total c :
  (c < 55296 \/ (57343 < c /\ c < 1114112)) -> exists bs, utf8_char c = Some bs.
Proof.
  intros H. unfold utf8_char.
  destruct (c <? 128); [now eexists|].
  destruct (c <? 2048); [now eexists|].
  destruct ((55296 <=? c) && (c <=? 57343)) eqn:Es.
  - apply andb_true_iff in Es as [H1 H2].
    apply N.leb_le in H1, H2. lia.
  - destruct (c <? 65536); [now eexists|].
    destruct (N.ltb_spec c 1114112); [now eexists | lia].
Qed.

(** Text without surrogate code points has a UTF-8 encoding. *)
Lemma encode_utf8_total s :
  Forall (fun c => c < 55296 \/ (57343 < c /\ c < 1114112)) s ->
  exists bytes, encode_utf8 s = Ok bytes.
Proof.
  induction 1 as [|c r Hc _ [bytes IH]]; simpl; [now eexists|].
  destruct (utf8_char_total c Hc) as [bs ->]. rewrite IH. simpl. now eexists.
Qed.

Lemma flat_map_hex_length l : length (flat_map SHA1.hex_byte l) = (2 * length l)%nat.
Proof. induction l as [|b r IH]; simpl; [reflexivity | rewrite IH; lia]. Qed.

Lemma be_bytes_length w n : length (SHA1.be_bytes w n) = w.
Proof. unfold SHA1.be_bytes. now rewrite length_map, length_rev, length_seq. Qed.

Lemma hexdigest_length msg : length (SHA1.hexdigest msg) = 40%nat.
Proof.
  unfold SHA1.hexdigest, SHA1.digest. rewrite flat_map_hex_length.
  now rewrite !length_app, !be_bytes_length.
Qed.

Lemma post_identity_nonempty entry s : post_identity entry = Ok s -> s <> [].
Proof.
  unfold post_identity.
  destruct (entry_id entry) as [[|c r]|]; simpl;
    try (intros H; injection H as <-; discriminate);
    (destruct (entry_link entry) as [[|c' r']|]; simpl;
     try (intros H; injection H as <-; discriminate));
    (destruct (encode_utf8 _); simpl; [|discriminate];
     intros H; injection H as <-; intros E;
     apply (f_equal (@length _)) in E; rewrite hexdigest_length in E; discriminate).
Qed.

(** C5, as the code has it.  The identity of an entry is its id when
    that is non-empty; otherwise its link when that is non-empty;
    otherwise the hexadecimal SHA-1 digest of the UTF-8 encoding of the
    first 512 characters of title, a vertical bar and summary.  Whenever
    an identity is returned it is a non-empty string, and two entries
    without id and link that have the same title and summary have the
    same identity. *)
Theorem post_identity_precedence (entry : FeedEntry) :
  (forall c r, entry_id entry = Some (c :: r) -> post_identity entry = Ok (c :: r))
  /\ (truthy_opt (entry_id entry) = false ->
      forall c r, entry_link entry = Some (c :: r) -> post_identity entry = Ok (c :: r))
  /\ (truthy_opt (entry_id entry) = false ->
      truthy_opt (entry_link entry) = false ->
      forall bytes,
        encode_utf8 (slice_to 512 (attr_or_empty (entry_title entry) ++ [BAR]
                                   ++ attr_or_empty (entry_summary entry))) = Ok bytes ->
        post_identity entry = Ok (SHA1.hexdigest bytes))
  /\ (forall s, post_identity entry = Ok s -> s <> [])
  /\ (forall other,
        truthy_opt (entry_id entry) = false -> truthy_opt (entry_link entry) = false ->
        truthy_opt (entry_id other) = false -> truthy_opt (entry_link other) = false ->
        entry_title other = entry_title entry ->
        entry_summary other = entry_summary entry ->
        post_identity other = post_identity entry).
Proof.
  repeat split.
  - intros c r E. unfold post_identity. now rewrite E.
  - intros Hid c r E. unfold post_identity. now rewrite Hid, E.
  - intros Hid Hlink bytes E. unfold post_identity, identity_base.
    now rewrite Hid, Hlink, E.
  - apply post_identity_nonempty.
  - intros other H1 H2 H3 H4 Ht Hs. unfold post_identity, identity_base.
    now rewrite H1, H2, H3, H4, Ht, Hs.
Qed.

(** C5, as stated, for an entry with title [a] and summary [b] only:
    the code hashes [a|b], not the concatenation [ab]. *)
Lemma post_identity_not_plain_concat :
  post_identity entry_a_b
  <> rbind (encode_utf8 (title_then_summary entry_a_b))
           (fun bytes => Ok (SHA1.hexdigest bytes)).
Proof. intros H. vm_compute in H. discriminate H. Qed.

Lemma post_identity_precedence_witness :
  post_identity entry_a_b = Ok (lit "9abe6de24a871364bf412a1c301698b5ed30dbb7")
  /\ lit "9abe6de24a871364bf412a1c301698b5ed30dbb7" <> [].
Proof.
  destruct (post_identity_precedence entry_a_b) as (_ & _ & Hhash & Hne & _).
  assert (H : post_identity entry_a_b = Ok (lit "9abe6de24a871364bf412a1c301698b5ed30dbb7")).
  { rewrite (Hhash eq_refl eq_refl (lit "a|b")); [|reflexivity].
    vm_compute. reflexivity. }
  split; [exact H | exact (Hne _ H)].
Defined.

(** ** [render_html] *)









(** ** [load_manifest] *)

Lemma load_manifest_spec (w : world) :
  load_manifest w =
  (Ok match manifest_file w with
      | Holds (Json (JDict d)) =>
          match dict_get (lit "posts") d with
          | Some (JList _) => JDict d
          | _ => EMPTY_MANIFEST
          end
      | _ => EMPTY_MANIFEST
      end, w).
Proof.
  unfold load_manifest.
  destruct (manifest_file w) as [| |[|data]]; try reflexivity.
  destruct data as [| | | | |d]; try reflexivity.
  unfold try_except, bind, lift, ret. cbn.
  destruct (dict_get _ d) as [[| | | | |]|]; reflexivity.
Qed.


(** ** Order of strings and of JSON keys *)

Lemma str_ltb_irrefl a : str_ltb a a = false.
Proof. induction a as [|x r IH]; simpl; [reflexivity|]. now rewrite N.ltb_irrefl. Qed.

Lemma str_ltb_asym a : forall b, str_ltb a b = true -> str_ltb b a = false.
Proof.
  induction a as [|x r IH]; intros [|y t]; simpl; try congruence.
  destruct (N.ltb_spec x y), (N.ltb_spec y x); try congruence; try lia.
  apply IH.
Qed.

Lemma str_not_less_trans a : forall b c,
  str_ltb a b = false -> str_ltb b c = false -> str_ltb a c = false.
Proof.
  induction a as [|x r IH]; intros [|y t] [|z u]; simpl; try congruence.
  destruct (N.ltb_spec x y), (N.ltb_spec y x), (N.ltb_spec y z), (N.ltb_spec z y),
    (N.ltb_spec x z), (N.ltb_spec z x); try congruence; try lia.
  apply IH.
Qed.

Lemma str_tie_eq a : forall b, str_ltb a b = false -> str_ltb b a = false -> a = b.
Proof.
  induction a as [|x r IH]; intros [|y t]; simpl; try congruence.
  destruct (N.ltb_spec x y), (N.ltb_spec y x); try congruence; try lia.
  intros H1 H2. f_equal; [lia | now apply IH].
Qed.

Lemma py_lt_num a b x y :
  num_of a = Some x -> num_of b = Some y -> py_lt a b = Ok (x <? y)%Z.
Proof. destruct a, b; simpl; try discriminate; intros [= <-] [= <-]; reflexivity. Qed.

Lemma py_lt_ok a b r :
  py_lt a b = Ok r ->
  (exists s t, a = JStr s /\ b = JStr t /\ r = str_ltb s t)
  \/ (exists x y, num_of a = Some x /\ num_of b = Some y /\ r = (x <? y)%Z).
Proof.
  destruct a, b; simpl; try discriminate; intros [= <-];
    first [ left; do 2 eexists; repeat split; reflexivity
          | right; do 2 eexists; repeat split; reflexivity ].
Qed.


Lemma py_not_less_trans a b c :
  py_lt a b = Ok false -> py_lt b c = Ok false -> py_lt a c = Ok false.
Proof.
  intros H1 H2.
  apply py_lt_ok in H1 as [(s & t & -> & -> & E1)|(x & y & Ha & Hb & E1)];
    apply py_lt_ok in H2 as [(t' & u & Et & -> & E2)|(y' & z & Hb' & Hc & E2)].
  - injection Et as <-. simpl. f_equal. now apply (str_not_less_trans _ t).
  - discriminate.
  - subst b. discriminate.
  - rewrite Hb in Hb'. injection Hb' as <-.
    rewrite (py_lt_num _ _ _ _ Ha Hc). f_equal.
    symmetry in E1, E2. apply Z.ltb_ge in E1, E2. apply Z.ltb_ge. lia.
Qed.

Lemma py_lt_asym a b : py_lt a b = Ok true -> py_lt b a = Ok false.
Proof.
  intros H.
  apply py_lt_ok in H as [(s & t & -> & -> & E)|(x & y & Ha & Hb & E)].
  - simpl. f_equal. now apply str_ltb_asym.
  - rewrite (py_lt_num _ _ _ _ Hb Ha). f_equal.
    symmetry in E. apply Z.ltb_lt in E. apply Z.ltb_ge. lia.
Qed.

Lemma key_tie_str s t : key_tie (JStr s) (JStr t) = true <-> s = t.
Proof.
  unfold key_tie. simpl. split.
  - destruct (str_ltb s t) eqn:E1, (str_ltb t s) eqn:E2; try discriminate.
    intros _. now apply str_tie_eq.
  - intros ->. now rewrite str_ltb_irrefl.
Qed.

Lemma key_tie_not_less k a b :
  key_tie k a = true -> key_tie k b = true -> py_lt a b = Ok false.
Proof.
  unfold key_tie. intros H1 H2.
  destruct (py_lt k a) as [[|]|] eqn:E1; try discriminate.
  destruct (py_lt a k) as [[|]|] eqn:E2; try discriminate.
  destruct (py_lt k b) as [[|]|] eqn:E3; try discriminate.
  now apply (py_not_less_trans _ k).
Qed.

(** ** The stable descending sort *)

Section Sorting.

Context {A : Type}.
Implicit Types (x y : json * A) (l : list (json * A)).

Lemma insert_desc_perm x l l' :
  insert_desc x l = Ok l' -> Permutation (x :: l) l'.
Proof.
  revert l'; induction l as [|y r IH]; intros l'; simpl.
  - intros [= <-]. apply Permutation_refl.
  - destruct (py_lt (fst x) (fst y)) as [[|]|]; simpl; try discriminate.
    + destruct (insert_desc x r) as [r'|]; simpl; [|discriminate].
      intros [= <-]. rewrite perm_swap. apply perm_skip, IH. reflexivity.
    + intros [= <-]. apply Permutation_refl.
Qed.

Lemma sort_desc_perm l l' : sort_desc l = Ok l' -> Permutation l l'.
Proof.
  revert l'; induction l as [|x r IH]; intros l'; simpl.
  - intros [= <-]. constructor.
  - destruct (sort_desc r) as [r'|]; simpl; [|discriminate].
    intros H. apply insert_desc_perm in H.
    rewrite <- H. apply perm_skip, IH. reflexivity.
Qed.

Lemma insert_desc_sorted x l l' :
  StronglySorted key_not_less l ->
  insert_desc x l = Ok l' ->
  StronglySorted key_not_less l'.
Proof.
  intros Hs. revert l'. induction Hs as [|y r Hr IH Hy]; intros l'; simpl.
  - intros [= <-]. repeat constructor.
  - destruct (py_lt (fst x) (fst y)) as [[|]|] eqn:E; simpl; try discriminate.
    + destruct (insert_desc x r) as [r'|] eqn:Ei; simpl; [|discriminate].
      intros [= <-]. constructor; [now apply IH|].
      apply (Permutation_Forall (insert_desc_perm _ _ _ Ei)).
      constructor; [now apply py_lt_asym | exact Hy].
    + intros [= <-]. constructor; [now constructor|].
      constructor; [exact E|].
      eapply Forall_impl; [|exact Hy].
      intros z Hz. unfold key_not_less in *. now apply (py_not_less_trans _ (fst y)).
Qed.

Lemma sort_desc_sorted l l' :
  sort_desc l = Ok l' -> StronglySorted key_not_less l'.
Proof.
  revert l'; induction l as [|x r IH]; intros l'; simpl.
  - intros [= <-]. constructor.
  - destruct (sort_desc r) as [r'|]; simpl; [|discriminate].
    apply insert_desc_sorted, IH. reflexivity.
Qed.

Lemma insert_desc_stable k x l l' :
  insert_desc x l = Ok l' ->
  filter (fun y => key_tie k (fst y)) l' = filter (fun y => key_tie k (fst y)) (x :: l).
Proof.
  revert l'; induction l as [|y r IH]; intros l'; simpl.
  - intros [= <-]. reflexivity.
  - destruct (py_lt (fst x) (fst y)) as [[|]|] eqn:E; simpl; try discriminate.
    + destruct (insert_desc x r) as [r'|] eqn:Ei; simpl; [|discriminate].
      intros [= <-]. simpl. rewrite (IH _ eq_refl). simpl.
      destruct (key_tie k (fst x)) eqn:Ex, (key_tie k (fst y)) eqn:Ey; try reflexivity.
      rewrite (key_tie_not_less _ _ _ Ex Ey) in E. discriminate.
    + intros [= <-]. reflexivity.
Qed.

Lemma sort_desc_stable k l l' :
  sort_desc l = Ok l' ->
  filter (fun y => key_tie k (fst y)) l' = filter (fun y => key_tie k (fst y)) l.
Proof.
  revert l'; induction l as [|x r IH]; intros l'; simpl.
  - intros [= <-]. reflexivity.
  - destruct (sort_desc r) as [r'|]; simpl; [|discriminate].
    intros H. rewrite (insert_desc_stable _ _ _ _ H). simpl.
    now rewrite (IH _ eq_refl).
Qed.

(** Sorting a sorted list changes nothing. *)
Lemma sort_desc_of_sorted l :
  StronglySorted key_not_less l -> sort_desc l = Ok l.
Proof.
  induction 1 as [|x r Hr IH Hx]; simpl; [reflexivity|].
  rewrite IH. simpl. destruct r as [|y t]; [reflexivity|].
  simpl. inversion Hx as [|? ? Hxy _]; subst.
  unfold key_not_less in Hxy. now rewrite Hxy.
Qed.

End Sorting.

Lemma map_result_ok {A B} (f : A -> result B) l ks :
  map_result f l = Ok ks -> Forall2 (fun x k => f x = Ok k) l ks.
Proof.
  revert ks; induction l as [|x r IH]; intros ks; simpl.
  - intros [= <-]. constructor.
  - destruct (f x) as [k|] eqn:E; simpl; [|discriminate].
    destruct (map_result f r) as [ks'|]; simpl; [|discriminate].
    intros [= <-]. constructor; auto.
Qed.

Lemma map_result_total {A B} (f : A -> result B) l :
  Forall (fun x => exists k, f x = Ok k) l -> exists ks, map_result f l = Ok ks.
Proof.
  induction 1 as [|x r [k Hk] _ [ks IH]]; simpl; [now eexists|].
  rewrite Hk, IH. simpl. now eexists.
Qed.

Lemma map_result_ok_each {A B} (f : A -> result B) l ks :
  map_result f l = Ok ks -> Forall (fun x => exists k, f x = Ok k) l.
Proof.
  intros H. apply map_result_ok in H.
  induction H; constructor; eauto.
Qed.

(** The pairs the sort works on: each record with its own key. *)
Lemma keyed_combine {A B} (f : A -> result B) l ks :
  Forall2 (fun x k => f x = Ok k) l ks ->
  Forall (fun p => f (snd p) = Ok (fst p)) (combine ks l)
  /\ map snd (combine ks l) = l.
Proof.
  induction 1 as [|x k r ks' Hx _ [IH1 IH2]]; simpl; [now split|].
  split; [now constructor | now rewrite IH2].
Qed.

Lemma keyed_sorted_by_date (l : list (json * json)) :
  Forall (fun p => date_key (snd p) = Ok (fst p)) l ->
  StronglySorted key_not_less l ->
  StronglySorted date_not_less (map snd l).
Proof.
  intros Hk Hs. induction Hs as [|p r Hr IH Hp]; simpl; [constructor|].
  inversion Hk as [|? ? Hkp Hkr]; subst.
  constructor; [now apply IH|].
  rewrite Forall_map. rewrite Forall_forall in *.
  intros q Hq. exists (fst p), (fst q). repeat split; auto. now apply Hp.
Qed.

Lemma date_sorted_keyed (l : list (json * json)) :
  Forall (fun p => date_key (snd p) = Ok (fst p)) l ->
  StronglySorted date_not_less (map snd l) ->
  StronglySorted key_not_less l.
Proof.
  induction l as [|p r IH]; simpl; intros Hk Hs; [constructor|].
  inversion Hk as [|? ? Hkp Hkr]; subst.
  inversion Hs as [|? ? Hr Hp]; subst.
  constructor; [now apply IH|].
  rewrite Forall_map in Hp. rewrite Forall_forall in *.
  intros q Hq. destruct (Hp q Hq) as (ka & kb & Ea & Eb & Hlt).
  unfold key_not_less. rewrite Hkp in Ea. rewrite (Hkr q Hq) in Eb.
  injection Ea as <-. injection Eb as <-. exact Hlt.
Qed.

Lemma filter_map_snd {A B} (f : B -> bool) (l : list (A * B)) :
  filter f (map snd l) = map snd (filter (fun p => f (snd p)) l).
Proof.
  induction l as [|p r IH]; simpl; [reflexivity|].
  destruct (f (snd p)); simpl; now rewrite IH.
Qed.

Lemma filter_keyed k (l : list (json * json)) :
  Forall (fun p => date_key (snd p) = Ok (fst p)) l ->
  filter (fun p => has_date k (snd p)) l = filter (fun p => key_tie k (fst p)) l.
Proof.
  intros H. apply filter_ext_in. rewrite Forall_forall in H.
  intros p Hp. unfold has_date. now rewrite (H p Hp).
Qed.

(** The sort of [save_manifest] permutes the records, puts them in
    descending order of [date_iso], and keeps records whose [date_iso]
    tie in the order they had. *)
Lemma sort_by_date_spec l l' :
  sort_by_key_desc date_key l = Ok l' ->
  Permutation l l'
  /\ StronglySorted date_not_less l'
  /\ (forall k, filter (has_date k) l' = filter (has_date k) l).
Proof.
  unfold sort_by_key_desc.
  destruct (map_result date_key l) as [ks|] eqn:Ek; simpl; [|discriminate].
  destruct (sort_desc (combine ks l)) as [srt|] eqn:Es; simpl; [|discriminate].
  intros [= <-].
  destruct (keyed_combine _ _ _ (map_result_ok _ _ _ Ek)) as [Hk Hl].
  pose proof (sort_desc_perm _ _ Es) as Hp.
  assert (Hk' : Forall (fun p => date_key (snd p) = Ok (fst p)) srt)
    by (apply (Permutation_Forall Hp Hk)).
  split; [|split].
  - rewrite <- Hl at 1. now apply Permutation_map.
  - apply keyed_sorted_by_date; [exact Hk' | apply (sort_desc_sorted _ _ Es)].
  - intros k. rewrite <- Hl at 1. rewrite !filter_map_snd.
    rewrite !filter_keyed by assumption.
    now rewrite (sort_desc_stable k _ _ Es).
Qed.

Lemma sort_by_date_of_sorted l :
  Forall (fun x => exists k, date_key x = Ok k) l ->
  StronglySorted date_not_less l ->
  sort_by_key_desc date_key l = Ok l.
Proof.
  intros Hall Hs. unfold sort_by_key_desc.
  destruct (map_result_total _ _ Hall) as [ks Ek]. rewrite Ek. simpl.
  destruct (keyed_combine _ _ _ (map_result_ok _ _ _ Ek)) as [Hk Hl].
  rewrite sort_desc_of_sorted; [simpl; now rewrite Hl|].
  apply date_sorted_keyed; [exact Hk | now rewrite Hl].
Qed.

(** ** Dicts *)

Lemma str_eqb_eq a b : str_eqb a b = true <-> a = b.
Proof. unfold str_eqb. destruct (list_eq_dec N.eq_dec a b); split; congruence. Qed.

Lemma str_eqb_refl a : str_eqb a a = true.
Proof. now apply str_eqb_eq. Qed.

Lemma dict_get_set_same k v d : dict_get k (dict_set k v d) = Some v.
Proof.
  induction d as [|[k' v'] r IH]; simpl.
  - now rewrite str_eqb_refl.
  - destruct (str_eqb k k') eqn:E; simpl; rewrite E; [reflexivity | exact IH].
Qed.

Lemma dict_get_set_other k k' v d :
  k' <> k -> dict_get k' (dict_set k v d) = dict_get k' d.
Proof.
  intros Hne. induction d as [|[k0 v0] r IH]; simpl.
  - destruct (str_eqb k' k) eqn:E; [apply str_eqb_eq in E; contradiction | reflexivity].
  - destruct (str_eqb k k0) eqn:E; simpl.
    + apply str_eqb_eq in E. subst k0.
      destruct (str_eqb k' k) eqn:E'; [apply str_eqb_eq in E'; contradiction | reflexivity].
    + now rewrite IH.
Qed.

Lemma dict_set_set k v v' d : dict_set k v' (dict_set k v d) = dict_set k v' d.
Proof.
  induction d as [|[k0 v0] r IH]; simpl.
  - now rewrite str_eqb_refl.
  - destruct (str_eqb k k0) eqn:E; simpl; rewrite E; [reflexivity | now rewrite IH].
Qed.

Lemma dict_set_same k v d : dict_get k d = Some v -> dict_set k v d = d.
Proof.
  induction d as [|[k0 v0] r IH]; simpl; [discriminate|].
  destruct (str_eqb k k0); [intros [= ->]; reflexivity|].
  intros H. now rewrite IH.
Qed.

Lemma dict_set_keys k v d :
  dict_get k d <> None -> map fst (dict_set k v d) = map fst d.
Proof.
  induction d as [|[k0 v0] r IH]; simpl; [congruence|].
  destruct (str_eqb k k0); simpl; [reflexivity|].
  intros H. now rewrite IH.
Qed.

Lemma posts_of_ok m l :
  posts_of m = Ok l <-> exists d, m = JDict d /\ dict_get (lit "posts") d = Some (JList l).
Proof.
  unfold posts_of, py_item. split.
  - destruct m as [| | | | |d]; simpl; try discriminate.
    destruct (dict_get (lit "posts") d) as [[| | | | l'|]|] eqn:E; simpl; try discriminate.
    intros [= ->]. now exists d.
  - intros (d & -> & E). now rewrite E.
Qed.

Lemma posts_of_with_posts d l :
  posts_of (JDict (dict_set (lit "posts") (JList l) d)) = Ok l.
Proof. apply posts_of_ok. eexists. split; [reflexivity | apply dict_get_set_same]. Qed.

(** ** [save_manifest] *)

Lemma save_manifest_inv E m w m' w' :
  save_manifest E m w = (Ok m', w') ->
  exists d posts sorted,
    m = JDict d
    /\ dict_get (lit "posts") d = Some (JList posts)
    /\ sort_by_key_desc date_key posts = Ok sorted
    /\ m' = JDict (dict_set (lit "posts") (JList sorted) d)
    /\ manifest_write E = Written
    /\ manifest_file w' = Holds (Json m')
    /\ trace w' = trace w ++ [ManifestSaved m']
    /\ clock_reads w' = clock_reads w.
Proof.
  unfold save_manifest, bind, lift, ret.
  destruct (posts_of m) as [posts|] eqn:Ep; [|discriminate].
  destruct (sort_by_key_desc date_key posts) as [sorted|] eqn:Es; [|discriminate].
  apply posts_of_ok in Ep as (d & -> & Ed).
  unfold write_manifest. simpl with_posts.
  destruct (manifest_write E); try discriminate.
  intros [= <- <-]. exists d, posts, sorted. simpl. repeat split; assumption.
Qed.


Example save_manifest_three :
  posts_of (saved_manifest env_quiet manifest_three (world_with Absent))
  = Ok [ record_dated "second" "2024-02-01T00:00:00+00:00";
         record_dated "first" "2024-01-01T00:00:00+00:00";
         record_dated "third" "2024-01-01T00:00:00+00:00" ].
Proof. vm_compute. reflexivity. Qed.


(** ** The known set *)

Lemma atom_eqb_str s x : atom_eqb (JStr s) x = true <-> x = JStr s.
Proof.
  destruct x; simpl; split; try discriminate; try congruence.
  - intros H. apply str_eqb_eq in H. now subst.
  - intros [= ->]. apply str_eqb_refl.
Qed.


Lemma set_mem_add y x K :
  set_mem y (set_add x K) = true <-> atom_eqb y x = true \/ set_mem y K = true.
Proof.
  unfold set_add. destruct (set_mem x K) eqn:E.
  - split; [now right|]. intros [H|H]; [|exact H].
    unfold set_mem in *. rewrite existsb_exists in *.
    destruct E as (z & Hz & Ez). exists z. split; [exact Hz|].
    destruct y, x, z; simpl in *; try discriminate; try reflexivity;
      try (apply str_eqb_eq in H; apply str_eqb_eq in Ez; apply str_eqb_eq; congruence);
      repeat match goal with b : bool |- _ => destruct b end;
      try (apply Z.eqb_eq in H; apply Z.eqb_eq in Ez; apply Z.eqb_eq; congruence).
  - simpl. rewrite orb_true_iff. tauto.
Qed.

Lemma set_mem_add_str s x K :
  set_mem (JStr s) (set_add x K) = true <-> x = JStr s \/ set_mem (JStr s) K = true.
Proof. rewrite set_mem_add, atom_eqb_str. tauto. Qed.

(** The known set built from the manifest holds exactly the non-empty
    string ids of its records. *)
Lemma known_ids_of_spec posts : forall acc K,
  known_ids_of posts acc = Ok K ->
  forall s, s <> [] ->
    (set_mem (JStr s) K = true <->
     set_mem (JStr s) acc = true \/ In (Ok (JStr s)) (map record_id posts)).
Proof.
  induction posts as [|p r IH]; intros acc K; simpl.
  - intros [= <-] s _. tauto.
  - fold (record_id p). destruct (record_id p) as [v|] eqn:Ev; simpl; [|discriminate].
    destruct (truthy v) eqn:Et.
    + destruct (hashable v); [|discriminate].
      intros H s Hs. rewrite (IH _ _ H s Hs), set_mem_add_str.
      split; [intros [[->|H1]|H1] | intros [H1|[[= ->]|H1]]]; tauto.
    + intros H s Hs. rewrite (IH _ _ H s Hs).
      split; [tauto | intros [H1|[[= ->]|H1]]; try tauto].
      destruct s; [contradiction | discriminate].
Qed.

Lemma known_ids_of_total posts : forall acc,
  Forall (fun p => exists v, record_id p = Ok v /\ (truthy v = true -> hashable v = true)) posts ->
  exists K, known_ids_of posts acc = Ok K.
Proof.
  induction posts as [|p r IH]; intros acc H; simpl; [now eexists|].
  inversion H as [|? ? (v & Ev & Hv) Hr]; subst.
  fold (record_id p). rewrite Ev. simpl.
  destruct (truthy v); [rewrite Hv by reflexivity|]; now apply IH.
Qed.

Lemma known_ids_of_each posts : forall acc K,
  known_ids_of posts acc = Ok K ->
  Forall (fun p => exists v, record_id p = Ok v /\ (truthy v = true -> hashable v = true)) posts.
Proof.
  induction posts as [|p r IH]; intros acc K; simpl; [constructor|].
  fold (record_id p). destruct (record_id p) as [v|] eqn:Ev; simpl; [|discriminate].
  destruct (truthy v) eqn:Et.
  - destruct (hashable v) eqn:Eh; [|discriminate].
    intros H. constructor; [eauto | eapply IH, H].
  - intros H. constructor; [|eapply IH, H].
    exists v. split; [exact Ev | congruence].
Qed.

(** ** Steps of the run *)

Lemma bind_ok {A B} (m : M A) (k : A -> M B) w b w' :
  bind m k w = (Ok b, w') ->
  exists a w1, m w = (Ok a, w1) /\ k a w1 = (Ok b, w').
Proof.
  unfold bind. destruct (m w) as [[a|e] w1]; [eauto | discriminate].
Qed.

Lemma lift_ok {A} (r : result A) w a w' :
  lift r w = (Ok a, w') -> r = Ok a /\ w' = w.
Proof. unfold lift. intros [= -> <-]. now split. Qed.

Lemma emit_ok e w u w' :
  emit e w = (Ok u, w') ->
  manifest_file w' = manifest_file w /\ trace w' = trace w ++ [e]
  /\ clock_reads w' = clock_reads w.
Proof. unfold emit. intros [= _ <-]. now repeat split. Qed.

Lemma pick_datetime_ok E entry w :
  exists d w1, pick_datetime E entry w = (Ok d, w1)
    /\ manifest_file w1 = manifest_file w /\ trace w1 = trace w.
Proof.
  unfold pick_datetime.
  destruct (parsed_time E (published_parsed entry)); [now eexists _, _|].
  destruct (parsed_time E (updated_parsed entry)); [now eexists _, _|].
  unfold now. now eexists _, _.
Qed.

Lemma write_post_file_ok E dt title content link w filename w' :
  write_post_file E dt title content link w = (Ok filename, w') ->
  manifest_file w' = manifest_file w
  /\ exists html, trace w' = trace w ++ [PostWritten filename html].
Proof.
  unfold write_post_file. destruct (post_writable E _); [|discriminate].
  intros H. apply bind_ok in H as (u & w1 & He & Hr).
  apply emit_ok in He as (Hf & Ht & _).
  unfold ret in Hr. injection Hr as <- <-.
  split; [exact Hf | eauto].
Qed.

Lemma process_entry_inv E st entry w st' w' :
  process_entry E st entry w = (Ok st', w') ->
  exists pid,
    post_identity entry = Ok pid
    /\ ((set_mem (JStr pid) (known_ids st) = true /\ st' = st /\ w' = w)
        \/ (set_mem (JStr pid) (known_ids st) = false
            /\ exists posts rec filename html line,
                 posts_of (manifest st) = Ok posts
                 /\ record_id rec = Ok (JStr pid)
                 /\ st' = {| manifest := with_posts (manifest st) (posts ++ [rec]);
                             known_ids := set_add (JStr pid) (known_ids st);
                             added_count := S (added_count st) |}
                 /\ manifest_file w' = manifest_file w
                 /\ trace w' = trace w ++ [PostWritten filename html; Printed line])).
Proof.
  unfold process_entry. intros H.
  apply bind_ok in H as (pid & w0 & Hp & H). apply lift_ok in Hp as [Hp ->].
  exists pid. split; [exact Hp|].
  destruct (set_mem (JStr pid) (known_ids st)) eqn:Ek.
  - left. unfold ret in H. injection H as <- <-. auto.
  - right. split; [reflexivity|].
    apply bind_ok in H as (dt & w1 & Hd & H).
    destruct (pick_datetime_ok E entry w) as (dt' & w1' & Hd' & Hf1 & Ht1).
    rewrite Hd in Hd'. injection Hd' as <- <-.
    apply bind_ok in H as (filename & w2 & Hw & H).
    apply write_post_file_ok in Hw as (Hf2 & html & Ht2).
    apply bind_ok in H as (u & w3 & He & H).
    apply emit_ok in He as (Hf3 & Ht3 & _).
    apply bind_ok in H as (posts & w4 & Hl & H). apply lift_ok in Hl as [Hl ->].
    unfold ret in H. injection H as <- <-.
    eexists posts, _, filename, html, _. repeat split.
    + exact Hl.
    + reflexivity.
    + congruence.
    + rewrite Ht3, Ht2, Ht1, <- app_assoc. reflexivity.
Qed.

Lemma grows_quiet d0 P evs st w w' :
  manifest st = JDict (dict_set (lit "posts") (JList P) d0) ->
  manifest_file w' = manifest_file w ->
  trace w' = trace w ++ evs ->
  Forall (fun e => is_save e = false) evs ->
  filter is_post_written evs = [] ->
  grows d0 P [] evs st w st w'.
Proof.
  intros Hm Hf Ht Hs Hp. unfold grows. rewrite app_nil_r, Hp. simpl.
  repeat split; auto; try constructor; lia.
Qed.

Lemma grows_trans d0 P n1 n2 e1 e2 st w st1 w1 st2 w2 :
  grows d0 P n1 e1 st w st1 w1 ->
  grows d0 (P ++ n1) n2 e2 st1 w1 st2 w2 ->
  grows d0 P (n1 ++ n2) (e1 ++ e2) st w st2 w2.
Proof.
  intros (Hm1 & Hf1 & Ht1 & Hs1 & Hc1 & Ha1 & Hmono1 & Hback1 & Hnew1 & Hnd1)
         (Hm2 & Hf2 & Ht2 & Hs2 & Hc2 & Ha2 & Hmono2 & Hback2 & Hnew2 & Hnd2).
  unfold grows. repeat split.
  - now rewrite Hm2, app_assoc.
  - congruence.
  - now rewrite Ht2, Ht1, app_assoc.
  - apply Forall_app. now split.
  - rewrite filter_app, !length_app. lia.
  - rewrite length_app. lia.
  - auto.
  - intros s Hs. rewrite map_app, in_app_iff.
    destruct (Hback2 s Hs) as [H|H]; [|tauto].
    destruct (Hback1 s H); tauto.
  - apply Forall_app. split.
    + eapply Forall_impl; [|exact Hnew1].
      intros p (s & Hne & Hid & Hk & Hk'). exists s. auto.
    + eapply Forall_impl; [|exact Hnew2].
      intros p (s & Hne & Hid & Hk & Hk'). exists s. repeat split; auto.
      destruct (set_mem (JStr s) (known_ids st)) eqn:E; [|reflexivity].
      rewrite (Hmono1 _ E) in Hk. discriminate.
  - rewrite map_app. apply NoDup_app; [assumption | assumption |].
    intros x Hx1 Hx2. apply in_map_iff in Hx1 as (p1 & E1 & Hp1).
    apply in_map_iff in Hx2 as (p2 & E2 & Hp2).
    rewrite Forall_forall in Hnew1, Hnew2.
    destruct (Hnew1 _ Hp1) as (s1 & _ & Hid1 & _ & Hk1).
    destruct (Hnew2 _ Hp2) as (s2 & _ & Hid2 & Hk2 & _).
    assert (s1 = s2) by congruence. subst s2. congruence.
Qed.

Lemma grows_entry E d0 P st entry w st' w' :
  manifest st = JDict (dict_set (lit "posts") (JList P) d0) ->
  process_entry E st entry w = (Ok st', w') ->
  exists new evs, grows d0 P new evs st w st' w' /\ seen (known_ids st') entry.
Proof.
  intros Hm H. apply process_entry_inv in H as (pid & Hpid & [(Hk & -> & ->)|H]).
  - exists [], []. split; [|now exists pid].
    apply grows_quiet; auto. now rewrite app_nil_r.
  - destruct H as (Hk & posts & rec & filename & html & line & Hl & Hid & -> & Hf & Ht).
    rewrite Hm, posts_of_with_posts in Hl. injection Hl as <-.
    assert (Hin : set_mem (JStr pid) (set_add (JStr pid) (known_ids st)) = true)
      by (apply set_mem_add_str; now left).
    exists [rec], [PostWritten filename html; Printed line].
    split; [|exists pid; now split].
    unfold grows. cbn [manifest known_ids added_count].
    repeat split.
    + rewrite Hm. simpl. now rewrite dict_set_set.
    + exact Hf.
    + exact Ht.
    + repeat constructor.
    + simpl. lia.
    + intros x Hx. apply set_mem_add. now right.
    + intros s Hs. apply set_mem_add_str in Hs as [[= <-]|Hs]; [right | now left].
      simpl. left. exact Hid.
    + constructor; [|constructor]. exists pid.
      repeat split; auto. now apply (post_identity_nonempty entry).
    + simpl. constructor; [intros [] | constructor].
Qed.

Lemma seen_mono K K' entry :
  (forall x, set_mem x K = true -> set_mem x K' = true) ->
  seen K entry -> seen K' entry.
Proof. intros Hm (pid & Hp & Hk). exists pid. auto. Qed.

Lemma grows_mono d0 P new evs st w st' w' :
  grows d0 P new evs st w st' w' ->
  forall x, set_mem x (known_ids st) = true -> set_mem x (known_ids st') = true.
Proof. intros H. apply H. Qed.

Lemma grows_manifest d0 P new evs st w st' w' :
  grows d0 P new evs st w st' w' ->
  manifest st' = JDict (dict_set (lit "posts") (JList (P ++ new)) d0).
Proof. intros H. apply H. Qed.

Lemma grows_entries E d0 es : forall P st w st' w',
  manifest st = JDict (dict_set (lit "posts") (JList P) d0) ->
  for_each (process_entry E) es st w = (Ok st', w') ->
  exists new evs, grows d0 P new evs st w st' w' /\ Forall (seen (known_ids st')) es.
Proof.
  induction es as [|e r IH]; intros P st w st' w' Hm; simpl.
  - unfold ret. intros [= <- <-]. exists [], []. split; [|constructor].
    apply grows_quiet; auto. now rewrite app_nil_r.
  - intros H. apply bind_ok in H as (st1 & w1 & H1 & H2).
    destruct (grows_entry _ _ _ _ _ _ _ _ Hm H1) as (n1 & e1 & G1 & S1).
    destruct (IH _ _ _ _ _ (grows_manifest _ _ _ _ _ _ _ _ G1) H2) as (n2 & e2 & G2 & S2).
    exists (n1 ++ n2), (e1 ++ e2). split; [now apply (grows_trans _ _ _ _ _ _ _ _ st1 w1)|].
    constructor; [|exact S2].
    apply (seen_mono (known_ids st1)); [apply (grows_mono _ _ _ _ _ _ _ _ G2) | exact S1].
Qed.

Lemma print_ok line w u w' :
  print line w = (Ok u, w') ->
  manifest_file w' = manifest_file w /\ trace w' = trace w ++ [Printed line].
Proof. intros H. apply emit_ok in H. tauto. Qed.

Lemma grows_feed E d0 P st feed_url w st' w' :
  manifest st = JDict (dict_set (lit "posts") (JList P) d0) ->
  process_feed E st feed_url w = (Ok st', w') ->
  exists new evs, grows d0 P new evs st w st' w'
                  /\ Forall (seen (known_ids st')) (considered E feed_url).
Proof.
  intros Hm H. unfold process_feed in H.
  apply bind_ok in H as (u1 & w1 & Hp1 & H). apply print_ok in Hp1 as [Hf1 Ht1].
  apply bind_ok in H as (u2 & w2 & Hp2 & H).
  assert (Hw2 : exists evs2, manifest_file w2 = manifest_file w1
                             /\ trace w2 = trace w1 ++ evs2
                             /\ Forall (fun e => is_save e = false) evs2
                             /\ filter is_post_written evs2 = []).
  { destruct (bozo (feedparser_parse E feed_url)).
    - apply print_ok in Hp2 as [Hf2 Ht2]. eexists. repeat split; eauto.
    - unfold ret in Hp2. injection Hp2 as _ <-. exists [].
      rewrite app_nil_r. repeat split; auto. }
  destruct Hw2 as (evs2 & Hf2 & Ht2 & Hs2 & Hpw2).
  assert (G0 : grows d0 P [] (Printed (lit "Fetching: " ++ feed_url) :: evs2) st w st w2).
  { apply grows_quiet; auto; try congruence; try (now constructor).
    rewrite Ht2, Ht1, <- app_assoc. reflexivity. }
  unfold considered.
  destruct (entries (feedparser_parse E feed_url)) as [|e es] eqn:Ee.
  - apply bind_ok in H as (u3 & w3 & Hp3 & H). apply print_ok in Hp3 as [Hf3 Ht3].
    unfold ret in H. injection H as <- <-.
    exists [], (Printed (lit "Fetching: " ++ feed_url)
                :: evs2 ++ [Printed (lit "  No entries found.")]).
    split.
    + apply grows_quiet; [exact Hm | congruence | | |].
      * rewrite Ht3, Ht2, Ht1, <- !app_assoc. reflexivity.
      * constructor; [reflexivity|]. apply Forall_app. split; [exact Hs2 | now repeat constructor].
      * simpl. rewrite filter_app, Hpw2. reflexivity.
    + unfold slice_to. destruct (0 <=? _)%Z; rewrite firstn_nil; constructor.
  - apply grows_entries with (d0 := d0) (P := P ++ []) in H.
    + destruct H as (new & evs & G & S).
      exists ([] ++ new), ((Printed (lit "Fetching: " ++ feed_url) :: evs2) ++ evs).
      split; [now apply (grows_trans _ _ _ _ _ _ _ _ st w2) | exact S].
    + now rewrite app_nil_r.
Qed.

Lemma grows_feeds E d0 feeds : forall P st w st' w',
  manifest st = JDict (dict_set (lit "posts") (JList P) d0) ->
  for_each (process_feed E) feeds st w = (Ok st', w') ->
  exists new evs,
    grows d0 P new evs st w st' w'
    /\ Forall (fun u => Forall (seen (known_ids st')) (considered E u)) feeds.
Proof.
  induction feeds as [|u r IH]; intros P st w st' w' Hm; simpl.
  - unfold ret. intros [= <- <-]. exists [], []. split; [|constructor].
    apply grows_quiet; auto. now rewrite app_nil_r.
  - intros H. apply bind_ok in H as (st1 & w1 & H1 & H2).
    destruct (grows_feed _ _ _ _ _ _ _ _ Hm H1) as (n1 & e1 & G1 & S1).
    destruct (IH _ _ _ _ _ (grows_manifest _ _ _ _ _ _ _ _ G1) H2) as (n2 & e2 & G2 & S2).
    exists (n1 ++ n2), (e1 ++ e2). split; [now apply (grows_trans _ _ _ _ _ _ _ _ st1 w1)|].
    constructor; [|exact S2].
    eapply Forall_impl; [|exact S1]. intros e.
    apply seen_mono, (grows_mono _ _ _ _ _ _ _ _ G2).
Qed.

(** ** [main] *)

(** What [load_manifest] returns is always a dict with a list of posts;
    it is the content of the file when that has this shape, and has no
    posts otherwise. *)
Lemma load_manifest_valid w :
  exists d P,
    load_manifest w = (Ok (JDict d), w)
    /\ dict_get (lit "posts") d = Some (JList P)
    /\ (manifest_file w = Holds (Json (JDict d)) \/ P = [])
    /\ (forall data l, manifest_file w = Holds (Json data) -> posts_of data = Ok l ->
          data = JDict d).
Proof.
  rewrite load_manifest_spec.
  assert (Hempty : forall f : file document,
            manifest_file w = f ->
            (forall data l, f = Holds (Json data) -> posts_of data <> Ok l) ->
            exists d P,
              (Ok EMPTY_MANIFEST, w) = (Ok (JDict d), w)
              /\ dict_get (lit "posts") d = Some (JList P)
              /\ (f = Holds (Json (JDict d)) \/ P = [])
              /\ (forall data l, f = Holds (Json data) -> posts_of data = Ok l ->
                    data = JDict d)).
  { intros f _ Hf. exists [(lit "posts", JList [])], [].
    repeat split; auto. intros data l H1 H2. now destruct (Hf data l H1). }
  destruct (manifest_file w) as [| |[|data]] eqn:Ef;
    try (apply Hempty; [reflexivity | intros; discriminate]).
  destruct data as [| | | | |d];
    try (apply Hempty; [reflexivity | intros ? ? [= <-]; discriminate]).
  destruct (dict_get (lit "posts") d) as [[| | | |l|]|] eqn:Ed;
    try (apply Hempty; [reflexivity | intros ? ? [= <-] Hp;
         apply posts_of_ok in Hp as (? & [= <-] & ?); congruence]).
  exists d, l. repeat split; auto. now intros data l' [= <-] _.
Qed.


Lemma main_unfold E w :
  main E w =
  if mkdir_ok E then
    match load_manifest w with
    | (Ok manifest0, w0) =>
        match rbind (py_get manifest0 (lit "posts") (JList []))
                (fun posts0 => match posts0 with
                               | JList l => known_ids_of l []
                               | _ => Raise TypeError
                               end) with
        | Ok known =>
            match resolve_feeds E with
            | [] => print NO_FEEDS_MESSAGE w0
            | feeds =>
                match for_each (process_feed E) feeds (initial_locals manifest0 known) w0 with
                | (Ok st, w1) =>
                    match save_manifest E (manifest st) w1 with
                    | (Ok saved, w2) =>
                        match posts_of saved with
                        | Ok total =>
                            (Ok tt, printed [done_line (added_count st);
                                             total_line (length total)] w2)
                        | Raise e => (Raise e, printed [done_line (added_count st)] w2)
                        end
                    | (Raise e, w2) => (Raise e, w2)
                    end
                | (Raise e, w1) => (Raise e, w1)
                end
            end
        | Raise e => (Raise e, w0)
        end
    | (Raise e, w0) => (Raise e, w0)
    end
  else (Raise OSError, w).
Proof.
  unfold main, ensure_dirs, bind at 1.
  destruct (mkdir_ok E); [|reflexivity]. unfold ret at 1.
  unfold bind at 1. destruct (load_manifest w) as [[m0|e] w0]; [|reflexivity].
  unfold bind at 1, lift at 1.
  destruct (py_get m0 (lit "posts") (JList [])) as [posts0|e]; [|reflexivity].
  unfold bind at 1, lift at 1. simpl rbind.
  destruct (match posts0 with JList l => known_ids_of l [] | _ => Raise TypeError end)
    as [known|e]; [|reflexivity].
  destruct (resolve_feeds E) as [|u us]; [reflexivity|].
  unfold bind at 1. fold (initial_locals m0 known).
  destruct (for_each (process_feed E) (u :: us) (initial_locals m0 known) w0)
    as [[st|e] w1]; [|reflexivity].
  unfold bind at 1.
  destruct (save_manifest E (manifest st) w1) as [[saved|e] w2]; [|reflexivity].
  unfold bind, print, emit, lift, printed, done_line, total_line. simpl.
  destruct (posts_of saved) as [total|e]; simpl; [|reflexivity].
  now rewrite <- app_assoc.
Qed.

Lemma main_inv E w w' :
  main E w = (Ok tt, w') ->
  exists d0 P0 K0,
    mkdir_ok E = true
    /\ load_manifest w = (Ok (JDict d0), w)
    /\ dict_get (lit "posts") d0 = Some (JList P0)
    /\ known_ids_of P0 [] = Ok K0
    /\ ((resolve_feeds E = [] /\ w' = printed [NO_FEEDS_MESSAGE] w)
        \/ (resolve_feeds E <> []
            /\ exists st w1 saved w2 total,
                 for_each (process_feed E) (resolve_feeds E)
                   (initial_locals (JDict d0) K0) w = (Ok st, w1)
                 /\ save_manifest E (manifest st) w1 = (Ok saved, w2)
                 /\ posts_of saved = Ok total
                 /\ w' = printed [done_line (added_count st); total_line (length total)] w2)).
Proof.
  rewrite main_unfold.
  destruct (mkdir_ok E); [|discriminate].
  destruct (load_manifest_valid w) as (d0 & P0 & Hl & Hd & _). rewrite Hl.
  simpl py_get. rewrite Hd. simpl rbind.
  destruct (known_ids_of P0 []) as [K0|] eqn:Ek; [|discriminate].
  intros H. exists d0, P0, K0. repeat split; auto.
  destruct (resolve_feeds E) as [|u us] eqn:Ef.
  - left. split; [reflexivity|]. unfold print, emit in H. injection H as <-. reflexivity.
  - right. split; [discriminate|].
    destruct (for_each _ _ _ w) as [[st|e] w1]; [|discriminate].
    destruct (save_manifest E (manifest st) w1) as [[saved|e] w2] eqn:Es; [|discriminate].
    destruct (posts_of saved) as [total|e] eqn:Et; [|discriminate].
    injection H as <-. now exists st, w1, saved, w2, total.
Qed.

(** A run that completes, told as a whole.  Either no feed is
    configured, and the run only prints that; or the loops append some
    records [new] to the posts [P0] of the loaded manifest, emitting
    [evs], and the manifest is then saved, sorted, and two lines are
    printed. *)
Lemma main_run E w w' :
  main E w = (Ok tt, w') ->
  exists d0 P0 K0,
    mkdir_ok E = true
    /\ load_manifest w = (Ok (JDict d0), w)
    /\ dict_get (lit "posts") d0 = Some (JList P0)
    /\ known_ids_of P0 [] = Ok K0
    /\ ((resolve_feeds E = [] /\ w' = printed [NO_FEEDS_MESSAGE] w)
        \/ (resolve_feeds E <> []
            /\ exists st w1 new evs sorted,
                 grows d0 P0 new evs (initial_locals (JDict d0) K0) w st w1
                 /\ Forall (fun u => Forall (seen (known_ids st)) (considered E u))
                      (resolve_feeds E)
                 /\ sort_by_key_desc date_key (P0 ++ new) = Ok sorted
                 /\ manifest_write E = Written
                 /\ manifest_file w'
                    = Holds (Json (JDict (dict_set (lit "posts") (JList sorted) d0)))
                 /\ trace w'
                    = trace w ++ evs
                      ++ [ManifestSaved (JDict (dict_set (lit "posts") (JList sorted) d0));
                          Printed (done_line (length new));
                          Printed (total_line (length sorted))])).
Proof.
  intros H. apply main_inv in H as (d0 & P0 & K0 & Hmk & Hl & Hd & Hk & H).
  exists d0, P0, K0. repeat split; auto.
  destruct H as [H|(Hne & st & w1 & saved & w2 & total & Hloop & Hsave & Htot & ->)];
    [now left | right]. split; [exact Hne|].
  assert (Hm0 : manifest (initial_locals (JDict d0) K0)
                = JDict (dict_set (lit "posts") (JList P0) d0)).
  { simpl. now rewrite dict_set_same. }
  destruct (grows_feeds _ _ _ _ _ _ _ _ Hm0 Hloop) as (new & evs & G & S).
  pose proof G as (Hm & Hf & Ht & _ & _ & Ha & _).
  apply save_manifest_inv in Hsave
    as (d & posts & sorted & Hmd & Hdp & Hs & -> & Hw & Hf2 & Ht2 & _).
  rewrite Hm in Hmd. injection Hmd as <-.
  rewrite dict_get_set_same in Hdp. injection Hdp as <-.
  rewrite dict_set_set in *.
  rewrite posts_of_with_posts in Htot. injection Htot as <-.
  exists st, w1, new, evs, sorted.
  split; [exact G|]. split; [exact S|]. split; [exact Hs|]. split; [exact Hw|].
  split; [exact Hf2|].
  simpl. rewrite Ht2, Ht, Ha, <- !app_assoc. reflexivity.
Qed.

Lemma loaded_ids_distinct w d0 P0 :
  load_manifest w = (Ok (JDict d0), w) ->
  dict_get (lit "posts") d0 = Some (JList P0) ->
  (forall m0 l, manifest_file w = Holds (Json m0) -> posts_of m0 = Ok l ->
     NoDup (map record_id l)) ->
  NoDup (map record_id P0).
Proof.
  intros Hl Hd Hdistinct.
  destruct (load_manifest_valid w) as (d & P & Hl' & Hd' & HP & _).
  rewrite Hl in Hl'. injection Hl' as <-.
  rewrite Hd in Hd'. injection Hd' as <-.
  destruct HP as [Hf | ->]; [|constructor].
  apply (Hdistinct _ _ Hf). apply posts_of_ok. now exists d0.
Qed.

(** C1, as the code has it.  If no two records of the manifest that a
    run loads share an id, then no two records of the manifest in the
    file after the run do: an entry whose identity is known is skipped,
    and an accepted identity is known from then on. *)
Theorem main_keeps_ids_distinct (E : env) (w w' : world) :
  main E w = (Ok tt, w') ->
  (forall m0 P0, manifest_file w = Holds (Json m0) -> posts_of m0 = Ok P0 ->
     NoDup (map record_id P0)) ->
  forall m' P', manifest_file w' = Holds (Json m') -> posts_of m' = Ok P' ->
    NoDup (map record_id P').
Proof.
  intros Hrun Hdistinct m' P' Hf' Hp'.
  apply main_run in Hrun as (d0 & P0 & K0 & _ & Hl & Hd & Hk & Hrun).
  destruct Hrun as [(_ & ->)|(_ & st & w1 & new & evs & sorted & G & _ & Hs & _ & Hf & _)].
  - apply (Hdistinct m' P'); assumption.
  - rewrite Hf in Hf'. injection Hf' as <-.
    rewrite posts_of_with_posts in Hp'. injection Hp' as <-.
    destruct (sort_by_date_spec _ _ Hs) as (Hperm & _).
    apply (Permutation_NoDup (Permutation_map record_id Hperm)).
    destruct G as (_ & _ & _ & _ & _ & _ & _ & _ & Hnew & Hnd).
    rewrite map_app. apply NoDup_app; [|exact Hnd|].
    + apply (loaded_ids_distinct w d0); assumption.
    + intros x Hx0 Hx. apply in_map_iff in Hx as (p & <- & Hp).
      rewrite Forall_forall in Hnew.
      destruct (Hnew _ Hp) as (s & Hne & Hid & Hunknown & _).
      rewrite Hid in Hx0. simpl in Hunknown.
      assert (Hknown : set_mem (JStr s) K0 = true).
      { apply (known_ids_of_spec _ _ _ Hk s Hne). now right. }
      congruence.
Qed.

(** C1, as stated, for a manifest file that holds two records of id
    [old]: [load_manifest] accepts it, the run completes, and the file
    still holds both records. *)
Lemma duplicate_ids_survive :
  fst (main env_quiet (world_with (Holds (Json manifest_twice)))) = Ok tt
  /\ final_posts env_quiet (world_with (Holds (Json manifest_twice)))
     = [record_old "Old"; record_old "Old again"]
  /\ record_id (record_old "Old") = record_id (record_old "Old again").
Proof. vm_compute. repeat split; reflexivity. Qed.

Lemma main_keeps_ids_distinct_witness :
  NoDup (map record_id (final_posts env_hello (world_with (Holds (Json manifest_one))))).
Proof.
  apply (main_keeps_ids_distinct env_hello (world_with (Holds (Json manifest_one)))
           (snd (main env_hello (world_with (Holds (Json manifest_one)))))
         ) with (m' := final_manifest env_hello (world_with (Holds (Json manifest_one)))).
  - vm_compute. reflexivity.
  - intros m0 P0 Hm Hp. simpl in Hm. injection Hm as <-.
    vm_compute in Hp. injection Hp as <-.
    vm_compute. constructor; [intros [] | constructor].
  - vm_compute. reflexivity.
  - vm_compute. reflexivity.
Defined.

(** C10. When the manifest file holds a dict with a list of posts, a run
    that completes leaves in the file a dict with the same keys in the
    same order, and with the same value under every key other than
    [posts]. *)
Theorem main_keeps_other_keys (E : env) (w w' : world)
    (d : list (str * json)) (P : list json) :
  main E w = (Ok tt, w') ->
  manifest_file w = Holds (Json (JDict d)) ->
  dict_get (lit "posts") d = Some (JList P) ->
  exists d',
    manifest_file w' = Holds (Json (JDict d'))
    /\ map fst d' = map fst d
    /\ (forall k, k <> lit "posts" -> dict_get k d' = dict_get k d).
Proof.
  intros Hrun Hf Hd.
  apply main_run in Hrun as (d0 & P0 & K0 & _ & Hl & _ & _ & Hrun).
  assert (d0 = d) as ->.
  { destruct (load_manifest_valid w) as (d1 & P1 & Hl1 & _ & _ & Hsame).
    rewrite Hl in Hl1. injection Hl1 as <-.
    assert (E1 : JDict d = JDict d0).
    { apply (Hsame _ P Hf). apply posts_of_ok. now exists d. }
    now injection E1. }
  destruct Hrun as [(_ & ->)|(_ & st & w1 & new & evs & sorted & _ & _ & _ & _ & Hf' & _)].
  - exists d. repeat split; auto.
  - exists (dict_set (lit "posts") (JList sorted) d). repeat split.
    + exact Hf'.
    + apply dict_set_keys. congruence.
    + intros k Hk. now apply dict_get_set_other.
Qed.

Lemma main_keeps_other_keys_witness :
  exists d',
    manifest_file (snd (main env_hello (world_with (Holds (Json manifest_one)))))
    = Holds (Json (JDict d'))
    /\ map fst d' = map fst dict_one
    /\ (forall k, k <> lit "posts" -> dict_get k d' = dict_get k dict_one).
Proof.
  apply (main_keeps_other_keys env_hello (world_with (Holds (Json manifest_one)))
           (snd (main env_hello (world_with (Holds (Json manifest_one)))))
           dict_one [record_old "Old"]).
  - vm_compute. reflexivity.
  - reflexivity.
  - vm_compute. reflexivity.
Defined.

(** C8, as the code has it.  A run that completes with at least one
    feed configured saves the manifest exactly once, after everything
    else it does and before the two closing lines it prints.  A run
    with no feed configured prints one line and ends without saving. *)
Theorem main_saves_once_unless_no_feeds (E : env) (w w' : world) :
  main E w = (Ok tt, w') ->
  (resolve_feeds E = [] ->
     manifest_file w' = manifest_file w
     /\ trace w' = trace w ++ [Printed NO_FEEDS_MESSAGE])
  /\ (resolve_feeds E <> [] ->
      exists before m line1 line2,
        trace w' = trace w ++ before ++ [ManifestSaved m; Printed line1; Printed line2]
        /\ Forall (fun e => is_save e = false) before
        /\ manifest_file w' = Holds (Json m)).
Proof.
  intros Hrun.
  apply main_run in Hrun as (d0 & P0 & K0 & _ & _ & _ & _ & Hrun).
  destruct Hrun as [(Hno & ->)|(Hsome & st & w1 & new & evs & sorted & G & _ & _ & _ & Hf & Ht)].
  - split; [intros _; now split | contradiction].
  - split; [contradiction | intros _].
    exists evs, (JDict (dict_set (lit "posts") (JList sorted) d0)),
      (done_line (length new)), (total_line (length sorted)).
    split; [exact Ht|]. split; [apply G | exact Hf].
Qed.

(** C8, as stated, for the feed list [,]: nothing fails, the run
    completes, and the manifest is not saved. *)
Lemma no_feeds_no_save :
  resolve_feeds env_comma = []
  /\ fst (main env_comma (world_with Absent)) = Ok tt
  /\ run_events env_comma (world_with Absent) = [Printed NO_FEEDS_MESSAGE]
  /\ length (filter is_save (run_events env_comma (world_with Absent))) = 0%nat
  /\ manifest_file (snd (main env_comma (world_with Absent))) = Absent.
Proof. vm_compute. repeat split; reflexivity. Qed.

Lemma main_saves_once_unless_no_feeds_witness :
  (resolve_feeds env_hello = [] ->
     manifest_file (snd (main env_hello (world_with Absent)))
     = manifest_file (world_with Absent)
     /\ trace (snd (main env_hello (world_with Absent)))
        = trace (world_with Absent) ++ [Printed NO_FEEDS_MESSAGE])
  /\ (resolve_feeds env_hello <> [] ->
      exists before m line1 line2,
        trace (snd (main env_hello (world_with Absent)))
        = trace (world_with Absent) ++ before
          ++ [ManifestSaved m; Printed line1; Printed line2]
        /\ Forall (fun e => is_save e = false) before
        /\ manifest_file (snd (main env_hello (world_with Absent))) = Holds (Json m)).
Proof.
  apply (main_saves_once_unless_no_feeds env_hello (world_with Absent)
           (snd (main env_hello (world_with Absent)))).
  vm_compute. reflexivity.
Defined.

(** ** A second run *)

Lemma printed_printed l1 l2 w : printed l2 (printed l1 w) = printed (l1 ++ l2) w.
Proof. unfold printed. simpl. now rewrite map_app, app_assoc. Qed.

Lemma printed_nil w : printed [] w = w.
Proof. destruct w. unfold printed. simpl. now rewrite app_nil_r. Qed.

Lemma print_printed line w : print line w = (Ok tt, printed [line] w).
Proof. reflexivity. Qed.

Lemma process_entry_seen E st entry w :
  seen (known_ids st) entry -> process_entry E st entry w = (Ok st, w).
Proof.
  intros (pid & Hp & Hk). unfold process_entry, bind, lift.
  now rewrite Hp, Hk.
Qed.

Lemma entries_seen E es st w :
  Forall (seen (known_ids st)) es ->
  for_each (process_entry E) es st w = (Ok st, w).
Proof.
  induction 1 as [|e r He _ IH]; simpl; [reflexivity|].
  unfold bind. now rewrite process_entry_seen.
Qed.

Lemma feed_seen E st feed_url w :
  Forall (seen (known_ids st)) (considered E feed_url) ->
  exists lines, process_feed E st feed_url w = (Ok st, printed lines w).
Proof.
  intros Hs. unfold process_feed, considered in *.
  unfold bind at 1. rewrite print_printed.
  unfold bind at 1.
  destruct (bozo (feedparser_parse E feed_url)).
  - rewrite print_printed, printed_printed.
    destruct (entries (feedparser_parse E feed_url)) as [|e es] eqn:Ee.
    + unfold bind, ret. rewrite print_printed, printed_printed. now eexists.
    + rewrite entries_seen by exact Hs. now eexists.
  - unfold ret at 1.
    destruct (entries (feedparser_parse E feed_url)) as [|e es] eqn:Ee.
    + unfold bind, ret. rewrite print_printed, printed_printed. now eexists.
    + rewrite entries_seen by exact Hs. now eexists.
Qed.

Lemma feeds_seen E feeds : forall st w,
  Forall (fun u => Forall (seen (known_ids st)) (considered E u)) feeds ->
  exists lines, for_each (process_feed E) feeds st w = (Ok st, printed lines w).
Proof.
  induction feeds as [|u r IH]; intros st w H; simpl.
  - exists []. now rewrite printed_nil.
  - inversion H as [|? ? Hu Hr]; subst.
    destruct (feed_seen E st u w Hu) as (l1 & E1).
    destruct (IH st (printed l1 w) Hr) as (l2 & E2).
    exists (l1 ++ l2). unfold bind. now rewrite E1, E2, printed_printed.
Qed.

Lemma sort_by_date_keys_ok l l' :
  sort_by_key_desc date_key l = Ok l' ->
  Forall (fun x => exists k, date_key x = Ok k) l.
Proof.
  unfold sort_by_key_desc.
  destruct (map_result date_key l) as [ks|] eqn:Ek; [|discriminate].
  intros _. apply (map_result_ok_each _ _ _ Ek).
Qed.

Lemma save_manifest_of_sorted E d sorted w :
  manifest_write E = Written ->
  dict_get (lit "posts") d = Some (JList sorted) ->
  sort_by_key_desc date_key sorted = Ok sorted ->
  save_manifest E (JDict d) w
  = (Ok (JDict d), {| manifest_file := Holds (Json (JDict d));
                      trace := trace w ++ [ManifestSaved (JDict d)];
                      clock_reads := clock_reads w |}).
Proof.
  intros Hw Hd Hs. unfold save_manifest, bind, lift.
  assert (Hp : posts_of (JDict d) = Ok sorted) by (apply posts_of_ok; now exists d).
  rewrite Hp, Hs. simpl with_posts. rewrite (dict_set_same _ _ _ Hd).
  unfold write_manifest. now rewrite Hw.
Qed.

Lemma load_manifest_of_valid w d l :
  manifest_file w = Holds (Json (JDict d)) ->
  dict_get (lit "posts") d = Some (JList l) ->
  load_manifest w = (Ok (JDict d), w).
Proof. intros Hf Hd. now rewrite load_manifest_spec, Hf, Hd. Qed.

Lemma load_manifest_again w w' m :
  load_manifest w = (Ok m, w) ->
  manifest_file w' = manifest_file w ->
  load_manifest w' = (Ok m, w').
Proof.
  rewrite !load_manifest_spec. intros [= <-] ->. reflexivity.
Qed.

(** C2. After a run that completes, a second run with the same
    configuration against the same feeds completes too; it writes no
    document, reports zero additions when a feed is configured, and
    leaves in the manifest file exactly what the first run left there. *)
Theorem second_run_changes_nothing (E : env) (w0 w1 : world) :
  main E w0 = (Ok tt, w1) ->
  exists w2 evs,
    main E w1 = (Ok tt, w2)
    /\ manifest_file w2 = manifest_file w1
    /\ trace w2 = trace w1 ++ evs
    /\ filter is_post_written evs = []
    /\ (resolve_feeds E <> [] -> In (Printed (done_line 0)) evs).
Proof.
  intros Hrun.
  apply main_run in Hrun as (d0 & P0 & K0 & Hmk & Hl & Hd & Hk & Hrun).
  destruct Hrun as [(Hno & ->)
                   |(Hsome & st & w1' & new & evs & sorted & G & Hseen & Hs & Hw & Hf & Ht)].
  - exists (printed [NO_FEEDS_MESSAGE] (printed [NO_FEEDS_MESSAGE] w0)), [Printed NO_FEEDS_MESSAGE].
    split; [|repeat split; auto; contradiction].
    rewrite main_unfold, Hmk.
    rewrite (load_manifest_again w0 _ _ Hl) by reflexivity.
    simpl py_get. rewrite Hd. simpl rbind. rewrite Hk, Hno. reflexivity.
  - set (d1 := dict_set (lit "posts") (JList sorted) d0) in *.
    assert (Hd1 : dict_get (lit "posts") d1 = Some (JList sorted))
      by apply dict_get_set_same.
    destruct (sort_by_date_spec _ _ Hs) as (Hperm & Hsorted & _).
    destruct G as (_ & _ & _ & _ & _ & _ & _ & Hback & Hnew & _).
    assert (Hrec : Forall (fun p => exists v, record_id p = Ok v
                                    /\ (truthy v = true -> hashable v = true)) sorted).
    { apply (Permutation_Forall Hperm). apply Forall_app. split.
      - apply (known_ids_of_each _ _ _ Hk).
      - eapply Forall_impl; [|exact Hnew].
        intros p (s & _ & Hid & _). exists (JStr s). now split. }
    destruct (known_ids_of_total _ [] Hrec) as (K2 & Hk2).
    assert (Hseen2 : Forall (fun u => Forall (seen K2) (considered E u)) (resolve_feeds E)).
    { eapply Forall_impl; [|exact Hseen]. intros u Hu.
      eapply Forall_impl; [|exact Hu]. intros e (pid & Hp & Hin).
      exists pid. split; [exact Hp|].
      pose proof (post_identity_nonempty _ _ Hp) as Hne.
      apply (known_ids_of_spec _ _ _ Hk2 pid Hne). right.
      apply (Permutation_in _ (Permutation_map record_id Hperm)).
      rewrite map_app, in_app_iff.
      destruct (Hback pid Hin) as [H0|H0]; [left | now right].
      simpl in H0. apply (known_ids_of_spec _ _ _ Hk pid Hne) in H0.
      destruct H0 as [H0|H0]; [discriminate | exact H0]. }
    destruct (feeds_seen E (resolve_feeds E) (initial_locals (JDict d1) K2) w1 Hseen2)
      as (lines & Hloop).
    assert (Hsort2 : sort_by_key_desc date_key sorted = Ok sorted).
    { apply sort_by_date_of_sorted; [|exact Hsorted].
      apply (Permutation_Forall Hperm), (sort_by_date_keys_ok _ _ Hs). }
    eexists _, (map Printed lines
                ++ [ManifestSaved (JDict d1); Printed (done_line 0);
                    Printed (total_line (length sorted))]).
    split; [|split; [|split; [|split]]].
    + rewrite main_unfold, Hmk.
      rewrite (load_manifest_of_valid w1 d1 sorted Hf Hd1).
      simpl py_get. rewrite Hd1. simpl rbind. rewrite Hk2.
      destruct (resolve_feeds E) as [|u us] eqn:Ef; [contradiction|].
      rewrite Hloop. cbn [manifest initial_locals added_count].
      rewrite (save_manifest_of_sorted E d1 sorted _ Hw Hd1 Hsort2).
      assert (Hp : posts_of (JDict d1) = Ok sorted) by (apply posts_of_ok; now exists d1).
      rewrite Hp. reflexivity.
    + simpl. now rewrite Hf.
    + simpl. rewrite <- !app_assoc. reflexivity.
    + rewrite filter_app. simpl. rewrite app_nil_r.
      clear. induction lines as [|l r IH]; simpl; auto.
    + intros _. apply in_or_app. right. right. now left.
Qed.

Lemma second_run_changes_nothing_witness :
  exists w2 evs,
    main env_hello (snd (main env_hello (world_with Absent))) = (Ok tt, w2)
    /\ manifest_file w2 = manifest_file (snd (main env_hello (world_with Absent)))
    /\ trace w2 = trace (snd (main env_hello (world_with Absent))) ++ evs
    /\ filter is_post_written evs = []
    /\ (resolve_feeds env_hello <> [] -> In (Printed (done_line 0)) evs).
Proof.
  apply (second_run_changes_nothing env_hello (world_with Absent)
           (snd (main env_hello (world_with Absent)))).
  vm_compute. reflexivity.
Defined.

(** ** Runs that complete *)

Lemma insert_desc_str_total {A} (x : json * A) l :
  (exists s, fst x = JStr s) ->
  Forall (fun p => exists s, fst p = JStr s) l ->
  exists l', insert_desc x l = Ok l'.
Proof.
  intros [s Hx]. induction 1 as [|y r [t Hy] _ [r' IH]]; simpl; [now eexists|].
  rewrite Hx, Hy. simpl. destruct (str_ltb s t); [|now eexists].
  rewrite IH. simpl. now eexists.
Qed.

Lemma sort_desc_str_total {A} (l : list (json * A)) :
  Forall (fun p => exists s, fst p = JStr s) l ->
  exists l', sort_desc l = Ok l'.
Proof.
  induction 1 as [|x r Hx Hr [r' IH]]; simpl; [now eexists|].
  rewrite IH. simpl. apply insert_desc_str_total; [exact Hx|].
  apply (Permutation_Forall (sort_desc_perm _ _ IH) Hr).
Qed.

Lemma sort_by_date_total l :
  Forall plain_record l -> exists l', sort_by_key_desc date_key l = Ok l'.
Proof.
  intros H. unfold sort_by_key_desc.
  assert (Hk : Forall (fun x => exists k, date_key x = Ok k) l).
  { eapply Forall_impl; [|exact H]. intros p (s & v & Hd & _). eauto. }
  destruct (map_result_total _ _ Hk) as [ks Ek]. rewrite Ek. simpl.
  destruct (keyed_combine _ _ _ (map_result_ok _ _ _ Ek)) as [Hc Hl].
  assert (Hs : Forall (fun p : json * json => exists s, fst p = JStr s) (combine ks l)).
  { rewrite Forall_forall in *. intros p Hp.
    assert (Hin : In (snd p) l) by (rewrite <- Hl; now apply in_map).
    destruct (H _ Hin) as (s & v & Hd & _). exists s.
    specialize (Hc p Hp). congruence. }
  destruct (sort_desc_str_total _ Hs) as [srt Es]. rewrite Es. simpl. now eexists.
Qed.

Lemma save_manifest_returns E d posts w :
  manifest_write E = Written ->
  dict_get (lit "posts") d = Some (JList posts) ->
  Forall plain_record posts ->
  exists m' w', save_manifest E (JDict d) w = (Ok m', w').
Proof.
  intros Hw Hd Hp. unfold save_manifest, bind, lift.
  assert (Hpo : posts_of (JDict d) = Ok posts) by (apply posts_of_ok; now exists d).
  rewrite Hpo. destruct (sort_by_date_total _ Hp) as [sorted ->].
  unfold write_manifest. rewrite Hw. now eexists _, _.
Qed.

Lemma write_post_file_returns E dt title content link w :
  (forall f, post_writable E f = true) ->
  exists filename w', write_post_file E dt title content link w = (Ok filename, w').
Proof.
  intros Hw. unfold write_post_file. rewrite Hw. now eexists _, _.
Qed.

Lemma post_record_plain pid title filename date_iso link content :
  plain_record (post_record pid title filename date_iso link content).
Proof. exists date_iso, (JStr pid). repeat split. Qed.

Lemma process_entry_returns E d0 P st entry w :
  manifest st = JDict (dict_set (lit "posts") (JList P) d0) ->
  Forall plain_record P ->
  (forall f, post_writable E f = true) ->
  (exists pid, post_identity entry = Ok pid) ->
  exists st' w' P',
    process_entry E st entry w = (Ok st', w')
    /\ manifest st' = JDict (dict_set (lit "posts") (JList P') d0)
    /\ Forall plain_record P'.
Proof.
  intros Hm HP Hw [pid Hp]. unfold process_entry, bind at 1, lift at 1. rewrite Hp.
  destruct (set_mem (JStr pid) (known_ids st)); [now exists st, w, P|].
  unfold bind at 1.
  destruct (pick_datetime_ok E entry w) as (dt & w1 & -> & _).
  unfold bind at 1.
  match goal with |- context [write_post_file E dt ?t ?c ?l w1] =>
    destruct (write_post_file_returns E dt t c l w1 Hw) as (filename & w2 & ->) end.
  unfold bind, print, emit, lift, ret. rewrite Hm, posts_of_with_posts.
  eexists _, _, _. split; [reflexivity|]. cbn [manifest with_posts].
  split; [now rewrite dict_set_set|].
  apply Forall_app. split; [exact HP|]. constructor; [apply post_record_plain | constructor].
Qed.

Lemma entries_return E d0 es : forall P st w,
  manifest st = JDict (dict_set (lit "posts") (JList P) d0) ->
  Forall plain_record P ->
  (forall f, post_writable E f = true) ->
  Forall (fun e => exists pid, post_identity e = Ok pid) es ->
  exists st' w' P',
    for_each (process_entry E) es st w = (Ok st', w')
    /\ manifest st' = JDict (dict_set (lit "posts") (JList P') d0)
    /\ Forall plain_record P'.
Proof.
  induction es as [|e r IH]; intros P st w Hm HP Hw Hes; simpl.
  - now exists st, w, P.
  - inversion Hes as [|? ? He Hr]; subst.
    destruct (process_entry_returns E d0 P st e w Hm HP Hw He) as (st1 & w1 & P1 & E1 & Hm1 & HP1).
    destruct (IH P1 st1 w1 Hm1 HP1 Hw Hr) as (st2 & w2 & P2 & E2 & Hm2 & HP2).
    exists st2, w2, P2. unfold bind. rewrite E1. auto.
Qed.

Lemma feed_returns E d0 P st feed_url w :
  manifest st = JDict (dict_set (lit "posts") (JList P) d0) ->
  Forall plain_record P ->
  (forall f, post_writable E f = true) ->
  Forall (fun e => exists pid, post_identity e = Ok pid) (considered E feed_url) ->
  exists st' w' P',
    process_feed E st feed_url w = (Ok st', w')
    /\ manifest st' = JDict (dict_set (lit "posts") (JList P') d0)
    /\ Forall plain_record P'.
Proof.
  intros Hm HP Hw Hes. unfold process_feed, considered in *.
  unfold bind at 1. rewrite print_printed. unfold bind at 1.
  assert (Hb : forall w1, exists w2,
             (if bozo (feedparser_parse E feed_url)
              then print (lit "  Warning: feedparser flagged a parsing issue: "
                          ++ bozo_exception (feedparser_parse E feed_url))
              else ret tt) w1 = (Ok tt, w2)).
  { intros w1. destruct (bozo _); now eexists. }
  match goal with |- context [(if _ then _ else _) ?w1] => destruct (Hb w1) as (w2 & ->) end.
  destruct (entries (feedparser_parse E feed_url)) as [|e es] eqn:Ee.
  - exists st, (printed [lit "  No entries found."] w2), P. auto.
  - apply (entries_return E d0 _ P); assumption.
Qed.

Lemma feeds_return E d0 feeds : forall P st w,
  manifest st = JDict (dict_set (lit "posts") (JList P) d0) ->
  Forall plain_record P ->
  (forall f, post_writable E f = true) ->
  Forall (fun u => Forall (fun e => exists pid, post_identity e = Ok pid) (considered E u))
    feeds ->
  exists st' w' P',
    for_each (process_feed E) feeds st w = (Ok st', w')
    /\ manifest st' = JDict (dict_set (lit "posts") (JList P') d0)
    /\ Forall plain_record P'.
Proof.
  induction feeds as [|u r IH]; intros P st w Hm HP Hw Hfs; simpl.
  - now exists st, w, P.
  - inversion Hfs as [|? ? Hu Hr]; subst.
    destruct (feed_returns E d0 P st u w Hm HP Hw Hu) as (st1 & w1 & P1 & E1 & Hm1 & HP1).
    destruct (IH P1 st1 w1 Hm1 HP1 Hw Hr) as (st2 & w2 & P2 & E2 & Hm2 & HP2).
    exists st2, w2, P2. unfold bind. rewrite E1. auto.
Qed.

(** A run completes when storage works, the records of the manifest it
    loads are plain, and the identity of every entry it considers
    resolves. *)
Lemma main_completes E w :
  mkdir_ok E = true ->
  (forall f, post_writable E f = true) ->
  manifest_write E = Written ->
  (forall data l, manifest_file w = Holds (Json data) -> posts_of data = Ok l ->
     Forall plain_record l) ->
  (forall u e, In u (resolve_feeds E) -> In e (considered E u) ->
     exists pid, post_identity e = Ok pid) ->
  exists w', main E w = (Ok tt, w').
Proof.
  intros Hmk Hpw Hmw Hplain Hids.
  destruct (load_manifest_valid w) as (d0 & P0 & Hl & Hd & HP & _).
  assert (HP0 : Forall plain_record P0).
  { destruct HP as [Hf | ->]; [|constructor].
    apply (Hplain _ _ Hf). apply posts_of_ok. now exists d0. }
  assert (Hk : exists K0, known_ids_of P0 [] = Ok K0).
  { apply known_ids_of_total. eapply Forall_impl; [|exact HP0].
    intros p (s & v & _ & Hv & Hh). eauto. }
  destruct Hk as [K0 Hk].
  rewrite main_unfold, Hmk, Hl. simpl py_get. rewrite Hd. simpl rbind. rewrite Hk.
  destruct (resolve_feeds E) as [|u us] eqn:Ef; [now eexists|].
  assert (Hm0 : manifest (initial_locals (JDict d0) K0)
                = JDict (dict_set (lit "posts") (JList P0) d0)).
  { simpl. now rewrite dict_set_same. }
  assert (Hfs : Forall (fun u => Forall (fun e => exists pid, post_identity e = Ok pid)
                                   (considered E u)) (u :: us)).
  { rewrite Forall_forall. intros u' Hu'. rewrite Forall_forall. intros e He.
    now apply (Hids u' e). }
  destruct (feeds_return E d0 (u :: us) P0 _ w Hm0 HP0 Hpw Hfs)
    as (st & w1 & P1 & -> & Hm1 & HP1).
  rewrite Hm1.
  destruct (save_manifest_returns E _ P1 w1 Hmw
              (dict_get_set_same (lit "posts") (JList P1) d0) HP1)
    as (saved & w2 & Hs).
  rewrite Hs. apply save_manifest_inv in Hs as (d & ? & sorted & _ & _ & _ & -> & _).
  rewrite posts_of_with_posts. now eexists.
Qed.

(** ** The scenarios of the design document *)

(** A feed with the one entry and an empty manifest: one document
    [2024-01-02-hello-world.html] and one record. *)
Example scenario_first_run :
  final_posts env_hello (world_with Absent)
  = [ JDict [ (lit "id", JStr (lit "abc123"));
              (lit "title", JStr (lit "Hello World"));
              (lit "slug", JStr (lit "2024-01-02-hello-world.html"));
              (lit "path", JStr (lit "posts/2024-01-02-hello-world.html"));
              (lit "date_iso", JStr (lit "2024-01-02T00:00:00+00:00"));
              (lit "source", JStr (lit "http://x/1"));
              (lit "summary", JStr (lit "Hi")) ] ]
  /\ map (fun e => match e with PostWritten f _ => f | _ => [] end)
         (filter is_post_written (run_events env_hello (world_with Absent)))
     = [lit "2024-01-02-hello-world.html"].
Proof. vm_compute. split; reflexivity. Qed.

(** A manifest file that is not JSON is read as the empty manifest. *)
Example scenario_corrupt_manifest :
  load_manifest (world_with (Holds NotJson)) = (Ok EMPTY_MANIFEST, world_with (Holds NotJson)).
Proof. reflexivity. Qed.

(* ===================================================================== *)
(** * Further properties                                                   *)
(* ===================================================================== *)

(** ** Trimming and substitution *)

Lemma drop_while_fixed f s :
  (forall c r, s = c :: r -> f c = false) -> drop_while f s = s.
Proof.
  destruct s as [|c r]; [reflexivity|]. intros H. simpl.
  now rewrite (H c r eq_refl).
Qed.

Lemma rstrip_by_fixed f s :
  (forall c r, rev s = c :: r -> f c = false) -> rstrip_by f s = s.
Proof.
  intros H. unfold rstrip_by. rewrite drop_while_fixed by exact H.
  apply rev_involutive.
Qed.

Lemma strip_by_fixed f s :
  (forall c r, s = c :: r -> f c = false) ->
  (forall c r, rev s = c :: r -> f c = false) ->
  strip_by f s = s.
Proof.
  intros H1 H2. unfold strip_by, lstrip_by.
  rewrite (drop_while_fixed f s H1). now apply rstrip_by_fixed.
Qed.

Lemma strip_by_last f s c r : rev (strip_by f s) = c :: r -> f c = false.
Proof. unfold strip_by. apply rstrip_by_last. Qed.

Lemma strip_by_idem f s : strip_by f (strip_by f s) = strip_by f s.
Proof.
  apply strip_by_fixed.
  - intros c r. apply strip_by_head.
  - intros c r. apply strip_by_last.
Qed.

Lemma strip_by_none f s :
  Forall (fun c => f c = false) s -> strip_by f s = s.
Proof.
  intros H. apply strip_by_fixed.
  - intros c r ->. now inversion H.
  - intros c r E. apply Forall_rev in H. rewrite E in H. now inversion H.
Qed.

(** A class pattern that no character of the text belongs to leaves the
    text as it is. *)
Lemma re_sub_class_none n cls repl s :
  (1 <= n)%nat -> Forall (fun c => cls c = false) s ->
  re_sub (class_min n cls) repl s = s.
Proof.
  intros Hn. induction 1 as [|c r Hc _ IH]; [reflexivity|].
  rewrite re_sub_keeps_head; [now rewrite IH|].
  now apply class_min_cons_false.
Qed.

Lemma re_hyphens_fixed s :
  no_double_hyphen s -> re_sub re_hyphens [HYPHEN] s = s.
Proof.
  induction s as [|c r IH]; [reflexivity|].
  intros [H1 H2]. rewrite re_sub_keeps_head; [now rewrite IH|].
  rewrite re_hyphens_cons. destruct (N.eqb_spec c HYPHEN) as [E|_]; [|reflexivity].
  specialize (H1 E). destruct r as [|d t]; [reflexivity|].
  simpl in H1. simpl. now rewrite H1.
Qed.

(** ** [slugify] again *)

(** The shape of every slug: not empty, made of [a-z0-9-], no two
    hyphens in a row, no hyphen at either end. *)
Lemma slugify_shape lower text :
  slugify lower text <> []
  /\ Forall (fun c => is_slug_char c = true) (slugify lower text)
  /\ no_double_hyphen (slugify lower text)
  /\ starts_with HYPHEN (slugify lower text) = false
  /\ ends_with HYPHEN (slugify lower text) = false.
Proof.
  unfold slugify.
  set (t3 := re_sub _slug_invalid [HYPHEN] _).
  set (t4 := re_sub re_hyphens [HYPHEN] t3).
  destruct (strip_chars [HYPHEN] t4) as [|c r] eqn:E.
  - vm_compute. repeat split; try discriminate; try (repeat constructor).
  - simpl or_str. rewrite <- E. split; [rewrite E; discriminate|].
    split; [|split; [|split]].
    + apply Forall_strip_by, Forall_re_sub; [repeat constructor | apply slug_invalid_sub_valid].
    + apply no_double_strip_by, re_hyphens_no_double.
    + apply strip_by_starts. intros d ->. reflexivity.
    + apply strip_by_ends. intros d ->. reflexivity.
Qed.

Lemma slug_char_not_space c : is_slug_char c = true -> isspace c = false.
Proof.
  unfold is_slug_char, isspace, HYPHEN. intros H.
  repeat (apply orb_true_iff in H as [H|H]);
    repeat match goal with
           | H : (_ && _) = true |- _ => apply andb_true_iff in H as [? ?]
           | H : (_ <=? _) = true |- _ => apply N.leb_le in H
           | H : (_ =? _) = true |- _ => apply N.eqb_eq in H
           end;
    repeat (apply orb_false_iff; split);
    try (apply andb_false_iff);
    try (apply N.eqb_neq; lia);
    try (left; apply N.leb_gt; lia);
    try (right; apply N.leb_gt; lia).
Qed.

(** X1. A slug is its own slug: when lower-casing leaves the slug as it
    is, as it does for text in [a-z0-9-], [slugify] applied to a slug
    returns it unchanged. *)
Theorem slugify_idempotent (lower : str -> str) (text : option str) :
  lower (slugify lower text) = slugify lower text ->
  slugify lower (Some (slugify lower text)) = slugify lower text.
Proof.
  intros Hlower.
  destruct (slugify_shape lower text) as (Hne & Hall & Hnd & Hs & He).
  remember (slugify lower text) as r eqn:Er.
  unfold slugify at 1.
  assert (Ho : opt_or (Some r) [] = r) by (destruct r; [contradiction | reflexivity]).
  rewrite Ho, Hlower.
  assert (Hstrip : strip r = r).
  { apply strip_by_none. eapply Forall_impl; [|exact Hall].
    intros c. apply slug_char_not_space. }
  rewrite Hstrip.
  assert (H1 : re_sub re_spaces [HYPHEN] r = r).
  { apply re_sub_class_none; [lia|]. eapply Forall_impl; [|exact Hall].
    intros c. apply slug_char_not_space. }
  rewrite H1.
  assert (H2 : re_sub _slug_invalid [HYPHEN] r = r).
  { apply re_sub_class_none; [lia|]. eapply Forall_impl; [|exact Hall].
    intros c Hc. now rewrite Hc. }
  rewrite H2, (re_hyphens_fixed r Hnd).
  assert (H3 : strip_chars [HYPHEN] r = r).
  { apply strip_by_fixed.
    - intros c t ->. simpl in Hs. simpl. now rewrite Hs.
    - intros c t E. unfold ends_with in He. rewrite E in He. simpl in He.
      simpl. now rewrite He. }
  rewrite H3. destruct r; [contradiction | reflexivity].
Qed.

Lemma slugify_idempotent_witness :
  slugify ascii_lower (Some (slugify ascii_lower (Some (lit "  Hello,  World!  "))))
  = slugify ascii_lower (Some (lit "  Hello,  World!  ")).
Proof.
  apply (slugify_idempotent ascii_lower (Some (lit "  Hello,  World!  "))).
  vm_compute. reflexivity.
Defined.

(** ** [summarize_text] again *)

Lemma rstrip_by_length f s : (length (rstrip_by f s) <= length s)%nat.
Proof.
  destruct (rstrip_by_prefix f s) as [post H].
  rewrite H at 2. rewrite length_app. lia.
Qed.

Lemma slice_to_prefix {A} n (s : list A) : exists post, s = slice_to n s ++ post.
Proof.
  unfold slice_to. destruct (0 <=? n)%Z; eexists; symmetry; apply firstn_skipn.
Qed.

(** X2. With a maximum length of at least one, the summary is never
    longer than the maximum length, whatever the input. *)
Theorem summarize_text_bounded (html : option str) (max_len : Z) :
  (1 <= max_len)%Z ->
  (Z.of_nat (length (summarize_text html max_len)) <= max_len)%Z.
Proof.
  intros Hpos. unfold summarize_text. fold (clean_text html).
  destruct (Z.ltb_spec max_len (Z.of_nat (length (clean_text html)))); [|lia].
  rewrite length_app. simpl length.
  pose proof (rstrip_by_length isspace (slice_to (max_len - 1) (clean_text html))) as H1.
  assert (H2 : (Z.of_nat (length (slice_to (max_len - 1) (clean_text html)))
                <= max_len - 1)%Z).
  { unfold slice_to. replace (0 <=? max_len - 1)%Z with true
      by (symmetry; apply Z.leb_le; lia).
    rewrite length_firstn. lia. }
  unfold rstrip. lia.
Qed.

Lemma summarize_text_bounded_witness :
  (Z.of_nat (length (summarize_text (Some (lit "<p>one  two <b>three</b></p>")) 6)) <= 6)%Z.
Proof.
  apply (summarize_text_bounded (Some (lit "<p>one  two <b>three</b></p>")) 6). lia.
Defined.

Lemma collapse_plain_spaces s : plain_spaces (re_sub re_spaces [SPACE] s).
Proof.
  unfold plain_spaces.
  induction s as [|c r IH] using str_skip_ind; [constructor|].
  rewrite re_sub_cons. unfold re_spaces, class_plus.
  destruct (isspace c) eqn:Ec.
  - rewrite class_plus_cons_true by exact Ec. cbn [app].
    constructor; [reflexivity | apply IH].
  - rewrite class_min_cons_false by (auto; lia).
    constructor; [rewrite Ec; discriminate | apply (IH 0%nat)].
Qed.

Lemma clean_text_plain_spaces html : plain_spaces (clean_text html).
Proof. apply Forall_strip_by, collapse_plain_spaces. Qed.

Lemma clean_text_last html c r : rev (clean_text html) = c :: r -> isspace c = false.
Proof. apply strip_by_last. Qed.

Lemma Forall_slice_to {A} (P : A -> Prop) n s : Forall P s -> Forall P (slice_to n s).
Proof.
  intros H. destruct (slice_to_prefix n s) as [post E].
  rewrite E in H. apply Forall_app in H. tauto.
Qed.

Lemma single_spaced_snoc s c :
  isspace c = false -> single_spaced s -> single_spaced (s ++ [c]).
Proof.
  intros Hc. induction s as [|d r IH]; simpl.
  - intros _. split; [|exact I]. now rewrite Hc.
  - intros [H1 H2]. split; [|auto].
    intros Hd. specialize (H1 Hd). destruct r as [|e t]; [exact Hc | exact H1].
Qed.

(** X3. The summary is whitespace-normalised, whatever the input and the
    maximum length: its only whitespace characters are plain spaces, no
    two of them are adjacent, and it neither begins nor ends with one. *)
Theorem summarize_text_normalised (html : option str) (max_len : Z) :
  plain_spaces (summarize_text html max_len)
  /\ single_spaced (summarize_text html max_len)
  /\ (forall c r, summarize_text html max_len = c :: r -> isspace c = false)
  /\ (forall c r, rev (summarize_text html max_len) = c :: r -> isspace c = false).
Proof.
  unfold summarize_text. fold (clean_text html).
  destruct (max_len <? Z.of_nat (length (clean_text html)))%Z.
  - set (p := rstrip (slice_to (max_len - 1) (clean_text html))).
    assert (Hpre : exists post, clean_text html = p ++ post).
    { destruct (slice_to_prefix (max_len - 1) (clean_text html)) as [post1 E1].
      destruct (rstrip_by_prefix isspace (slice_to (max_len - 1) (clean_text html)))
        as [post2 E2].
      exists (post2 ++ post1). subst p. unfold rstrip.
      rewrite app_assoc, <- E2. exact E1. }
    destruct Hpre as [post Hpre].
    split; [|split; [|split]].
    + apply Forall_app. split.
      * pose proof (clean_text_plain_spaces html) as H. unfold plain_spaces in H.
        rewrite Hpre in H. apply Forall_app in H. tauto.
      * constructor; [discriminate | constructor].
    + apply single_spaced_snoc; [reflexivity|].
      pose proof (clean_text_single_spaced html) as H.
      rewrite Hpre in H. now apply single_spaced_app_l in H.
    + intros c r E. destruct p as [|d t].
      * simpl in E. injection E as <- _. reflexivity.
      * simpl in E. injection E as <- _. simpl in Hpre.
        apply (clean_text_head _ _ _ Hpre).
    + intros c r. rewrite rev_app_distr. simpl. intros [= <- _]. reflexivity.
  - split; [|split; [|split]].
    + apply clean_text_plain_spaces.
    + apply clean_text_single_spaced.
    + apply clean_text_head.
    + apply clean_text_last.
Qed.

(** ** [post_identity] again *)

Lemma hex_digit_is_hex n : n < 16 -> is_hex_char (SHA1.hex_digit n) = true.
Proof.
  intros H. unfold SHA1.hex_digit, is_hex_char.
  destruct (N.ltb_spec n 10).
  - apply orb_true_iff. left. apply andb_true_iff.
    split; apply N.leb_le; lia.
  - apply orb_true_iff. right. apply andb_true_iff.
    split; apply N.leb_le; lia.
Qed.

Lemma hex_byte_is_hex b :
  b < 256 -> Forall (fun c => is_hex_char c = true) (SHA1.hex_byte b).
Proof.
  intros H. unfold SHA1.hex_byte.
  constructor; [|constructor; [|constructor]]; apply hex_digit_is_hex.
  - rewrite N.shiftr_div_pow2. change (2 ^ 4) with 16.
    apply N.Div0.div_lt_upper_bound. lia.
  - change 15 with (N.ones 4). rewrite N.land_ones. apply N.mod_lt. discriminate.
Qed.

Lemma be_bytes_small w n : Forall (fun b => b < 256) (SHA1.be_bytes w n).
Proof.
  unfold SHA1.be_bytes. rewrite Forall_map. apply Forall_forall. intros i _.
  change 255 with (N.ones 8). rewrite N.land_ones. apply N.mod_lt. discriminate.
Qed.

Lemma hexdigest_is_hex msg :
  Forall (fun c => is_hex_char c = true) (SHA1.hexdigest msg).
Proof.
  unfold SHA1.hexdigest, SHA1.digest.
  apply Forall_flat_map. rewrite !Forall_app.
  repeat split;
    (eapply Forall_impl; [|apply be_bytes_small]; intros b; apply hex_byte_is_hex).
Qed.

(** X4. For an entry that has neither id nor link, the identity, when
    one is returned, is a string of exactly 40 lower-case hexadecimal
    digits. *)
Theorem post_identity_digest_format (entry : FeedEntry) (pid : str) :
  truthy_opt (entry_id entry) = false ->
  truthy_opt (entry_link entry) = false ->
  post_identity entry = Ok pid ->
  length pid = 40%nat /\ Forall (fun c => is_hex_char c = true) pid.
Proof.
  intros Hid Hlink. unfold post_identity. rewrite Hid, Hlink.
  destruct (encode_utf8 (identity_base entry)) as [bytes|]; simpl; [|discriminate].
  intros [= <-]. split; [apply hexdigest_length | apply hexdigest_is_hex].
Qed.

Lemma post_identity_digest_format_witness :
  length (lit "9abe6de24a871364bf412a1c301698b5ed30dbb7") = 40%nat
  /\ Forall (fun c => is_hex_char c = true) (lit "9abe6de24a871364bf412a1c301698b5ed30dbb7").
Proof.
  apply (post_identity_digest_format entry_a_b); vm_compute; reflexivity.
Defined.

Lemma slice_to_app_long {A} (n : nat) (a b : list A) :
  (n <= length a)%nat -> slice_to (Z.of_nat n) (a ++ b) = firstn n a.
Proof.
  intros H. unfold slice_to.
  replace (0 <=? Z.of_nat n)%Z with true by (symmetry; apply Z.leb_le; lia).
  rewrite Nat2Z.id, firstn_app.
  replace (n - length a)%nat with 0%nat by lia. simpl. apply app_nil_r.
Qed.

(** X5. Only the first 512 characters count: for an entry with neither
    id nor link whose title has 512 characters or more, the identity
    does not depend on the summary. *)
Theorem post_identity_long_title (entry : FeedEntry) (summary : option str) :
  truthy_opt (entry_id entry) = false ->
  truthy_opt (entry_link entry) = false ->
  (512 <= length (attr_or_empty (entry_title entry)))%nat ->
  post_identity (with_summary entry summary) = post_identity entry.
Proof.
  intros Hid Hlink Hlen. unfold post_identity, identity_base. simpl.
  rewrite Hid, Hlink.
  change 512%Z with (Z.of_nat 512).
  now rewrite !slice_to_app_long by exact Hlen.
Qed.

Lemma post_identity_long_title_witness :
  post_identity (with_summary entry_long_title (Some (lit "another")))
  = post_identity entry_long_title.
Proof.
  apply (post_identity_long_title entry_long_title (Some (lit "another"))).
  - reflexivity.
  - reflexivity.
  - apply Nat.leb_le. vm_compute. reflexivity.
Defined.

(** ** [pick_datetime] again *)


(** ** [write_post_file] again *)

Lemma pad_rev_digits w : forall n,
  Forall (fun c => is_filename_char c = true) (pad_rev w n).
Proof.
  induction w as [|w IH]; intros n; cbn [pad_rev]; constructor; [|apply IH].
  assert (H : n mod 10 < 10) by (apply N.mod_lt; discriminate).
  remember (n mod 10) as k eqn:Ek. clear Ek IH.
  unfold is_filename_char, is_slug_char.
  apply orb_true_iff. left. apply orb_true_iff. left. apply orb_true_iff. right.
  apply andb_true_iff. split; apply N.leb_le; lia.
Qed.

Lemma zpad_filename_chars w n : Forall (fun c => is_filename_char c = true) (zpad w n).
Proof. unfold zpad. apply Forall_rev, pad_rev_digits. Qed.

Lemma strftime_ymd_filename_chars dt :
  Forall (fun c => is_filename_char c = true) (strftime_ymd dt).
Proof.
  unfold strftime_ymd. rewrite !Forall_app.
  repeat split; try apply zpad_filename_chars; now repeat constructor.
Qed.


(** ** The content of an entry *)

Lemma join_nonempty sep parts :
  parts <> [] -> Forall (fun p => p <> []) parts -> join sep parts <> [].
Proof.
  intros Hne Hall. destruct parts as [|p r]; [contradiction|].
  inversion Hall as [|? ? Hp _]; subst.
  destruct p as [|c t]; [contradiction|].
  destruct r; simpl; discriminate.
Qed.

Lemma content_values_nonempty entry : Forall (fun p => p <> []) (content_values entry).
Proof.
  unfold content_values. destruct (entry_content entry) as [parts|]; [|constructor].
  induction parts as [|c r IH]; simpl; [constructor|].
  destruct c as [[|x v]|]; simpl; auto. constructor; [discriminate | exact IH].
Qed.

(** X8. The content of an entry is its content parts, when at least one
    of them has a non-empty value: those values, in order, joined by a
    space, and the summary is then not used.  Otherwise (no content,
    parts without value, empty values) it is the summary, or the empty
    string when there is none. *)
Theorem entry_content_html_priority (entry : FeedEntry) :
  (content_values entry <> [] ->
     entry_content_html entry = join [SPACE] (content_values entry)
     /\ entry_content_html entry <> [])
  /\ (content_values entry = [] ->
      entry_content_html entry = opt_or (entry_summary entry) []).
Proof.
  pose proof (content_values_nonempty entry) as Hall.
  unfold entry_content_html, content_values in *.
  destruct (entry_content entry) as [[|c cs]|]; simpl flat_map in *.
  - split; [contradiction | reflexivity].
  - set (vals := _ ++ _) in *. split.
    + intros Hne. pose proof (join_nonempty [SPACE] vals Hne Hall) as Hj.
      destruct (join [SPACE] vals); [contradiction | now split].
    + intros ->. reflexivity.
  - split; [contradiction | reflexivity].
Qed.

(** ** The feed list *)

Lemma split_on_no_sep sep s : Forall (fun f => ~ In sep f) (split_on sep s).
Proof.
  induction s as [|c r IH]; simpl; [repeat constructor; intros []|].
  destruct (N.eqb_spec c sep) as [->|Hne].
  - constructor; [intros [] | exact IH].
  - destruct (split_on sep r) as [|f fs]; [repeat constructor|].
    + intros [H|[]]. now apply Hne.
    + inversion IH as [|? ? Hf Hfs]; subst. constructor; [|exact Hfs].
      intros [H|H]; [now apply Hne | now apply Hf].
Qed.

Lemma In_strip_by f s c : In c (strip_by f s) -> In c s.
Proof.
  unfold strip_by, lstrip_by. intros H.
  destruct (rstrip_by_prefix f (drop_while f s)) as [post E1].
  destruct (drop_while_suffix f s) as [pre E2].
  rewrite E2. apply in_or_app. right. rewrite E1. apply in_or_app. now left.
Qed.

(** X9. The feeds a run works on.  With [RSS_FEEDS] unset, empty or
    blank they are the two fallback feeds.  Otherwise they are the
    comma-separated fields of the variable, trimmed, without the blank
    ones: every feed is non-empty, has no whitespace at either end and
    contains no comma. *)
Theorem resolve_feeds_clean (E : env) :
  (ENV_FEEDS E = [] -> resolve_feeds E = FALLBACK_FEEDS)
  /\ (forall u, In u (resolve_feeds E) -> u <> [] /\ strip u = u)
  /\ (ENV_FEEDS E <> [] ->
      forall u, In u (resolve_feeds E) ->
        ~ In 44 u
        /\ exists field, In field (split_on 44 (ENV_FEEDS E)) /\ u = strip field).
Proof.
  assert (Hin : forall l u,
            In u (flat_map (fun u => match strip u with [] => [] | v => [v] end) l) ->
            exists field, In field l /\ u = strip field /\ u <> []).
  { intros l u H. apply in_flat_map in H as (x & Hx & Hu). exists x.
    destruct (strip x) as [|c r]; [contradiction|].
    destruct Hu as [<-|[]]. repeat split; auto. discriminate. }
  unfold resolve_feeds. split; [|split].
  - intros ->. vm_compute. reflexivity.
  - intros u Hu. apply Hin in Hu as (field & _ & -> & Hne).
    split; [exact Hne | apply strip_by_idem].
  - intros Hne u Hu. destruct (ENV_FEEDS E) as [|c r] eqn:Ee; [contradiction|].
    apply Hin in Hu as (field & Hf & -> & _). split; [|eauto].
    intros Hc. apply In_strip_by in Hc.
    pose proof (split_on_no_sep 44 (c :: r)) as Hs.
    rewrite Forall_forall in Hs. now apply (Hs field Hf).
Qed.

(** ** [save_manifest] and [load_manifest] together *)

(** X10. What [save_manifest] writes, [load_manifest] reads back: after
    a save that returns, loading returns the saved manifest itself, not
    the empty one. *)
Theorem save_then_load (E : env) (m m' : json) (w w' : world) :
  save_manifest E m w = (Ok m', w') ->
  load_manifest w' = (Ok m', w').
Proof.
  intros H.
  apply save_manifest_inv in H as (d & posts & sorted & _ & _ & _ & -> & _ & Hf & _).
  apply (load_manifest_of_valid w' _ sorted Hf). apply dict_get_set_same.
Qed.

Lemma save_then_load_witness :
  load_manifest (snd (save_manifest env_quiet manifest_three (world_with Absent)))
  = (Ok (saved_manifest env_quiet manifest_three (world_with Absent)),
     snd (save_manifest env_quiet manifest_three (world_with Absent))).
Proof.
  apply (save_then_load env_quiet manifest_three
           (saved_manifest env_quiet manifest_three (world_with Absent))
           (world_with Absent)).
  vm_compute. reflexivity.
Defined.

(** X11. Saving is idempotent: saving the manifest that a save returned
    returns the same manifest and writes the same content. *)
Theorem save_manifest_idempotent (E : env) (m m' : json) (w w' : world) :
  save_manifest E m w = (Ok m', w') ->
  exists w'',
    save_manifest E m' w' = (Ok m', w'')
    /\ manifest_file w'' = manifest_file w'.
Proof.
  intros H.
  apply save_manifest_inv in H as (d & posts & sorted & _ & _ & Hs & -> & Hw & Hf & _).
  destruct (sort_by_date_spec _ _ Hs) as (Hperm & Hsorted & _).
  assert (Hs2 : sort_by_key_desc date_key sorted = Ok sorted).
  { apply sort_by_date_of_sorted; [|exact Hsorted].
    apply (Permutation_Forall Hperm), (sort_by_date_keys_ok _ _ Hs). }
  eexists. split.
  - apply (save_manifest_of_sorted E _ sorted w' Hw); [apply dict_get_set_same | exact Hs2].
  - simpl. now rewrite Hf.
Qed.

Lemma save_manifest_idempotent_witness :
  exists w'',
    save_manifest env_quiet (saved_manifest env_quiet manifest_three (world_with Absent))
      (snd (save_manifest env_quiet manifest_three (world_with Absent)))
    = (Ok (saved_manifest env_quiet manifest_three (world_with Absent)), w'')
    /\ manifest_file w''
       = manifest_file (snd (save_manifest env_quiet manifest_three (world_with Absent))).
Proof.
  apply (save_manifest_idempotent env_quiet manifest_three
           (saved_manifest env_quiet manifest_three (world_with Absent))
           (world_with Absent)).
  vm_compute. reflexivity.
Defined.



(** ** Accepted entries *)

Lemma process_entry_accepts E st entry w st' w' pid :
  process_entry E st entry w = (Ok st', w') ->
  post_identity entry = Ok pid ->
  set_mem (JStr pid) (known_ids st) = false ->
  exists posts dt,
    posts_of (manifest st) = Ok posts
    /\ st' = {| manifest := with_posts (manifest st) (posts ++ [entry_record E entry pid dt]);
                known_ids := set_add (JStr pid) (known_ids st);
                added_count := S (added_count st) |}
    /\ manifest_file w' = manifest_file w
    /\ trace w' = trace w ++ [written_of E (entry, pid, dt);
                              Printed (lit "  Wrote: posts/" ++ entry_filename E entry dt)].
Proof.
  unfold process_entry. intros H Hp Hk.
  apply bind_ok in H as (pid' & w0 & Hp' & H). apply lift_ok in Hp' as [Hp' ->].
  rewrite Hp in Hp'. injection Hp' as <-. rewrite Hk in H.
  apply bind_ok in H as (dt & w1 & Hd & H).
  destruct (pick_datetime_ok E entry w) as (dt' & w1' & Hd' & Hf1 & Ht1).
  rewrite Hd in Hd'. injection Hd' as <- <-.
  apply bind_ok in H as (filename & w2 & Hw & H).
  fold (entry_title_text entry) in Hw, H.
  unfold write_post_file in Hw.
  destruct (post_writable E _); [|discriminate].
  apply bind_ok in Hw as (u0 & w2' & He & Hr). apply emit_ok in He as (Hf2 & Ht2 & _).
  unfold ret in Hr. injection Hr as <- <-.
  apply bind_ok in H as (u & w3 & He & H). apply emit_ok in He as (Hf3 & Ht3 & _).
  apply bind_ok in H as (posts & w4 & Hl & H). apply lift_ok in Hl as [Hl ->].
  unfold ret in H. injection H as <- <-.
  exists posts, dt. split; [exact Hl|]. split; [reflexivity|].
  split; [congruence|].
  rewrite Ht3, Ht2, Ht1, <- app_assoc. reflexivity.
Qed.

Lemma accepts_none E d0 P evs st w w' :
  manifest st = JDict (dict_set (lit "posts") (JList P) d0) ->
  manifest_file w' = manifest_file w ->
  trace w' = trace w ++ evs ->
  Forall (fun e => is_save e = false) evs ->
  filter is_post_written evs = [] ->
  accepts E d0 P [] evs st w st w'.
Proof.
  intros Hm Hf Ht Hs Hp. unfold accepts. simpl. rewrite app_nil_r, Hp.
  repeat split; auto; lia.
Qed.

Lemma accepts_trans E d0 P a1 a2 e1 e2 st w st1 w1 st2 w2 :
  (forall x, set_mem x (known_ids st) = true -> set_mem x (known_ids st1) = true) ->
  accepts E d0 P a1 e1 st w st1 w1 ->
  accepts E d0 (P ++ map (record_of E) a1) a2 e2 st1 w1 st2 w2 ->
  accepts E d0 P (a1 ++ a2) (e1 ++ e2) st w st2 w2.
Proof.
  intros Hmono (Hm1 & Hf1 & Ht1 & Hw1 & Hs1 & Ha1 & Hi1)
               (Hm2 & Hf2 & Ht2 & Hw2 & Hs2 & Ha2 & Hi2).
  unfold accepts. repeat split.
  - now rewrite Hm2, map_app, app_assoc.
  - congruence.
  - now rewrite Ht2, Ht1, app_assoc.
  - now rewrite filter_app, map_app, Hw1, Hw2.
  - apply Forall_app. now split.
  - rewrite length_app. lia.
  - apply Forall_app. split; [exact Hi1|].
    eapply Forall_impl; [|exact Hi2]. intros a [Hp Hk]. split; [exact Hp|].
    destruct (set_mem (JStr (snd (fst a))) (known_ids st)) eqn:E0; [|reflexivity].
    rewrite (Hmono _ E0) in Hk. discriminate.
Qed.

Lemma accepts_manifest E d0 P acc evs st w st' w' :
  accepts E d0 P acc evs st w st' w' ->
  manifest st' = JDict (dict_set (lit "posts") (JList (P ++ map (record_of E) acc)) d0).
Proof. intros H. apply H. Qed.

Lemma accepts_entry E d0 P st entry w st' w' :
  manifest st = JDict (dict_set (lit "posts") (JList P) d0) ->
  process_entry E st entry w = (Ok st', w') ->
  exists acc evs,
    accepts E d0 P acc evs st w st' w'
    /\ (length acc <= 1)%nat
    /\ (forall x, set_mem x (known_ids st) = true -> set_mem x (known_ids st') = true).
Proof.
  intros Hm H.
  destruct (process_entry_inv _ _ _ _ _ _ H) as (pid & Hpid & [(Hk & -> & ->)|(Hk & _)]).
  - exists [], []. split; [|split; [simpl; lia | auto]].
    apply accepts_none; auto. now rewrite app_nil_r.
  - destruct (process_entry_accepts _ _ _ _ _ _ _ H Hpid Hk)
      as (posts & dt & Hl & -> & Hf & Ht).
    rewrite Hm, posts_of_with_posts in Hl. injection Hl as <-.
    exists [(entry, pid, dt)],
      [written_of E (entry, pid, dt);
       Printed (lit "  Wrote: posts/" ++ entry_filename E entry dt)].
    split; [|split].
    + unfold accepts. cbn [manifest known_ids added_count map length].
      split; [rewrite Hm; simpl; now rewrite dict_set_set|].
      split; [exact Hf|]. split; [exact Ht|]. split; [reflexivity|].
      split; [repeat constructor|]. split; [lia|].
      repeat constructor; assumption.
    + simpl. lia.
    + intros x Hx. apply set_mem_add. now right.
Qed.

Lemma accepts_entries E d0 es : forall P st w st' w',
  manifest st = JDict (dict_set (lit "posts") (JList P) d0) ->
  for_each (process_entry E) es st w = (Ok st', w') ->
  exists acc evs,
    accepts E d0 P acc evs st w st' w'
    /\ (length acc <= length es)%nat
    /\ (forall x, set_mem x (known_ids st) = true -> set_mem x (known_ids st') = true).
Proof.
  induction es as [|e r IH]; intros P st w st' w' Hm; simpl.
  - unfold ret. intros [= <- <-]. exists [], []. split; [|split; [simpl; lia | auto]].
    apply accepts_none; auto. now rewrite app_nil_r.
  - intros H. apply bind_ok in H as (st1 & w1 & H1 & H2).
    destruct (accepts_entry _ _ _ _ _ _ _ _ Hm H1) as (a1 & e1 & A1 & L1 & M1).
    destruct (IH _ _ _ _ _ (accepts_manifest _ _ _ _ _ _ _ _ _ A1) H2)
      as (a2 & e2 & A2 & L2 & M2).
    exists (a1 ++ a2), (e1 ++ e2). split; [|split].
    + now apply (accepts_trans _ _ _ _ _ _ _ _ _ st1 w1).
    + rewrite length_app. lia.
    + auto.
Qed.

Lemma accepts_feed E d0 P st feed_url w st' w' :
  manifest st = JDict (dict_set (lit "posts") (JList P) d0) ->
  process_feed E st feed_url w = (Ok st', w') ->
  exists acc evs,
    accepts E d0 P acc evs st w st' w'
    /\ (length acc <= length (considered E feed_url))%nat
    /\ (forall x, set_mem x (known_ids st) = true -> set_mem x (known_ids st') = true).
Proof.
  intros Hm H. unfold process_feed in H.
  apply bind_ok in H as (u1 & w1 & Hp1 & H). apply print_ok in Hp1 as [Hf1 Ht1].
  apply bind_ok in H as (u2 & w2 & Hp2 & H).
  assert (Hw2 : exists evs2, manifest_file w2 = manifest_file w1
                             /\ trace w2 = trace w1 ++ evs2
                             /\ Forall (fun e => is_save e = false) evs2
                             /\ filter is_post_written evs2 = []).
  { destruct (bozo (feedparser_parse E feed_url)).
    - apply print_ok in Hp2 as [Hf2 Ht2]. eexists. repeat split; eauto.
    - unfold ret in Hp2. injection Hp2 as _ <-. exists [].
      rewrite app_nil_r. repeat split; auto. }
  destruct Hw2 as (evs2 & Hf2 & Ht2 & Hs2 & Hpw2).
  assert (A0 : accepts E d0 P [] (Printed (lit "Fetching: " ++ feed_url) :: evs2) st w st w2).
  { apply accepts_none; auto; try congruence; try (now constructor).
    rewrite Ht2, Ht1, <- app_assoc. reflexivity. }
  unfold considered.
  destruct (entries (feedparser_parse E feed_url)) as [|e es] eqn:Ee.
  - apply bind_ok in H as (u3 & w3 & Hp3 & H). apply print_ok in Hp3 as [Hf3 Ht3].
    unfold ret in H. injection H as <- <-.
    exists [], (Printed (lit "Fetching: " ++ feed_url)
                :: evs2 ++ [Printed (lit "  No entries found.")]).
    split; [|split; [simpl; lia | auto]].
    apply accepts_none; [exact Hm | congruence | | |].
    + rewrite Ht3, Ht2, Ht1, <- !app_assoc. reflexivity.
    + constructor; [reflexivity|]. apply Forall_app. split; [exact Hs2 | now repeat constructor].
    + simpl. rewrite filter_app, Hpw2. reflexivity.
  - apply accepts_entries with (d0 := d0) (P := P ++ map (record_of E) []) in H.
    + destruct H as (acc & evs & A & L & M).
      exists ([] ++ acc), ((Printed (lit "Fetching: " ++ feed_url) :: evs2) ++ evs).
      split; [|split; [exact L | exact M]].
      apply (accepts_trans _ _ _ _ _ _ _ _ _ st w2); auto.
    + simpl. now rewrite app_nil_r.
Qed.

Lemma accepts_feeds E d0 feeds : forall P st w st' w',
  manifest st = JDict (dict_set (lit "posts") (JList P) d0) ->
  for_each (process_feed E) feeds st w = (Ok st', w') ->
  exists acc evs,
    accepts E d0 P acc evs st w st' w'
    /\ (length acc <= list_sum (map (fun u => length (considered E u)) feeds))%nat
    /\ (forall x, set_mem x (known_ids st) = true -> set_mem x (known_ids st') = true).
Proof.
  induction feeds as [|u r IH]; intros P st w st' w' Hm; simpl.
  - unfold ret. intros [= <- <-]. exists [], []. split; [|split; [simpl; lia | auto]].
    apply accepts_none; auto. now rewrite app_nil_r.
  - intros H. apply bind_ok in H as (st1 & w1 & H1 & H2).
    destruct (accepts_feed _ _ _ _ _ _ _ _ Hm H1) as (a1 & e1 & A1 & L1 & M1).
    destruct (IH _ _ _ _ _ (accepts_manifest _ _ _ _ _ _ _ _ _ A1) H2)
      as (a2 & e2 & A2 & L2 & M2).
    exists (a1 ++ a2), (e1 ++ e2). split; [|split].
    + now apply (accepts_trans _ _ _ _ _ _ _ _ _ st1 w1).
    + rewrite length_app. lia.
    + auto.
Qed.

Lemma loaded_posts_spec w d0 P0 :
  load_manifest w = (Ok (JDict d0), w) ->
  dict_get (lit "posts") d0 = Some (JList P0) ->
  loaded_posts w = P0.
Proof.
  intros Hl Hd.
  assert (Hp : posts_of (JDict d0) = Ok P0) by (apply posts_of_ok; now exists d0).
  unfold loaded_posts. rewrite Hl. cbn [fst]. now rewrite Hp.
Qed.

(** A run that completes with a feed configured, told by the entries it
    accepted. *)
Lemma main_accepts E w w' :
  main E w = (Ok tt, w') ->
  resolve_feeds E <> [] ->
  exists d0 acc evs sorted,
    load_manifest w = (Ok (JDict d0), w)
    /\ dict_get (lit "posts") d0 = Some (JList (loaded_posts w))
    /\ sort_by_key_desc date_key (loaded_posts w ++ map (record_of E) acc) = Ok sorted
    /\ manifest_file w'
       = Holds (Json (JDict (dict_set (lit "posts") (JList sorted) d0)))
    /\ trace w'
       = trace w ++ evs
         ++ [ManifestSaved (JDict (dict_set (lit "posts") (JList sorted) d0));
             Printed (done_line (length acc));
             Printed (total_line (length sorted))]
    /\ filter is_post_written evs = map (written_of E) acc
    /\ Forall (fun e => is_save e = false) evs
    /\ Forall (fun a => post_identity (fst (fst a)) = Ok (snd (fst a))) acc
    /\ (length acc
        <= list_sum (map (fun u => length (considered E u)) (resolve_feeds E)))%nat.
Proof.
  intros H Hne. apply main_inv in H as (d0 & P0 & K0 & _ & Hl & Hd & _ & H).
  destruct H as [(Hno & _)|(_ & st & w1 & saved & w2 & total & Hloop & Hsave & Htot & ->)];
    [contradiction|].
  assert (Hm0 : manifest (initial_locals (JDict d0) K0)
                = JDict (dict_set (lit "posts") (JList P0) d0)).
  { simpl. now rewrite dict_set_same. }
  destruct (accepts_feeds _ _ _ _ _ _ _ _ Hm0 Hloop) as (acc & evs & A & L & _).
  destruct A as (Hm & Hf & Ht & Hw & Hs & Ha & Hi).
  apply save_manifest_inv in Hsave
    as (d & posts & sorted & Hmd & Hdp & Hsort & -> & _ & Hf2 & Ht2 & _).
  rewrite Hm in Hmd. injection Hmd as <-.
  rewrite dict_get_set_same in Hdp. injection Hdp as <-.
  rewrite dict_set_set in *.
  rewrite posts_of_with_posts in Htot. injection Htot as <-.
  rewrite (loaded_posts_spec w d0 P0 Hl Hd).
  exists d0, acc, evs, sorted.
  split; [exact Hl|]. split; [exact Hd|]. split; [exact Hsort|]. split; [exact Hf2|].
  split; [|split; [exact Hw|split; [exact Hs|split; [|exact L]]]].
  - simpl. rewrite Ht2, Ht, Ha, <- !app_assoc. reflexivity.
  - eapply Forall_impl; [|exact Hi]. now intros a [Hp _].
Qed.

(** ** What a completed run leaves behind *)

Lemma written_names_filter evs :
  written_names (filter is_post_written evs) = written_names evs.
Proof.
  induction evs as [|e r IH]; [reflexivity|].
  destruct e; simpl; now rewrite ?IH.
Qed.

Lemma written_names_accepted E acc :
  written_names (map (written_of E) acc)
  = map (fun a => entry_filename E (fst (fst a)) (snd a)) acc.
Proof.
  induction acc as [|[[e pid] dt] r IH]; [reflexivity|].
  simpl. now rewrite IH.
Qed.

Lemma written_names_app a b : written_names (a ++ b) = written_names a ++ written_names b.
Proof.
  induction a as [|e r IH]; [reflexivity|].
  destruct e; simpl; now rewrite ?IH.
Qed.

(** X13. The closing lines of a run tell the truth.  In a run that
    completes with a feed configured, the number printed as added is the
    number of documents the run wrote, the manifest in the file has that
    many records more than the manifest that was loaded, and the total
    printed is the number of records in the file. *)
Theorem main_report_accurate (E : env) (w w' : world) :
  main E w = (Ok tt, w') ->
  resolve_feeds E <> [] ->
  exists before m' final,
    trace w' = trace w ++ before
               ++ [ManifestSaved m';
                   Printed (done_line (length (written_names before)));
                   Printed (total_line (length final))]
    /\ manifest_file w' = Holds (Json m')
    /\ posts_of m' = Ok final
    /\ length final = (length (loaded_posts w) + length (written_names before))%nat.
Proof.
  intros H Hne.
  destruct (main_accepts E w w' H Hne)
    as (d0 & acc & evs & sorted & _ & _ & Hs & Hf & Ht & Hw & _ & _ & _).
  assert (Hn : length (written_names evs) = length acc).
  { now rewrite <- written_names_filter, Hw, written_names_accepted, length_map. }
  exists evs, (JDict (dict_set (lit "posts") (JList sorted) d0)), sorted.
  rewrite Hn. split; [exact Ht|]. split; [exact Hf|].
  split; [apply posts_of_with_posts|].
  destruct (sort_by_date_spec _ _ Hs) as (Hperm & _).
  rewrite <- (Permutation_length Hperm), length_app, length_map. reflexivity.
Qed.

Lemma main_report_accurate_witness :
  exists before m' final,
    trace (snd (main env_epoch (world_with (Holds (Json manifest_one)))))
    = trace (world_with (Holds (Json manifest_one))) ++ before
      ++ [ManifestSaved m';
          Printed (done_line (length (written_names before)));
          Printed (total_line (length final))]
    /\ manifest_file (snd (main env_epoch (world_with (Holds (Json manifest_one)))))
       = Holds (Json m')
    /\ posts_of m' = Ok final
    /\ length final
       = (length (loaded_posts (world_with (Holds (Json manifest_one))))
          + length (written_names before))%nat.
Proof.
  apply (main_report_accurate env_epoch (world_with (Holds (Json manifest_one)))
           (snd (main env_epoch (world_with (Holds (Json manifest_one)))))).
  - vm_compute. reflexivity.
  - vm_compute. discriminate.
Defined.

(** X14. A run never drops or changes a record it loaded: the posts in
    the manifest file after a completed run are, up to order, the posts
    that were loaded followed by the records added. *)
Theorem main_keeps_loaded_records (E : env) (w w' : world) (m' : json) (final : list json) :
  main E w = (Ok tt, w') ->
  manifest_file w' = Holds (Json m') ->
  posts_of m' = Ok final ->
  exists new,
    Permutation (loaded_posts w ++ new) final
    /\ (forall p, In p (loaded_posts w) -> In p final).
Proof.
  intros H Hf Hp.
  assert (Hperm : exists new, Permutation (loaded_posts w ++ new) final).
  { destruct (resolve_feeds E) as [|u us] eqn:Ef.
    - apply main_inv in H as (d0 & P0 & K0 & _ & Hl & Hd & _ & [(_ & ->)|(Hne & _)]);
        [|contradiction].
      exists []. rewrite app_nil_r. simpl in Hf.
      destruct (load_manifest_valid w) as (d1 & P1 & Hl1 & Hd1 & _ & Hsame).
      rewrite (loaded_posts_spec w d1 P1 Hl1 Hd1).
      specialize (Hsame _ _ Hf Hp). subst m'.
      apply posts_of_ok in Hp as (d2 & [= <-] & Hd2).
      rewrite Hd1 in Hd2. injection Hd2 as <-. apply Permutation_refl.
    - assert (Hne : resolve_feeds E <> []) by (rewrite Ef; discriminate).
      destruct (main_accepts E w w' H Hne)
        as (d0 & acc & evs & sorted & _ & _ & Hs & Hf' & _).
      rewrite Hf' in Hf. injection Hf as <-.
      rewrite posts_of_with_posts in Hp. injection Hp as <-.
      exists (map (record_of E) acc). apply (sort_by_date_spec _ _ Hs). }
  destruct Hperm as [new Hperm]. exists new. split; [exact Hperm|].
  intros p Hin. apply (Permutation_in _ Hperm). apply in_or_app. now left.
Qed.

Lemma main_keeps_loaded_records_witness :
  exists new,
    Permutation (loaded_posts (world_with (Holds (Json manifest_one))) ++ new)
      (final_posts env_epoch (world_with (Holds (Json manifest_one))))
    /\ (forall p, In p (loaded_posts (world_with (Holds (Json manifest_one)))) ->
          In p (final_posts env_epoch (world_with (Holds (Json manifest_one))))).
Proof.
  apply (main_keeps_loaded_records env_epoch (world_with (Holds (Json manifest_one)))
           (snd (main env_epoch (world_with (Holds (Json manifest_one)))))
           (final_manifest env_epoch (world_with (Holds (Json manifest_one))))).
  - vm_compute. reflexivity.
  - vm_compute. reflexivity.
  - vm_compute. reflexivity.
Defined.

(** X15. Every record a run adds has its document: in a run that
    completes with a feed configured, the [slug] fields of the added
    records are, in order, the names of the documents the run wrote, and
    each [path] is [posts/] followed by the slug. *)
Theorem main_records_have_documents (E : env) (w w' : world) :
  main E w = (Ok tt, w') ->
  resolve_feeds E <> [] ->
  exists before m' final new,
    trace w' = trace w ++ before
               ++ [ManifestSaved m';
                   Printed (done_line (length new));
                   Printed (total_line (length final))]
    /\ manifest_file w' = Holds (Json m')
    /\ posts_of m' = Ok final
    /\ Permutation (loaded_posts w ++ new) final
    /\ map (field "slug") new = map (fun f => Ok (JStr f)) (written_names before)
    /\ map (field "path") new
       = map (fun f => Ok (JStr (lit "posts/" ++ f))) (written_names before).
Proof.
  intros H Hne.
  destruct (main_accepts E w w' H Hne)
    as (d0 & acc & evs & sorted & _ & _ & Hs & Hf & Ht & Hw & _ & _ & _).
  exists evs, (JDict (dict_set (lit "posts") (JList sorted) d0)), sorted,
    (map (record_of E) acc).
  rewrite length_map. split; [exact Ht|]. split; [exact Hf|].
  split; [apply posts_of_with_posts|].
  split; [apply (sort_by_date_spec _ _ Hs)|].
  rewrite <- written_names_filter, Hw, written_names_accepted, !map_map.
  split; apply map_ext; intros [[e pid] dt]; reflexivity.
Qed.

Lemma main_records_have_documents_witness :
  exists before m' final new,
    trace (snd (main env_epoch (world_with (Holds (Json manifest_one)))))
    = trace (world_with (Holds (Json manifest_one))) ++ before
      ++ [ManifestSaved m';
          Printed (done_line (length new));
          Printed (total_line (length final))]
    /\ manifest_file (snd (main env_epoch (world_with (Holds (Json manifest_one)))))
       = Holds (Json m')
    /\ posts_of m' = Ok final
    /\ Permutation (loaded_posts (world_with (Holds (Json manifest_one))) ++ new) final
    /\ map (field "slug") new = map (fun f => Ok (JStr f)) (written_names before)
    /\ map (field "path") new
       = map (fun f => Ok (JStr (lit "posts/" ++ f))) (written_names before).
Proof.
  apply (main_records_have_documents env_epoch (world_with (Holds (Json manifest_one)))
           (snd (main env_epoch (world_with (Holds (Json manifest_one)))))).
  - vm_compute. reflexivity.
  - vm_compute. discriminate.
Defined.

Lemma entry_title_text_clean entry :
  entry_title_text entry <> [] /\ strip (entry_title_text entry) = entry_title_text entry.
Proof.
  unfold entry_title_text.
  destruct (strip match entry_title entry with Some t => t | None => UNTITLED end)
    as [|c r] eqn:Es.
  - split; [discriminate | vm_compute; reflexivity].
  - simpl or_str. rewrite <- Es. split; [rewrite Es; discriminate | apply strip_by_idem].
Qed.

Lemma entry_filename_chars E entry dt :
  Forall (fun c => is_filename_char c = true) (entry_filename E entry dt).
Proof.
  unfold entry_filename.
  destruct (slugify_shape (str_lower E) (Some (entry_title_text entry))) as (_ & Hall & _).
  rewrite !Forall_app. repeat split.
  - apply strftime_ymd_filename_chars.
  - now repeat constructor.
  - eapply Forall_impl; [|exact Hall]. intros c Hc.
    unfold is_filename_char. now rewrite Hc.
  - vm_compute. repeat constructor.
Qed.

Lemma summarize_text_at_most_280 html : (length (summarize_text html 280) <= 280)%nat.
Proof.
  unfold summarize_text. fold (clean_text html).
  destruct (Z.ltb_spec 280 (Z.of_nat (length (clean_text html)))); [|lia].
  rewrite length_app. simpl length.
  change (280 - 1)%Z with 279%Z.
  pose proof (rstrip_by_length isspace (slice_to 279 (clean_text html))) as H1.
  assert (H2 : (length (slice_to 279 (clean_text html)) <= 279)%nat).
  { change (slice_to 279 (clean_text html)) with (firstn 279 (clean_text html)).
    rewrite length_firstn. lia. }
  unfold rstrip. lia.
Qed.

Lemma entry_record_appended E entry pid dt :
  pid <> [] -> appended_record (entry_record E entry pid dt).
Proof.
  intros Hpid. unfold appended_record, entry_record, post_record.
  destruct (entry_title_text_clean entry) as [Ht1 Ht2].
  eexists _, _, _, _, _, _. split; [reflexivity|].
  repeat split; auto.
  - apply entry_filename_chars.
  - apply summarize_text_at_most_280.
  - apply tag_free_sound, summarize_text_tag_free.
Qed.

(** X16. Every record a run adds is well formed: it has the seven fields
    [id], [title], [slug], [path], [date_iso], [source] and [summary],
    in this order and all strings; the id and the title are not empty,
    the title has no whitespace at either end, the slug is made of
    [a-z0-9.-] only, the path is [posts/] and the slug, and the summary
    has at most 280 characters and no markup tag. *)
Theorem main_appends_well_formed_records (E : env) (w w' : world) :
  main E w = (Ok tt, w') ->
  resolve_feeds E <> [] ->
  exists m' final new,
    manifest_file w' = Holds (Json m')
    /\ posts_of m' = Ok final
    /\ Permutation (loaded_posts w ++ new) final
    /\ Forall appended_record new.
Proof.
  intros H Hne.
  destruct (main_accepts E w w' H Hne)
    as (d0 & acc & evs & sorted & _ & _ & Hs & Hf & _ & _ & _ & Hi & _).
  exists (JDict (dict_set (lit "posts") (JList sorted) d0)), sorted,
    (map (record_of E) acc).
  split; [exact Hf|]. split; [apply posts_of_with_posts|].
  split; [apply (sort_by_date_spec _ _ Hs)|].
  rewrite Forall_map. eapply Forall_impl; [|exact Hi].
  intros [[e pid] dt] Hp. simpl in *.
  apply entry_record_appended. apply (post_identity_nonempty e pid Hp).
Qed.

Lemma main_appends_well_formed_records_witness :
  exists m' final new,
    manifest_file (snd (main env_epoch (world_with (Holds (Json manifest_one)))))
    = Holds (Json m')
    /\ posts_of m' = Ok final
    /\ Permutation (loaded_posts (world_with (Holds (Json manifest_one))) ++ new) final
    /\ Forall appended_record new.
Proof.
  apply (main_appends_well_formed_records env_epoch
           (world_with (Holds (Json manifest_one)))
           (snd (main env_epoch (world_with (Holds (Json manifest_one)))))).
  - vm_compute. reflexivity.
  - vm_compute. discriminate.
Defined.

(** X17. The cap on the items of a feed bounds what a run can write:
    with a cap that is not negative, a run that completes writes at most
    cap times the number of feeds documents. *)
Theorem main_respects_item_cap (E : env) (w w' : world) :
  main E w = (Ok tt, w') ->
  (0 <= ITEMS_PER_FEED E)%Z ->
  exists evs,
    trace w' = trace w ++ evs
    /\ (Z.of_nat (length (written_names evs))
        <= ITEMS_PER_FEED E * Z.of_nat (length (resolve_feeds E)))%Z.
Proof.
  intros H Hcap.
  destruct (resolve_feeds E) as [|u us] eqn:Ef.
  - apply main_inv in H as (d0 & P0 & K0 & _ & _ & _ & _ & [(_ & ->)|(Hne & _)]);
      [|rewrite Ef in Hne; contradiction].
    exists [Printed NO_FEEDS_MESSAGE]. split; [reflexivity | simpl; lia].
  - assert (Hne : resolve_feeds E <> []) by (rewrite Ef; discriminate).
    destruct (main_accepts E w w' H Hne)
      as (d0 & acc & evs & sorted & _ & _ & _ & _ & Ht & Hw & _ & _ & Hlen).
    rewrite <- Ef. eexists. split; [exact Ht|].
    rewrite !written_names_app. simpl written_names. rewrite app_nil_r.
    rewrite <- written_names_filter, Hw, written_names_accepted, length_map.
    assert (Hsum : forall feeds,
               (Z.of_nat (list_sum (map (fun u => length (considered E u)) feeds))
                <= ITEMS_PER_FEED E * Z.of_nat (length feeds))%Z).
    { induction feeds as [|v r IH]; cbn [map list_sum fold_right length]; [simpl; lia|].
      assert (Hv : (Z.of_nat (length (considered E v)) <= ITEMS_PER_FEED E)%Z).
      { unfold considered, slice_to.
        replace (0 <=? ITEMS_PER_FEED E)%Z with true by (symmetry; apply Z.leb_le; lia).
        rewrite length_firstn. lia. }
      rewrite Nat2Z.inj_add, Nat2Z.inj_succ, <- Z.add_1_r, Z.mul_add_distr_l.
      unfold list_sum in IH. lia. }
    eapply Z.le_trans; [apply Nat2Z.inj_le; exact Hlen | apply Hsum].
Qed.

Lemma main_respects_item_cap_witness :
  exists evs,
    trace (snd (main env_epoch (world_with (Holds (Json manifest_one)))))
    = trace (world_with (Holds (Json manifest_one))) ++ evs
    /\ (Z.of_nat (length (written_names evs))
        <= ITEMS_PER_FEED env_epoch * Z.of_nat (length (resolve_feeds env_epoch)))%Z.
Proof.
  apply (main_respects_item_cap env_epoch (world_with (Holds (Json manifest_one)))
           (snd (main env_epoch (world_with (Holds (Json manifest_one)))))).
  - vm_compute. reflexivity.
  - vm_compute. discriminate.
Defined.



(** ** Runs that fail *)














Lemma known_ids_of_unusable posts : forall acc,
  Exists (fun p => id_unusable p = true) posts ->
  known_ids_of posts acc = Raise AttributeError
  \/ known_ids_of posts acc = Raise TypeError.
Proof.
  induction posts as [|p r IH]; intros acc H; [inversion H|].
  simpl. fold (record_id p). unfold id_unusable in H.
  destruct (record_id p) as [v|e] eqn:Ev.
  - simpl. destruct (truthy v) eqn:Et.
    + destruct (hashable v) eqn:Eh; [|now right].
      apply IH. inversion H as [? ? H1|? ? H1]; subst; [|exact H1].
      rewrite Ev, Et, Eh in H1. discriminate.
    + apply IH. inversion H as [? ? H1|? ? H1]; subst; [|exact H1].
      rewrite Ev, Et in H1. discriminate.
  - left. unfold record_id, py_get in Ev. destruct p; try discriminate; now inversion Ev.
Qed.

(** X20. One malformed record stops every run before it starts.  When
    the manifest file holds a dict whose [posts] is a list, and one of
    the records is not a dict or has a non-empty list or dict as its
    [id], the run raises [AttributeError] or [TypeError] while it builds
    the set of known ids: no feed is fetched, nothing is printed and
    nothing is written. *)
Theorem main_rejects_malformed_records (E : env) (w : world)
    (d : list (str * json)) (posts : list json) :
  mkdir_ok E = true ->
  manifest_file w = Holds (Json (JDict d)) ->
  dict_get (lit "posts") d = Some (JList posts) ->
  Exists (fun p => id_unusable p = true) posts ->
  main E w = (Raise AttributeError, w) \/ main E w = (Raise TypeError, w).
Proof.
  intros Hm Hf Hd Hbad. rewrite main_unfold, Hm.
  rewrite (load_manifest_of_valid w d posts Hf Hd).
  simpl py_get. rewrite Hd. simpl rbind.
  destruct (known_ids_of_unusable posts [] Hbad) as [-> | ->]; auto.
Qed.

Lemma main_rejects_malformed_records_witness :
  main env_hello (world_with (Holds (Json manifest_odd)))
  = (Raise AttributeError, world_with (Holds (Json manifest_odd)))
  \/ main env_hello (world_with (Holds (Json manifest_odd)))
     = (Raise TypeError, world_with (Holds (Json manifest_odd))).
Proof.
  apply (main_rejects_malformed_records env_hello (world_with (Holds (Json manifest_odd)))
           [(lit "posts", JList [record_old "Old"; JStr (lit "stray")])]
           [record_old "Old"; JStr (lit "stray")]).
  - reflexivity.
  - reflexivity.
  - reflexivity.
  - apply Exists_cons_tl, Exists_cons_hd. reflexivity.
Defined.

Lemma known_ids_of_truthy posts : forall acc K,
  known_ids_of posts acc = Ok K ->
  Forall (fun x => truthy x = true) acc ->
  Forall (fun x => truthy x = true) K.
Proof.
  induction posts as [|p r IH]; intros acc K; simpl.
  - now intros [= <-].
  - destruct (py_get p (lit "id") JNull) as [v|]; simpl; [|discriminate].
    destruct (truthy v) eqn:Et; [|apply IH].
    destruct (hashable v); [|discriminate].
    intros H Hacc. apply (IH _ _ H). unfold set_add.
    destruct (set_mem v acc); [exact Hacc | now constructor].
Qed.

(** X21. The set of known ids that a run starts with holds a string
    exactly when it is not empty and is the [id] of a loaded record.  An
    [id] that is missing, null or empty makes no entry known, and neither
    does an [id] that is a number, whatever digits it has. *)
Theorem known_ids_exact (posts : list json) (K : pyset) (s : str) :
  known_ids_of posts [] = Ok K ->
  (set_mem (JStr s) K = true <-> s <> [] /\ In (Ok (JStr s)) (map record_id posts)).
Proof.
  intros H. destruct s as [|c r].
  - split; [|intros [Hs _]; now contradiction Hs].
    intros Hm. exfalso.
    pose proof (known_ids_of_truthy posts [] K H (Forall_nil _)) as Ht.
    unfold set_mem in Hm. apply existsb_exists in Hm as (x & Hx & Ex).
    apply atom_eqb_str in Ex. subst x.
    rewrite Forall_forall in Ht. specialize (Ht _ Hx). discriminate.
  - rewrite (known_ids_of_spec posts [] K H (c :: r)) by discriminate.
    simpl set_mem. split; [intros [Hf|Hi]; [discriminate | split; [discriminate | exact Hi]]
                          | intros [_ Hi]; now right].
Qed.

Lemma known_ids_exact_witness :
  set_mem (JStr (lit "old")) [JStr (lit "old")] = true
  <-> lit "old" <> []
      /\ In (Ok (JStr (lit "old")))
           (map record_id [record_old "Old"; record_dated "" "2024-01-01"; JDict []]).
Proof.
  apply (known_ids_exact [record_old "Old"; record_dated "" "2024-01-01"; JDict []]
           [JStr (lit "old")] (lit "old")).
  vm_compute. reflexivity.
Defined.

(** ** Dates in order *)

Lemma str_ltb_app u : forall v s t,
  length u = length v ->
  str_ltb (u ++ s) (v ++ t)
  = if str_ltb u v then true else if str_ltb v u then false else str_ltb s t.
Proof.
  induction u as [|x u IH]; intros [|y v] s t Hl; try discriminate.
  - simpl. now destruct s, t.
  - simpl. destruct (x <? y) eqn:E1; [reflexivity|].
    destruct (y <? x) eqn:E2; [reflexivity|].
    apply IH. now injection Hl.
Qed.

Lemma str_ltb_cons c s t : str_ltb (c :: s) (c :: t) = str_ltb s t.
Proof. simpl. now rewrite N.ltb_irrefl. Qed.

Lemma zpad_snoc w n : zpad (S w) n = zpad w (n / 10) ++ [48 + n mod 10].
Proof. reflexivity. Qed.

Lemma zpad_length w : forall n, length (zpad w n) = w.
Proof.
  induction w as [|w IH]; intros n; [reflexivity|].
  rewrite zpad_snoc, length_app, IH. simpl. lia.
Qed.

Lemma str_ltb_single x y : str_ltb [x] [y] = (x <? y).
Proof. simpl. destruct (x <? y); [reflexivity|]. now destruct (y <? x). Qed.

Lemma zpad_ltb w : forall a b,
  a < 10 ^ N.of_nat w -> b < 10 ^ N.of_nat w ->
  str_ltb (zpad w a) (zpad w b) = (a <? b).
Proof.
  induction w as [|w IH]; intros a b Ha Hb.
  - simpl in Ha, Hb. assert (a = 0) by lia. assert (b = 0) by lia. now subst.
  - rewrite Nat2N.inj_succ, N.pow_succ_r' in Ha, Hb.
    rewrite !zpad_snoc, str_ltb_app by now rewrite !zpad_length.
    assert (Da : a = 10 * (a / 10) + a mod 10) by (apply N.div_mod; discriminate).
    assert (Db : b = 10 * (b / 10) + b mod 10) by (apply N.div_mod; discriminate).
    assert (Ma : a mod 10 < 10) by (apply N.mod_lt; discriminate).
    assert (Mb : b mod 10 < 10) by (apply N.mod_lt; discriminate).
    assert (Ha' : a / 10 < 10 ^ N.of_nat w) by (apply N.Div0.div_lt_upper_bound; lia).
    assert (Hb' : b / 10 < 10 ^ N.of_nat w) by (apply N.Div0.div_lt_upper_bound; lia).
    rewrite (IH _ _ Ha' Hb'), (IH _ _ Hb' Ha'), str_ltb_single.
    remember (a / 10) as qa. remember (b / 10) as qb.
    remember (a mod 10) as ra. remember (b mod 10) as rb.
    clear IH Ha' Hb' Heqqa Heqqb Heqra Heqrb Ha Hb.
    destruct (N.ltb_spec qa qb); [symmetry; apply N.ltb_lt; lia|].
    destruct (N.ltb_spec qb qa); [symmetry; apply N.ltb_ge; lia|].
    destruct (N.ltb_spec (48 + ra) (48 + rb)); symmetry;
      [apply N.ltb_lt | apply N.ltb_ge]; lia.
Qed.

Lemma zpad_field_ltb w a b s t :
  a < 10 ^ N.of_nat w -> b < 10 ^ N.of_nat w ->
  str_ltb (zpad w a ++ s) (zpad w b ++ t)
  = if a <? b then true else if b <? a then false else str_ltb s t.
Proof.
  intros Ha Hb. rewrite str_ltb_app by now rewrite !zpad_length.
  now rewrite (zpad_ltb w a b Ha Hb), (zpad_ltb w b a Hb Ha).
Qed.

Lemma isoformat_fields dt :
  isoformat dt
  = zpad 4 (year dt) ++ HYPHEN :: zpad 2 (month dt) ++ HYPHEN :: zpad 2 (day dt)
    ++ 84 :: zpad 2 (hour dt) ++ 58 :: zpad 2 (minute dt) ++ 58 :: zpad 2 (second dt)
    ++ (if microsecond dt =? 0 then lit "+00:00"
        else 46 :: zpad 6 (microsecond dt) ++ lit "+00:00").
Proof.
  unfold isoformat, strftime_ymd. rewrite <- !app_assoc.
  destruct (microsecond dt =? 0); reflexivity.
Qed.

Lemma isoformat_ltb a b :
  in_range a -> in_range b ->
  str_ltb (isoformat a) (isoformat b) = earlier a b.
Proof.
  intros (Ya & Ma & Da & Ha & Mia & Sa & Ua) (Yb & Mb & Db & Hb & Mib & Sb & Ub).
  rewrite !isoformat_fields. unfold earlier, date_fields, lex_ltb.
  rewrite (zpad_field_ltb 4) by (simpl; lia). rewrite str_ltb_cons.
  rewrite (zpad_field_ltb 2) by (simpl; lia). rewrite str_ltb_cons.
  rewrite (zpad_field_ltb 2) by (simpl; lia). rewrite str_ltb_cons.
  rewrite (zpad_field_ltb 2) by (simpl; lia). rewrite str_ltb_cons.
  rewrite (zpad_field_ltb 2) by (simpl; lia). rewrite str_ltb_cons.
  rewrite (zpad_field_ltb 2) by (simpl; lia).
  destruct (N.eqb_spec (microsecond a) 0) as [Ea|Ea];
    destruct (N.eqb_spec (microsecond b) 0) as [Eb|Eb].
  - rewrite Ea, Eb. reflexivity.
  - rewrite Ea. replace (0 <? microsecond b) with true
      by (symmetry; apply N.ltb_lt; lia).
    reflexivity.
  - rewrite Eb. replace (microsecond a <? 0) with false
      by (symmetry; apply N.ltb_ge; lia).
    replace (0 <? microsecond a) with true by (symmetry; apply N.ltb_lt; lia).
    reflexivity.
  - rewrite str_ltb_cons, (zpad_field_ltb 6) by (simpl; lia).
    now rewrite str_ltb_irrefl.
Qed.

(** X22. The order of the manifest is the order of time.  The
    [date_iso] of two records that a run appends compare, as the sort of
    [save_manifest] compares them, the way the dates picked for their
    entries do: one is smaller exactly when its date is the earlier one,
    down to the microsecond. *)
Theorem appended_records_sort_by_time (E : env)
    (entry1 entry2 : FeedEntry) (pid1 pid2 : str) (dt1 dt2 : datetime) :
  in_range dt1 -> in_range dt2 ->
  exists k1 k2,
    date_key (entry_record E entry1 pid1 dt1) = Ok k1
    /\ date_key (entry_record E entry2 pid2 dt2) = Ok k2
    /\ py_lt k1 k2 = Ok (earlier dt1 dt2).
Proof.
  intros H1 H2.
  exists (JStr (isoformat dt1)), (JStr (isoformat dt2)).
  split; [reflexivity|]. split; [reflexivity|].
  unfold py_lt. now rewrite (isoformat_ltb dt1 dt2 H1 H2).
Qed.

Lemma appended_records_sort_by_time_witness :
  exists k1 k2,
    date_key (entry_record env_epoch entry_hello (lit "abc123") (clock env_epoch 0)) = Ok k1
    /\ date_key (entry_record env_epoch entry_a_b (lit "x") (clock env_epoch 1)) = Ok k2
    /\ py_lt k1 k2 = Ok (earlier (clock env_epoch 0) (clock env_epoch 1)).
Proof.
  apply (appended_records_sort_by_time env_epoch entry_hello entry_a_b
           (lit "abc123") (lit "x") (clock env_epoch 0) (clock env_epoch 1)).
  - unfold in_range. simpl. lia.
  - unfold in_range. simpl. lia.
Defined.

(** ** Identities that cannot be computed *)

Lemma utf8_char_none c :
  c < 1114112 -> (utf8_char c = None <-> is_surrogate c = true).
Proof.
  intros Hc. unfold utf8_char, is_surrogate.
  destruct (N.ltb_spec c 128).
  { split; [discriminate|]. intros Hs.
    apply andb_true_iff in Hs as [H1 _]. apply N.leb_le in H1. lia. }
  destruct (N.ltb_spec c 2048).
  { split; [discriminate|]. intros Hs.
    apply andb_true_iff in Hs as [H1 _]. apply N.leb_le in H1. lia. }
  destruct ((55296 <=? c) && (c <=? 57343)); [tauto|].
  destruct (c <? 65536); [split; discriminate|].
  destruct (N.ltb_spec c 1114112); [split; discriminate | lia].
Qed.

Lemma encode_utf8_failure s :
  Forall (fun c => c < 1114112) s ->
  (encode_utf8 s = Raise UnicodeEncodeError <-> Exists (fun c => is_surrogate c = true) s)
  /\ (forall e, encode_utf8 s = Raise e -> e = UnicodeEncodeError).
Proof.
  induction 1 as [|c r Hc _ [IH1 IH2]]; simpl.
  - split; [split; [discriminate | intros H; inversion H] | discriminate].
  - pose proof (utf8_char_none c Hc) as Hn.
    destruct (utf8_char c) as [bs|].
    + assert (Hs : is_surrogate c <> true) by (intros Hs; apply Hn in Hs; discriminate).
      destruct (encode_utf8 r) as [rest|e]; simpl.
      * split; [split; [discriminate|] | discriminate].
        intros H. inversion H as [? ? H1|? ? H1]; subst; [contradiction|].
        apply IH1 in H1. discriminate.
      * split; [|intros e' [= <-]; now apply IH2].
        split.
        -- intros [= ->]. apply Exists_cons_tl. now apply IH1.
        -- intros H. inversion H as [? ? H1|? ? H1]; subst; [contradiction|].
           now apply IH1 in H1.
    + split; [|now intros e [= <-]].
      split; [intros _; apply Exists_cons_hd; now apply Hn | reflexivity].
Qed.

(** X23. When the identity of an entry cannot be computed.  An entry
    with a non-empty id or link always has an identity.  One without
    fails exactly when a surrogate code point is among the first 512
    characters of its title, a bar and its summary, and the exception is
    then [UnicodeEncodeError]; no other exception leaves
    [post_identity]. *)
Theorem post_identity_failure (entry : FeedEntry) :
  Forall (fun c => c < 1114112) (identity_base entry) ->
  (post_identity entry = Raise UnicodeEncodeError
   <-> truthy_opt (entry_id entry) = false
       /\ truthy_opt (entry_link entry) = false
       /\ Exists (fun c => is_surrogate c = true) (identity_base entry))
  /\ (forall e, post_identity entry = Raise e -> e = UnicodeEncodeError).
Proof.
  intros Hc. destruct (encode_utf8_failure (identity_base entry) Hc) as [H1 H2].
  unfold post_identity.
  destruct (truthy_opt (entry_id entry)).
  { split; [split; [discriminate | intros (H & _); discriminate] | discriminate]. }
  destruct (truthy_opt (entry_link entry)).
  { split; [split; [discriminate | intros (_ & H & _); discriminate] | discriminate]. }
  destruct (encode_utf8 (identity_base entry)) as [bytes|e]; simpl.
  - split; [split; [discriminate|] | discriminate].
    intros (_ & _ & H). apply H1 in H. discriminate.
  - split; [|intros e' [= <-]; now apply H2].
    split.
    + intros [= ->]. repeat split. now apply H1.
    + intros (_ & _ & H). apply H1 in H. congruence.
Qed.

Lemma post_identity_failure_witness :
  (post_identity entry_surrogate = Raise UnicodeEncodeError
   <-> truthy_opt (entry_id entry_surrogate) = false
       /\ truthy_opt (entry_link entry_surrogate) = false
       /\ Exists (fun c => is_surrogate c = true) (identity_base entry_surrogate))
  /\ (forall e, post_identity entry_surrogate = Raise e -> e = UnicodeEncodeError).
Proof.
  apply (post_identity_failure entry_surrogate).
  change (identity_base entry_surrogate) with [97; 55357; 98; 124].
  repeat constructor.
Defined.
